(** * offline-transcriber: output formatting, audio preparation and task
    validation, embedded in Rocq.

    The development follows the Python sources

    - [offline_transcriber/postprocessor.py] (timestamps, SRT, WebVTT, JSON,
      [save_transcription]),
    - [offline_transcriber/audio.py] ([preprocess_audio], [get_audio_array]),
    - [offline_transcriber/transcriber.py] ([Segment], [TranscriptionResult],
      [WhisperTranscriber.transcribe]).

    Python [str] values are modelled as byte strings holding their UTF-8
    encoding, Python [int] as [Z], Python [float] as binary64 values (module
    [Binary64]), exceptions as an outcome type. *)

From Stdlib Require Import ZArith NArith List String Ascii Lia Bool Eqdep_dec.
From stdpp Require Import gmap strings.

Import ListNotations.

(** ** Python runtime: exceptions and [str] *)

Module Py.

(** The exceptions the modelled code raises itself are [ValueError]s; whatever
    an external library raises is kept as [External] with its message. *)
Inductive exn : Type :=
| ValueError (msg : string)
| ImportError (msg : string)
| External (what : string).

Inductive outcome (A : Type) : Type :=
| Ok (a : A)
| Raise (e : exn).

Arguments Ok {A} a.
Arguments Raise {A} e.

Definition bind {A B : Type} (r : outcome A) (k : A -> outcome B) : outcome B :=
  match r with
  | Ok a => k a
  | Raise e => Raise e
  end.

Notation "'let*' x ':=' r 'in' k" := (bind r (fun x => k))
  (at level 10, x name, r at level 100, k at level 200).

(** [str(e)] of an exception *)
Definition exn_message (e : exn) : string :=
  match e with
  | ValueError msg => msg
  | ImportError msg => msg
  | External what => what
  end.

(** What the code hands to [logger]: the level and the message. *)
Inductive log_level : Type := DEBUG | INFO | WARNING | ERROR.

Definition log_record : Type := (log_level * string)%type.

Definition nl : string := String (ascii_of_N 10) EmptyString.

(** [sep.join(l)] *)
Fixpoint join (sep : string) (l : list string) : string :=
  match l with
  | [] => EmptyString
  | [x] => x
  | x :: rest => (x ++ sep ++ join sep rest)%string
  end.

(** [c.lower()] and [c.upper()] on the ASCII range; the bytes of multi-byte
    UTF-8 sequences are left alone. *)
Definition lower_ascii (c : ascii) : ascii :=
  let n := N_of_ascii c in
  if ((65 <=? n) && (n <=? 90))%N then ascii_of_N (n + 32) else c.

Fixpoint lower (s : string) : string :=
  match s with
  | EmptyString => EmptyString
  | String c s' => String (lower_ascii c) (lower s')
  end.

Definition upper_ascii (c : ascii) : ascii :=
  let n := N_of_ascii c in
  if ((97 <=? n) && (n <=? 122))%N then ascii_of_N (n - 32) else c.

Fixpoint upper (s : string) : string :=
  match s with
  | EmptyString => EmptyString
  | String c s' => String (upper_ascii c) (upper s')
  end.

(** [c.isspace()] on the ASCII range, and [s.strip()] *)
Definition is_space (c : ascii) : bool :=
  let n := N_of_ascii c in
  ((9 <=? n) && (n <=? 13) || (28 <=? n) && (n <=? 32))%N.

Fixpoint lstrip (s : string) : string :=
  match s with
  | EmptyString => EmptyString
  | String c s' => if is_space c then lstrip s' else s
  end.

Fixpoint rstrip (s : string) : string :=
  match s with
  | EmptyString => EmptyString
  | String c s' =>
      match rstrip s' with
      | EmptyString => if is_space c then EmptyString else String c EmptyString
      | t => String c t
      end
  end.

Definition strip (s : string) : string := rstrip (lstrip s).

(** Whether every character of a string satisfies [P] *)
Fixpoint all_chars (P : ascii -> bool) (s : string) : bool :=
  match s with
  | EmptyString => true
  | String c s' => P c && all_chars P s'
  end.

(** *** Decimal rendering of integers *)

Definition digit_char (d : N) : ascii := ascii_of_N (48 + d).

(** The [w] low-order decimal digits of [n], most significant first. *)
Fixpoint fixw (w : nat) (n : N) : string :=
  match w with
  | O => EmptyString
  | S w' => String (digit_char ((n / 10 ^ N.of_nat w') mod 10)) (fixw w' n)
  end.

Fixpoint ndigits_aux (fuel : nat) (n : N) : nat :=
  match fuel with
  | O => 1
  | S f => if (n <? 10)%N then 1 else S (ndigits_aux f (n / 10))
  end.

(** Number of decimal digits of [n] (1 for 0). *)
Definition ndigits (n : N) : nat := ndigits_aux (N.to_nat (N.log2 n)) n.

(** [str(n)] for an int [n >= 0] *)
Definition str_N (n : N) : string := fixw (ndigits n) n.

(** [str(z)] *)
Definition str (z : Z) : string :=
  match z with
  | Zneg p => String "-" (str_N (Npos p))
  | _ => str_N (Z.to_N z)
  end.

(** [format(z, "0{width}d")]: zero padding to [width] characters, the sign
    counting as one of them. *)
Definition format_0d (width : nat) (z : Z) : string :=
  match z with
  | Zneg p => String "-" (fixw (Nat.max (width - 1) (ndigits (Npos p))) (Npos p))
  | _ => fixw (Nat.max width (ndigits (Z.to_N z))) (Z.to_N z)
  end.

Definition is_digit (c : ascii) : bool :=
  let n := N_of_ascii c in ((48 <=? n) && (n <=? 57))%N.

(** Reading a run of decimal digits back as a number. *)
Fixpoint dec_value_aux (s : string) (acc : N) : option N :=
  match s with
  | EmptyString => Some acc
  | String c s' =>
      if is_digit c
      then dec_value_aux s' (10 * acc + (N_of_ascii c - 48))
      else None
  end.

Definition dec_value (s : string) : option N :=
  match s with
  | EmptyString => None
  | _ => dec_value_aux s 0
  end.

End Py.

Import Py.

(** ** Binary floating point

    A finite non-negative binary value [x] of a format with least positive
    value [2^-e] is stored as the integer [x * 2^e]: every value of the format
    is a whole number of such units.  [round_q prec p q] is the value nearest
    to the rational [p / q] units, ties going to the even mantissa; the grid
    step at a value whose integer part of units is [t] is
    [2 ^ (log2 t - (prec - 1))] units, and one unit below [2^prec] units
    (the subnormal range and the first normal binade). *)

Module BinaryFloat.

Local Open Scope N_scope.

Definition round_q (prec : N) (p q : N) : N :=
  let k := N.log2 (p / q) - (prec - 1) in
  let d := q * 2 ^ k in
  let m := p / d in
  let r := p mod d in
  let m' := if 2 * r <? d then m
            else if d <? 2 * r then m + 1
            else if N.even m then m else m + 1 in
  m' * 2 ^ k.

End BinaryFloat.

(** *** binary64: Python's [float]

    Units are [2^-1074].  An integer [n] of units is a binary64 value when it
    has at most 53 significant bits and is below [2^1024] as a value.
    Negative values, infinities and NaN are outside the model: the data model
    has times [>= 0], and the timestamp formatter calls [int()] on what it
    computes, which raises on the non-finite ones. *)

Module Binary64.

Local Open Scope N_scope.

(** Units per 1.0 *)
Definition U : N := 2 ^ 1074.

Definition round_q : N -> N -> N := BinaryFloat.round_q 53.

(** Rounding of an exact number of units. *)
Definition RN (n : N) : N := round_q n 1.

Definition is_b64 (n : N) : bool :=
  (n mod 2 ^ (N.log2 n - 52) =? 0) && (N.log2 n <? 2098).

Record float64 : Type := mkF { units : N; units_ok : is_b64 units = true }.

(** [float(k)] for a Python int [k >= 0] *)
Definition of_int (k : N) : N := RN (k * U).

(** [x + y], [x - y] (for [x >= y]), [x * y], [x / y] on floats *)
Definition fadd (x y : N) : N := RN (x + y).
Definition fsub (x y : N) : N := RN (x - y).
Definition fmul (x y : N) : N := round_q (x * y) U.
Definition fdiv (x y : N) : N := round_q (x * U) y.

(** [math.floor] as a float, and C's [fmod], both exact *)
Definition ffloor (x : N) : N := (x / U) * U.
Definition fmod (x y : N) : N := x mod y.

(** [int(x)]: truncation *)
Definition py_int (x : N) : Z := Z.of_N (x / U).

(** [x % y] for [x >= 0], [y > 0]: CPython's [float_rem] returns [fmod(x, y)]
    when its sign agrees with the one of [y]. *)
Definition py_mod (x y : N) : N := fmod x y.

(** [x // y] for [x >= 0], [y > 0], as CPython's [float_floor_div] computes
    it: the remainder is taken off [x], the difference is divided by [y], and
    the quotient is snapped to the nearest whole number. *)
Definition py_floordiv (x y : N) : N :=
  let md := fmod x y in
  let div := fdiv (fsub x md) y in
  if div =? 0 then 0
  else
    let floordiv := ffloor div in
    if U <? 2 * fsub div floordiv then fadd floordiv U else floordiv.

(** The value [d * 10^e10] of a decimal literal, correctly rounded: what
    [float("...")] returns. *)
Definition dec_to_units (d : N) (e10 : Z) : N :=
  match e10 with
  | Zneg p => round_q (d * U) (10 ^ Npos p)
  | _ => round_q (d * 10 ^ Z.to_N e10 * U) 1
  end.

(** Building a [float64] from a number of units, when it is one. *)
Definition to_float64 (n : N) : option float64 :=
  match is_b64 n as b return is_b64 n = b -> option float64 with
  | true => fun H => Some (mkF n H)
  | false => fun _ => None
  end eq_refl.

End Binary64.

Import Binary64.

(** *** binary32: NumPy's [float32]

    Units are [2^-149]; values are signed, the sign being kept apart from the
    magnitude, which is rounded as above with 24 bits. *)

Module Binary32.

Definition U32 : Z := 2 ^ 149.

Definition round_z (p : Z) (q : Z) : Z :=
  (Z.sgn p * Z.of_N (BinaryFloat.round_q 24 (Z.abs_N p) (Z.to_N q)))%Z.

(** Conversion of an integer to float32 (what [np.array(..., dtype=np.float32)]
    does to each integer sample). *)
Definition f32_of_int (z : Z) : Z := round_z (z * U32) 1.

(** float32 division, for a positive divisor *)
Definition f32_div (x y : Z) : Z := round_z (x * U32) y.

End Binary32.

(** ** transcriber.py: the result structure *)

Record Segment : Type := mkSegment {
  seg_id : Z;
  seg_start : float64;
  seg_end : float64;
  seg_text : string
}.

Record TranscriptionResult : Type := mkResult {
  res_text : string;
  res_segments : list Segment;
  res_language : string
}.

(** ** postprocessor.py *)

Definition _format_timestamp (seconds0 : float64) (format_type : string)
  : outcome string :=
  let seconds := units seconds0 in
  let hours := py_int (py_floordiv seconds (of_int 3600)) in
  let seconds := py_mod seconds (of_int 3600) in
  let minutes := py_int (py_floordiv seconds (of_int 60)) in
  let seconds := py_mod seconds (of_int 60) in
  let milliseconds :=
    py_int (fmul (fsub seconds (of_int (Z.to_N (py_int seconds)))) (of_int 1000)) in
  let seconds := py_int seconds in
  if String.eqb (lower format_type) "srt" then
    Ok (format_0d 2 hours ++ ":" ++ format_0d 2 minutes ++ ":"
        ++ format_0d 2 seconds ++ "," ++ format_0d 3 milliseconds)%string
  else if String.eqb (lower format_type) "vtt" then
    Ok (format_0d 2 hours ++ ":" ++ format_0d 2 minutes ++ ":"
        ++ format_0d 2 seconds ++ "." ++ format_0d 3 milliseconds)%string
  else Raise (ValueError ("Unsupported format type: " ++ format_type)%string).

Definition generate_plain_text (result : TranscriptionResult) : outcome string :=
  Ok (res_text result).

(** The loop body of [generate_srt]: four [append]s to [srt_lines]. *)
Definition srt_append (srt_lines : list string) (segment : Segment)
  : outcome (list string) :=
  let srt_lines := srt_lines ++ [str (seg_id segment + 1)] in
  let* start_time := _format_timestamp (seg_start segment) "srt" in
  let* end_time := _format_timestamp (seg_end segment) "srt" in
  let srt_lines := srt_lines ++ [(start_time ++ " --> " ++ end_time)%string] in
  let srt_lines := srt_lines ++ [seg_text segment] in
  let srt_lines := srt_lines ++ [EmptyString] in
  Ok srt_lines.

(** [for x in xs: acc = body(acc, x)], stopping at the first exception. *)
Fixpoint for_each {A S : Type} (body : S -> A -> outcome S) (xs : list A) (acc : S)
  : outcome S :=
  match xs with
  | [] => Ok acc
  | x :: rest => let* acc' := body acc x in for_each body rest acc'
  end.

Definition generate_srt (result : TranscriptionResult) : outcome string :=
  let* srt_lines := for_each srt_append (res_segments result) [] in
  Ok (join nl srt_lines).

(** The loop body of [generate_vtt]. *)
Definition vtt_append (vtt_lines : list string) (segment : Segment)
  : outcome (list string) :=
  let* start_time := _format_timestamp (seg_start segment) "vtt" in
  let* end_time := _format_timestamp (seg_end segment) "vtt" in
  let vtt_lines := vtt_lines ++ [(start_time ++ " --> " ++ end_time)%string] in
  let vtt_lines := vtt_lines ++ [seg_text segment] in
  let vtt_lines := vtt_lines ++ [EmptyString] in
  Ok vtt_lines.

Definition generate_vtt (result : TranscriptionResult) : outcome string :=
  let* vtt_lines := for_each vtt_append (res_segments result) ["WEBVTT"; ""]%string in
  Ok (join nl vtt_lines).

(** ** The [json] module: [dumps] and [loads]

    [generate_json] hands a dict to [json.dumps(..., ensure_ascii=False,
    indent=2)]; the claims read its output back with a JSON parser.  Both
    directions are library code, modelled here from the JSON grammar and the
    documented behaviour of CPython's encoder. *)

Module Json.

Local Open Scope string_scope.

#[local] Unset Elimination Schemes.

Inductive value : Type :=
| JNull
| JBool (b : bool)
| JInt (z : Z)
| JFloat (f : float64)
| JStr (s : string)
| JArr (items : list value)
| JObj (members : list (string * value)).

#[local] Set Elimination Schemes.

Definition dquote : ascii := ascii_of_N 34.
Definition backslash : ascii := ascii_of_N 92.

(** *** Numbers *)

Definition is_number_char (c : ascii) : bool :=
  (is_digit c || Ascii.eqb c "." || Ascii.eqb c "e" || Ascii.eqb c "E"
   || Ascii.eqb c "+" || Ascii.eqb c "-")%bool.

(** The longest prefix whose characters satisfy [P], and the rest. *)
Fixpoint span (P : ascii -> bool) (s : string) : string * string :=
  match s with
  | EmptyString => (EmptyString, EmptyString)
  | String c s' =>
      if P c then let '(a, b) := span P s' in (String c a, b)
      else (EmptyString, s)
  end.

(** The integer part of a JSON number: [0] or a digit run without leading
    zero. *)
Definition int_part_ok (digits : string) : bool :=
  match digits with
  | EmptyString => false
  | String c rest =>
      if Ascii.eqb c "0" then
        match rest with
        | EmptyString => true
        | _ => false
        end
      else true
  end.

(** [e], an optional sign, digits: the decimal exponent. *)
Definition parse_exponent (s : string) : option Z :=
  match s with
  | String c s' =>
      if (Ascii.eqb c "e" || Ascii.eqb c "E")%bool then
        match s' with
        | String sign ds =>
            if Ascii.eqb sign "-" then
              match dec_value ds with Some e => Some (- Z.of_N e)%Z | None => None end
            else if Ascii.eqb sign "+" then
              match dec_value ds with Some e => Some (Z.of_N e) | None => None end
            else
              match dec_value s' with Some e => Some (Z.of_N e) | None => None end
        | EmptyString => None
        end
      else None
  | EmptyString => None
  end.

(** The value of a number whose integer digits are [int_digits], followed
    by [after_int] (a fraction, an exponent, both or nothing): an int when
    nothing follows, else the correctly rounded float.  Negative floats and
    values beyond the largest float are outside the model. *)
Definition number_value (neg : bool) (int_digits after_int : string) : option value :=
  if negb (int_part_ok int_digits) then None
  else
    match dec_value int_digits with
    | None => None
    | Some i =>
        match after_int with
        | EmptyString => Some (JInt (if neg then - Z.of_N i else Z.of_N i)%Z)
        | String c rest =>
            let '(frac_digits, after_frac) :=
              if Ascii.eqb c "." then span is_digit rest else (EmptyString, after_int) in
            let frac_ok :=
              if Ascii.eqb c "." then negb (String.eqb frac_digits EmptyString) else true in
            let exponent :=
              match after_frac with
              | EmptyString => Some 0%Z
              | _ => parse_exponent after_frac
              end in
            match exponent, dec_value_aux frac_digits i with
            | Some e, Some d =>
                if (frac_ok && negb neg)%bool then
                  match to_float64
                          (dec_to_units d (e - Z.of_nat (String.length frac_digits))) with
                  | Some f => Some (JFloat f)
                  | None => None
                  end
                else None
            | _, _ => None
            end
        end
    end.

Definition split_sign (tok : string) : bool * string :=
  match tok with
  | String c rest => if Ascii.eqb c "-" then (true, rest) else (false, tok)
  | EmptyString => (false, tok)
  end.

(** A whole number token as a value *)
Definition parse_number_token (tok : string) : option value :=
  let '(int_digits, after_int) := span is_digit (snd (split_sign tok)) in
  number_value (fst (split_sign tok)) int_digits after_int.

(** *** [float.__repr__]: the shortest digit string that reads back as the
    same float, the one nearest to the float among the shortest. *)

Fixpoint zeros (k : nat) : string :=
  match k with
  | O => EmptyString
  | S k' => String "0" (zeros k')
  end.

(** Value [d * 10^q] with the trailing zeros of [d] moved into [q]. *)
Fixpoint strip_zeros (fuel : nat) (d : N) (q : Z) : N * Z :=
  match fuel with
  | O => (d, q)
  | S f =>
      if ((d mod 10 =? 0) && negb (d =? 0))%N then strip_zeros f (d / 10) (q + 1)%Z
      else (d, q)
  end.

(** The text of the digits [ds] with the decimal point before position
    [decpt]: exponent notation when [decpt <= -4] or [decpt > 16]. *)
Definition render (ds : string) (decpt : Z) : string :=
  let nd := String.length ds in
  if ((decpt <=? -4) || (16 <? decpt))%Z then
    let e := (decpt - 1)%Z in
    let mantissa :=
      match ds with
      | String c EmptyString => ds
      | String c rest => String c ("." ++ rest)
      | EmptyString => ds
      end in
    mantissa ++ "e" ++ (if (e <? 0)%Z then "-" else "+") ++ format_0d 2 (Z.abs e)
  else if (decpt <=? 0)%Z then
    "0." ++ zeros (Z.to_nat (- decpt)) ++ ds
  else if (Z.of_nat nd <=? decpt)%Z then
    ds ++ zeros (Z.to_nat decpt - nd) ++ ".0"
  else
    String.substring 0 (Z.to_nat decpt) ds ++ "."
    ++ String.substring (Z.to_nat decpt) (nd - Z.to_nat decpt) ds.

Definition render_decimal (d : N) (q : Z) : string :=
  let '(d, q) := strip_zeros 400 d q in
  let ds := str_N d in
  render ds (Z.of_nat (String.length ds) + q).

(** Whether the text reads back as the float of [n] units. *)
Definition reads_back (n : N) (s : string) : bool :=
  all_chars is_number_char s &&
  match parse_number_token s with
  | Some (JFloat f) => (units f =? n)%N
  | _ => false
  end.

(** The decimal exponent [e] with [10^(e-1) <= n / U < 10^e], for [n > 0]. *)
Fixpoint small_exponent (fuel : nat) (n : N) (k : N) : Z :=
  match fuel with
  | O => (- Z.of_N k)%Z
  | S f => if (U <=? n * 10 ^ (k + 1))%N then (- Z.of_N k)%Z
           else small_exponent f n (k + 1)
  end.

Definition decimal_exponent (n : N) : Z :=
  if (U <=? n)%N then Z.of_nat (ndigits (n / U)) else small_exponent 330 n 0.

(** The two decimals of [ndig] digits around [n] units, the nearer first. *)
Definition candidates (n : N) (e : Z) (ndig : nat) : list string :=
  let q := (e - Z.of_nat ndig)%Z in
  let '(num, den) :=
    match q with
    | Zneg p => ((n * 10 ^ Npos p)%N, U)
    | _ => (n, (U * 10 ^ Z.to_N q)%N)
    end in
  let low := (num / den)%N in
  let r := (num mod den)%N in
  if (r =? 0)%N then [render_decimal low q]
  else if (2 * r <? den)%N then [render_decimal low q; render_decimal (low + 1) q]
  else [render_decimal (low + 1) q; render_decimal low q].

Fixpoint shortest (fuel : nat) (ndig : nat) (n : N) (e : Z) : option string :=
  match fuel with
  | O => None
  | S f =>
      match List.find (reads_back n) (candidates n e ndig) with
      | Some s => Some s
      | None => shortest f (S ndig) n e
      end
  end.

(** The float written out in full: [n * 5^1074] times [10^-1074]. *)
Definition exact_repr (n : N) : string := str_N (n * 5 ^ 1074) ++ "e-1074".

Definition float_repr (f : float64) : string :=
  if (units f =? 0)%N then "0.0"
  else
    match shortest 17 1 (units f) (decimal_exponent (units f)) with
    | Some s => s
    | None => exact_repr (units f)
    end.

(** *** Strings *)

Definition hex_char (d : N) : ascii :=
  if (d <? 10)%N then ascii_of_N (48 + d) else ascii_of_N (87 + d).

(** The encoder's escapes with [ensure_ascii=False]: the quote, the
    backslash and the control characters; every other character, also
    outside ASCII, is written as it is. *)
Definition escape_char (c : ascii) : string :=
  let n := N_of_ascii c in
  if Ascii.eqb c dquote then String backslash (String dquote EmptyString)
  else if Ascii.eqb c backslash then String backslash (String backslash EmptyString)
  else if (n =? 10)%N then String backslash "n"
  else if (n =? 13)%N then String backslash "r"
  else if (n =? 9)%N then String backslash "t"
  else if (n =? 8)%N then String backslash "b"
  else if (n =? 12)%N then String backslash "f"
  else if (n <? 32)%N then
    String backslash ("u00" ++ String (hex_char (n / 16)) (String (hex_char (n mod 16)) EmptyString))
  else String c EmptyString.

Fixpoint escape (s : string) : string :=
  match s with
  | EmptyString => EmptyString
  | String c s' => escape_char c ++ escape s'
  end.

Definition encode_string (s : string) : string :=
  String dquote (escape s ++ String dquote EmptyString).

(** *** [dumps] with [indent=2] *)

Fixpoint spaces (k : nat) : string :=
  match k with
  | O => EmptyString
  | S k' => String " " (spaces k')
  end.

Definition newline_indent (level : nat) : string := nl ++ spaces (2 * level).

Fixpoint encode (level : nat) (v : value) : string :=
  match v with
  | JNull => "null"
  | JBool true => "true"
  | JBool false => "false"
  | JInt z => str z
  | JFloat f => float_repr f
  | JStr s => encode_string s
  | JArr [] => "[]"
  | JArr items =>
      "[" ++ newline_indent (S level)
      ++ join ("," ++ newline_indent (S level)) (map (encode (S level)) items)
      ++ newline_indent level ++ "]"
  | JObj [] => "{}"
  | JObj members =>
      "{" ++ newline_indent (S level)
      ++ join ("," ++ newline_indent (S level))
           (map (fun kv => encode_string (fst kv) ++ ": " ++ encode (S level) (snd kv))
                members)
      ++ newline_indent level ++ "}"
  end.

Definition dumps (v : value) : string := encode 0 v.

(** *** [loads] *)

Definition is_ws (c : ascii) : bool :=
  (Ascii.eqb c " " || (N_of_ascii c =? 9)%N || (N_of_ascii c =? 10)%N
   || (N_of_ascii c =? 13)%N)%bool.

Fixpoint skip_ws (s : string) : string :=
  match s with
  | EmptyString => EmptyString
  | String c s' => if is_ws c then skip_ws s' else s
  end.

Definition hex_value (c : ascii) : option N :=
  let n := N_of_ascii c in
  if ((48 <=? n) && (n <=? 57))%N then Some (n - 48)%N
  else if ((97 <=? n) && (n <=? 102))%N then Some (n - 87)%N
  else if ((65 <=? n) && (n <=? 70))%N then Some (n - 55)%N
  else None.

Definition hex4 (a b c d : ascii) : option N :=
  match hex_value a, hex_value b, hex_value c, hex_value d with
  | Some x, Some y, Some z, Some w => Some (((x * 16 + y) * 16 + z) * 16 + w)%N
  | _, _, _, _ => None
  end.

(** UTF-8 bytes of a code point *)
Definition utf8 (cp : N) : string :=
  let b (n : N) := ascii_of_N n in
  (if cp <? 128 then String (b cp) EmptyString
   else if cp <? 2048 then
     String (b (192 + cp / 64)) (String (b (128 + cp mod 64)) EmptyString)
   else if cp <? 65536 then
     String (b (224 + cp / 4096))
       (String (b (128 + (cp / 64) mod 64)) (String (b (128 + cp mod 64)) EmptyString))
   else
     String (b (240 + cp / 262144))
       (String (b (128 + (cp / 4096) mod 64))
          (String (b (128 + (cp / 64) mod 64)) (String (b (128 + cp mod 64)) EmptyString))))%N.

(** The text of a string literal after its opening quote, up to the closing
    one, and what follows.  Raw control characters are refused. *)
Fixpoint parse_string_body (s : string) : option (string * string) :=
  match s with
  | EmptyString => None
  | String c rest =>
      if Ascii.eqb c dquote then Some (EmptyString, rest)
      else if Ascii.eqb c backslash then
        match rest with
        | String e rest' =>
            let simple (x : N) :=
              match parse_string_body rest' with
              | Some (t, r) => Some (String (ascii_of_N x) t, r)
              | None => None
              end in
            if Ascii.eqb e dquote then simple 34%N
            else if Ascii.eqb e backslash then simple 92%N
            else if Ascii.eqb e "/" then simple 47%N
            else if Ascii.eqb e "b" then simple 8%N
            else if Ascii.eqb e "f" then simple 12%N
            else if Ascii.eqb e "n" then simple 10%N
            else if Ascii.eqb e "r" then simple 13%N
            else if Ascii.eqb e "t" then simple 9%N
            else if Ascii.eqb e "u" then
              match rest' with
              | String h1 (String h2 (String h3 (String h4 rest''))) =>
                  match hex4 h1 h2 h3 h4 with
                  | None => None
                  | Some hi =>
                      let plain :=
                        match parse_string_body rest'' with
                        | Some (t, r) => Some (utf8 hi ++ t, r)
                        | None => None
                        end in
                      if ((55296 <=? hi) && (hi <=? 56319))%N then
                        match rest'' with
                        | String b1 (String u1
                            (String l1 (String l2 (String l3 (String l4 rest3))))) =>
                            if (Ascii.eqb b1 backslash && Ascii.eqb u1 "u")%bool then
                              match hex4 l1 l2 l3 l4 with
                              | Some lo =>
                                  if ((56320 <=? lo) && (lo <=? 57343))%N then
                                    match parse_string_body rest3 with
                                    | Some (t, r) =>
                                        Some (utf8 (65536 + (hi - 55296) * 1024
                                                    + (lo - 56320))%N ++ t, r)
                                    | None => None
                                    end
                                  else plain
                              | None => plain
                              end
                            else plain
                        | _ => plain
                        end
                      else plain
                  end
              | _ => None
              end
            else None
        | EmptyString => None
        end
      else if (N_of_ascii c <? 32)%N then None
      else
        match parse_string_body rest with
        | Some (t, r) => Some (String c t, r)
        | None => None
        end
  end.

(** What follows the prefix [p] in [s], when [s] starts with it. *)
Fixpoint strip_prefix (p s : string) : option string :=
  match p with
  | EmptyString => Some s
  | String a p' =>
      match s with
      | String c s' => if Ascii.eqb a c then strip_prefix p' s' else None
      | EmptyString => None
      end
  end.

Definition parse_literal (lit : string) (v : value) (s : string) : option (value * string) :=
  match strip_prefix lit s with
  | Some r => Some (v, r)
  | None => None
  end.

Fixpoint parse_value (fuel : nat) (s : string) : option (value * string) :=
  match fuel with
  | O => None
  | S f =>
      match s with
      | EmptyString => None
      | String c rest =>
          if Ascii.eqb c dquote then
            match parse_string_body rest with
            | Some (t, r) => Some (JStr t, r)
            | None => None
            end
          else if Ascii.eqb c "{" then
            match skip_ws rest with
            | EmptyString => None
            | String c1 r =>
                if Ascii.eqb c1 "}" then Some (JObj [], r)
                else
                  match parse_members f (String c1 r) with
                  | Some (ms, r') => Some (JObj ms, r')
                  | None => None
                  end
            end
          else if Ascii.eqb c "[" then
            match skip_ws rest with
            | EmptyString => None
            | String c1 r =>
                if Ascii.eqb c1 "]" then Some (JArr [], r)
                else
                  match parse_items f (String c1 r) with
                  | Some (vs, r') => Some (JArr vs, r')
                  | None => None
                  end
            end
          else if Ascii.eqb c "n" then parse_literal "null" JNull s
          else if Ascii.eqb c "t" then parse_literal "true" (JBool true) s
          else if Ascii.eqb c "f" then parse_literal "false" (JBool false) s
          else
            let '(tok, r) := span is_number_char s in
            match parse_number_token tok with
            | Some v => Some (v, r)
            | None => None
            end
      end
  end
with parse_items (fuel : nat) (s : string) : option (list value * string) :=
  match fuel with
  | O => None
  | S f =>
      match parse_value f s with
      | None => None
      | Some (v, r) =>
          match skip_ws r with
          | EmptyString => None
          | String c r' =>
              if Ascii.eqb c "]" then Some ([v], r')
              else if Ascii.eqb c "," then
                match parse_items f (skip_ws r') with
                | Some (vs, r'') => Some (v :: vs, r'')
                | None => None
                end
              else None
          end
      end
  end
with parse_members (fuel : nat) (s : string) : option (list (string * value) * string) :=
  match fuel with
  | O => None
  | S f =>
      match s with
      | EmptyString => None
      | String c rest =>
          if Ascii.eqb c dquote then
            match parse_string_body rest with
            | None => None
            | Some (k, r) =>
                match skip_ws r with
                | EmptyString => None
                | String c1 r1 =>
                    if Ascii.eqb c1 ":" then
                      match parse_value f (skip_ws r1) with
                      | None => None
                      | Some (v, r2) =>
                          match skip_ws r2 with
                          | EmptyString => None
                          | String c2 r3 =>
                              if Ascii.eqb c2 "}" then Some ([(k, v)], r3)
                              else if Ascii.eqb c2 "," then
                                match parse_members f (skip_ws r3) with
                                | Some (ms, r4) => Some ((k, v) :: ms, r4)
                                | None => None
                                end
                              else None
                          end
                      end
                    else None
                end
            end
          else None
      end
  end.

(** [json.loads]: one value, white space around it, nothing else. *)
Definition loads (s : string) : option value :=
  match parse_value (String.length s) (skip_ws s) with
  | Some (v, r) =>
      match skip_ws r with
      | EmptyString => Some v
      | _ => None
      end
  | None => None
  end.

End Json.

(** ** postprocessor.py, continued: JSON *)

Definition segment_dict (segment : Segment) : Json.value :=
  Json.JObj [ ("id", Json.JInt (seg_id segment));
              ("start", Json.JFloat (seg_start segment));
              ("end", Json.JFloat (seg_end segment));
              ("text", Json.JStr (seg_text segment)) ]%string.

Definition json_dict (result : TranscriptionResult) : Json.value :=
  Json.JObj [ ("text", Json.JStr (res_text result));
              ("language", Json.JStr (res_language result));
              ("segments", Json.JArr (map segment_dict (res_segments result))) ]%string.

Definition generate_json (result : TranscriptionResult) : outcome string :=
  Ok (Json.dumps (json_dict result)).

(** ** postprocessor.py, continued: [save_transcription] *)

Definition generator : Type := TranscriptionResult -> outcome string.

(** The dict [format_generators] *)
Definition format_generators : gmap string generator :=
  list_to_map [ ("txt", generate_plain_text); ("srt", generate_srt);
                ("vtt", generate_vtt); ("json", generate_json) ]%string.

Section FileSystem.

(** The file system and the rest of the world, and what
    [with open(file_path, "w", encoding="utf-8") as f: f.write(content)]
    does to it: the world afterwards, and the message of the exception when
    one was raised. *)
Variable World : Type.
Variable write_file : World -> string -> string -> World * option string.

(** The local state of the loop: the dict [saved_files], the world, and what
    was handed to [logger]. *)
Record save_state : Type := mkSave {
  saved_files : gmap string string;
  world : World;
  logged : list log_record
}.

(** One iteration of [for fmt in formats].  The generator runs outside the
    [try]: an exception of it leaves the function. *)
Definition save_format (result : TranscriptionResult) (output_path : string)
    (st : save_state) (fmt : string) : outcome save_state :=
  match format_generators !! lower fmt with
  | None =>
      Ok (mkSave (saved_files st) (world st)
            (logged st ++ [(WARNING, ("Unsupported output format: " ++ fmt)%string)]))
  | Some generate =>
      let file_path := (output_path ++ "." ++ lower fmt)%string in
      let* content := generate result in
      match write_file (world st) file_path content with
      | (w, None) =>
          Ok (mkSave (<[lower fmt := file_path]> (saved_files st)) w
                (logged st
                 ++ [(INFO, ("Saved " ++ upper fmt ++ " output to: " ++ file_path)%string)]))
      | (w, Some e) =>
          Ok (mkSave (saved_files st) w
                (logged st
                 ++ [(ERROR, ("Failed to save " ++ upper fmt ++ " output: " ++ e)%string)]))
      end
  end.

Definition save_transcription (result : TranscriptionResult) (output_path : string)
    (formats : list string) (w : World) : outcome save_state :=
  for_each (save_format result output_path) formats (mkSave ∅ w []).

End FileSystem.

(** ** audio.py *)

Module Audio.

Import Binary32.

Definition SAMPLE_RATE : N := 16000.

(** pydub's [AudioSegment]: the channel count (at least 1), the frame rate,
    the bytes per sample, and the interleaved PCM samples that
    [get_array_of_samples] returns. *)
Record AudioSegment : Type := mkAudio {
  channels : positive;
  frame_rate : N;
  sample_width : N;
  pcm : list Z
}.

Section Pydub.

(** The sample conversions of pydub ([audioop]'s channel averaging and rate
    conversion) are left open: only what they are applied to matters here. *)
Variable downmix : AudioSegment -> positive -> list Z.
Variable resample : AudioSegment -> N -> list Z.

(** [AudioSegment.set_channels] and [AudioSegment.set_frame_rate]: the
    segment itself when nothing changes, else a new segment with converted
    samples and the one overridden attribute. *)
Definition set_channels (audio : AudioSegment) (n : positive) : AudioSegment :=
  if Pos.eqb n (channels audio) then audio
  else mkAudio n (frame_rate audio) (sample_width audio) (downmix audio n).

Definition set_frame_rate (audio : AudioSegment) (rate : N) : AudioSegment :=
  if N.eqb rate (frame_rate audio) then audio
  else mkAudio (channels audio) rate (sample_width audio) (resample audio rate).

(** [preprocess_audio], with the [logger.debug] lines it emits. *)
Definition preprocess_audio (audio : AudioSegment) : AudioSegment * list log_record :=
  let '(audio, log) :=
    if (1 <? channels audio)%positive then
      (set_channels audio 1,
       [(DEBUG, ("Converting from " ++ str (Zpos (channels audio))
                 ++ " channels to mono")%string)])
    else (audio, []) in
  if negb (N.eqb (frame_rate audio) SAMPLE_RATE) then
    (set_frame_rate audio SAMPLE_RATE,
     log ++ [(DEBUG, ("Resampling from " ++ str (Z.of_N (frame_rate audio)) ++ "Hz to "
                      ++ str (Z.of_N SAMPLE_RATE) ++ "Hz")%string)])
  else (audio, log).

End Pydub.

(** [AudioSegment.get_array_of_samples]: pydub has array types for 8, 16 and
    32 bits and raises [KeyError] for any other width. *)
Definition get_array_of_samples (audio : AudioSegment) : outcome (list Z) :=
  if (N.eqb (sample_width audio) 1 || N.eqb (sample_width audio) 2
      || N.eqb (sample_width audio) 4)%bool
  then Ok (pcm audio)
  else Raise (External "KeyError").

(** [get_audio_array]: the samples as float32 (in units of [2^-149]), each
    divided by [1 << (8 * sample_width - 1)]. *)
Definition get_audio_array (audio : AudioSegment) : outcome (list Z) :=
  let* raw := get_array_of_samples audio in
  let samples := map f32_of_int raw in
  let max_possible_amplitude := Z.shiftl 1 (8 * Z.of_N (sample_width audio) - 1) in
  let samples := map (fun x => f32_div x (f32_of_int max_possible_amplitude)) samples in
  Ok samples.

End Audio.

(** ** transcriber.py: [WhisperTranscriber] *)

Module Transcriber.

Definition WHISPER_MODELS : list string :=
  ["tiny"; "base"; "small"; "medium"; "large"]%string.

(** What Whisper's [transcribe] returns: a dict with the keys ["segments"],
    ["text"] and ["language"], a segment being a dict with ["start"], ["end"]
    and ["text"]. *)
Record WhisperSegment : Type := mkWSeg {
  ws_start : float64;
  ws_end : float64;
  ws_text : string
}.

Record WhisperOutput : Type := mkWOut {
  wo_segments : list WhisperSegment;
  wo_text : string;
  wo_language : string
}.

Section Engine.

(** The external engine: the model handle, the audio argument, and the two
    calls made to it, each returning its value or the message of the
    exception it raised. *)
Variable Model : Type.
Variable AudioInput : Type.
Variable whisper_load_model : string -> option string -> Model + string.
Variable model_transcribe :
  Model -> AudioInput -> option string -> string -> WhisperOutput + string.

(** The instance attributes; [model] stays [None] until the first use. *)
Record WhisperTranscriber : Type := mkTranscriber {
  model_name : string;
  device : option string;
  model : option Model
}.

(** The calls made to the engine, in order. *)
Inductive engine_call : Type :=
| LoadModel (name : string) (dev : option string)
| ModelTranscribe (task : string).

Definition init (whisper_available : bool) (name : string) (dev : option string)
  : outcome WhisperTranscriber :=
  if negb whisper_available then
    Raise (ImportError
             "Whisper is not installed. Install it with: pip install openai-whisper")
  else if negb (existsb (String.eqb name) WHISPER_MODELS) then
    Raise (ValueError ("Invalid model name: " ++ name ++ ". Choose from: "
                       ++ join ", " WHISPER_MODELS)%string)
  else Ok (mkTranscriber name dev None).

(** [load_model]: the state after the call and the engine calls made. *)
Definition load_model (self : WhisperTranscriber)
  : outcome unit * WhisperTranscriber * list engine_call :=
  match model self with
  | Some _ => (Ok tt, self, [])
  | None =>
      match whisper_load_model (model_name self) (device self) with
      | inl m => (Ok tt, mkTranscriber (model_name self) (device self) (Some m),
                  [LoadModel (model_name self) (device self)])
      | inr what => (Raise (External what), self,
                     [LoadModel (model_name self) (device self)])
      end
  end.

Fixpoint convert_from (i : Z) (segments : list WhisperSegment) : list Segment :=
  match segments with
  | [] => []
  | segment :: rest =>
      mkSegment i (ws_start segment) (ws_end segment) (strip (ws_text segment))
      :: convert_from (i + 1) rest
  end.

(** [_convert_whisper_segments]: [enumerate] numbers the segments from 0. *)
Definition _convert_whisper_segments (segments : list WhisperSegment) : list Segment :=
  convert_from 0 segments.

Definition invalid_task_message (task : string) : string :=
  ("Invalid task: " ++ task ++ ". Choose from: transcribe, translate")%string.

(** [transcribe]: the outcome, the state of the instance afterwards, and the
    engine calls made. *)
Definition transcribe (self : WhisperTranscriber) (audio : AudioInput)
    (language : option string) (task : string)
  : outcome TranscriptionResult * WhisperTranscriber * list engine_call :=
  if negb (existsb (String.eqb task) ["transcribe"; "translate"]%string) then
    (Raise (ValueError (invalid_task_message task)), self, [])
  else
    match load_model self with
    | (Raise e, self, calls) => (Raise e, self, calls)
    | (Ok _, self, calls) =>
        match model self with
        | None =>
            (Raise (ValueError
               "Transcription failed: 'NoneType' object has no attribute 'transcribe'"),
             self, calls)
        | Some m =>
            match model_transcribe m audio language task with
            | inl result =>
                (Ok (mkResult (strip (wo_text result))
                       (_convert_whisper_segments (wo_segments result))
                       (wo_language result)),
                 self, calls ++ [ModelTranscribe task])
            | inr what =>
                (Raise (ValueError ("Transcription failed: " ++ what)%string),
                 self, calls ++ [ModelTranscribe task])
            end
        end
    end.

End Engine.

End Transcriber.

(** ** Reference values used in the statements *)

(** The spec's example result (section 8), which is the fixture of
    [tests/test_postprocessor.py]. *)
Definition f_0 : float64 := mkF 0 eq_refl.
Definition f_2_5 : float64 := mkF (5 * 2 ^ 1073) eq_refl.
Definition f_5_0 : float64 := mkF (5 * 2 ^ 1074) eq_refl.
Definition f_7_5 : float64 := mkF (15 * 2 ^ 1073) eq_refl.
Definition f_3661_5 : float64 := mkF (7323 * 2 ^ 1073) eq_refl.

Definition sample_result : TranscriptionResult :=
  mkResult "This is a test transcription with multiple segments."
    [ mkSegment 0 f_0 f_2_5 "This is a test";
      mkSegment 1 f_2_5 f_5_0 "transcription with";
      mkSegment 2 f_5_0 f_7_5 "multiple segments." ]
    "en".

(** The fields of a timestamp for a time of [n] units: the hours are what
    Python's floor division gives, minutes and seconds are exact floors, and
    the milliseconds are the truncated binary64 product of the fractional part
    [n - floor n] and 1000. *)
Definition ts_hours (n : N) : N := Z.to_N (py_int (py_floordiv n (of_int 3600))).
Definition ts_minutes (n : N) : N := ((n / (60 * U)) mod 60)%N.
Definition ts_seconds (n : N) : N := ((n / U) mod 60)%N.
Definition ts_millis (n : N) : N :=
  Z.to_N (py_int (fmul (fsub n (ffloor n)) (of_int 1000))).

Definition timestamp (sep : string) (s : float64) : string :=
  (format_0d 2 (Z.of_N (ts_hours (units s))) ++ ":"
   ++ fixw 2 (ts_minutes (units s)) ++ ":"
   ++ fixw 2 (ts_seconds (units s)) ++ sep
   ++ fixw 3 (ts_millis (units s)))%string.

(** 100 hours, and two neighbouring floats just above [2^63] seconds:
    9223372036854812672.0 and the next one, 2048 seconds later. *)
Definition f_360000 : float64 := mkF (360000 * 2 ^ 1074) eq_refl.
Definition huge_1 : float64 := mkF ((2 ^ 52 + 18) * 2 ^ 11 * 2 ^ 1074) eq_refl.
Definition huge_2 : float64 := mkF ((2 ^ 52 + 19) * 2 ^ 11 * 2 ^ 1074) eq_refl.

(** The lines one segment contributes to an SRT file and to a WebVTT file,
    and the same as one piece of text. *)
Definition time_range (sep : string) (segment : Segment) : string :=
  (timestamp sep (seg_start segment) ++ " --> " ++ timestamp sep (seg_end segment))%string.

Definition srt_entry (segment : Segment) : list string :=
  [ str (seg_id segment + 1); time_range "," segment; seg_text segment; EmptyString ].

Definition vtt_entry (segment : Segment) : list string :=
  [ time_range "." segment; seg_text segment; EmptyString ].

Definition srt_block (segment : Segment) : string :=
  (str (seg_id segment + 1) ++ nl ++ time_range "," segment ++ nl
   ++ seg_text segment ++ nl)%string.

Definition vtt_block (segment : Segment) : string :=
  (time_range "." segment ++ nl ++ seg_text segment ++ nl)%string.

Fixpoint concat_strings (l : list string) : string :=
  match l with
  | [] => EmptyString
  | x :: rest => (x ++ concat_strings rest)%string
  end.

(** Whether a call returned a string that starts with [p]. *)
Definition starts_with (r : outcome string) (p : string) : bool :=
  match r with
  | Ok s => String.prefix p s
  | Raise _ => false
  end.

(** A sixteen-bit segment holding the two extreme samples and silence. *)
Definition extremes_16 : Audio.AudioSegment :=
  Audio.mkAudio 1 16000 2 [-32768; 0; 32767]%Z.

(** The four format names, and what is written for each: the reference
    renderings of the formats. *)
Definition supported (name : string) : bool :=
  existsb (String.eqb name) ["txt"; "srt"; "vtt"; "json"]%string.

Definition rendering (name : string) (result : TranscriptionResult) : string :=
  if String.eqb name "txt" then res_text result
  else if String.eqb name "srt" then join nl (flat_map srt_entry (res_segments result))
  else if String.eqb name "vtt" then
    join nl ("WEBVTT" :: "" :: flat_map vtt_entry (res_segments result))%string
  else Json.dumps (json_dict result).

(** The write attempts that the requested formats call for, in order, each
    with its format name, its path and whether it succeeded; and the world
    after them.  An attempt is made for every supported format, whatever
    became of the ones before. *)
Fixpoint attempts {World : Type}
    (write_file : World -> string -> string -> World * option string)
    (result : TranscriptionResult) (output_path : string)
    (formats : list string) (w : World) : list (string * string * bool) * World :=
  match formats with
  | [] => ([], w)
  | fmt :: rest =>
      let name := lower fmt in
      if supported name then
        let path := (output_path ++ "." ++ name)%string in
        let '(w', failure) := write_file w path (rendering name result) in
        let '(more, w'') := attempts write_file result output_path rest w' in
        ((name, path, match failure with None => true | Some _ => false end) :: more, w'')
      else attempts write_file result output_path rest w
  end.

(** An in-memory file system for the examples: a write fails on the paths
    listed as read-only and stores the content elsewhere. *)
Record mem_fs : Type := mkFS {
  files : gmap string string;
  read_only : list string
}.

Definition mem_write (fs : mem_fs) (path content : string) : mem_fs * option string :=
  if existsb (String.eqb path) (read_only fs)
  then (fs, Some "[Errno 13] Permission denied"%string)
  else (mkFS (<[path := content]> (files fs)) (read_only fs), None).

(** What [save_transcription] hands to the logger for a format it does not
    know, and the parts of a write attempt. *)
Definition is_warning (r : log_record) : bool :=
  match fst r with WARNING => true | _ => false end.

Definition unsupported_warning (fmt : string) : log_record :=
  (WARNING, ("Unsupported output format: " ++ fmt)%string).

Definition attempt_name (a : string * string * bool) : string := fst (fst a).
Definition attempt_path (a : string * string * bool) : string := snd (fst a).

(** A byte of a character outside ASCII in UTF-8. *)
Definition non_ascii (c : ascii) : bool := (128 <=? N_of_ascii c)%N.

(** [x] occurs in [y] as a run of consecutive characters. *)
Definition occurs_in (x y : string) : Prop :=
  exists pre post, y = (pre ++ x ++ post)%string.

(** A text between double quotes. *)
Definition quoted (s : string) : string :=
  String Json.dquote (s ++ String Json.dquote EmptyString).

(** [Grüße] in UTF-8. *)
Definition gruesse : string :=
  ("Gr" ++ String (ascii_of_N 195) (String (ascii_of_N 188) EmptyString)
   ++ String (ascii_of_N 195) (String (ascii_of_N 159) EmptyString) ++ "e")%string.

(** ** Trimmed texts *)

Fixpoint last_char (s : string) : option ascii :=
  match s with
  | EmptyString => None
  | String c EmptyString => Some c
  | String _ s' => last_char s'
  end.

Definition first_char (s : string) : option ascii :=
  match s with
  | EmptyString => None
  | String c _ => Some c
  end.

Definition not_space (c : option ascii) : bool :=
  match c with
  | Some c => negb (is_space c)
  | None => true
  end.

(** A text with no white space at its start and none at its end. *)
Definition trimmed (s : string) : bool :=
  not_space (first_char s) && not_space (last_char s).

(** [t] is [s] without a run of white space at each end. *)
Definition trimming_of (t s : string) : Prop :=
  trimmed t = true
  /\ exists a b,
       s = (a ++ t ++ b)%string
       /\ all_chars is_space a = true /\ all_chars is_space b = true.

(** ** A stand-in engine for the examples *)

(** An engine whose model is loaded without fail and that returns one
    segment with white space around its text. *)
Definition toy_output : Transcriber.WhisperOutput :=
  Transcriber.mkWOut [Transcriber.mkWSeg f_0 f_2_5 " This is a test "]
    " This is a test " "en".

Definition toy_load (name : string) (dev : option string) : unit + string := inl tt.

Definition toy_transcribe (m : unit) (audio : unit) (language : option string)
    (task : string) : Transcriber.WhisperOutput + string :=
  inl toy_output.

Definition toy_transcriber : Transcriber.WhisperTranscriber unit :=
  Transcriber.mkTranscriber unit "small" None None.

(** ** Python [str]: prefixes, suffixes and slices *)

(** [s.endswith(suffix)]: some tail of [s] is [suffix]. *)
Fixpoint ends_with (suffix s : string) : bool :=
  String.eqb s suffix
  || match s with
     | EmptyString => false
     | String _ s' => ends_with suffix s'
     end.

(** [s[start:stop]]: a negative index counts from the end, and both are
    clipped to the string. *)
Definition slice (s : string) (start stop : Z) : string :=
  let n := Z.of_nat (String.length s) in
  let clip i := if (i <? 0)%Z then Z.max (i + n) 0 else Z.min i n in
  let a := clip start in
  let b := clip stop in
  substring (Z.to_nat a) (Z.to_nat (b - a)) s.

(** ** transcriber.py, continued: [get_available_languages] *)

Module Languages.

Import Transcriber.

(** What the code uses of a tokenizer: the dict [token_to_id], as its items
    in order, and [decode], which returns a text or raises. *)
Record Tokenizer : Type := mkTokenizer {
  token_to_id : list (string * Z);
  decode : list Z -> string + string
}.

(** The body of the loop over [tokenizer.token_to_id.items()]. *)
Definition language_step (tokenizer : Tokenizer) (languages : gmap string string)
    (item : string * Z) : outcome (gmap string string) :=
  let '(token, token_id) := item in
  if (String.prefix "<|" token && ends_with "|>" token
      && negb (String.prefix "<|startoftranscript" token))%bool
  then
    let lang_code := slice token 2 (-2) in
    if negb (existsb (String.eqb lang_code)
               ["translate"; "transcribe"; "notimestamps"]%string)
    then
      match decode tokenizer [token_id] with
      | inl name => Ok (<[lang_code := strip name]> languages)
      | inr what => Raise (External what)
      end
    else Ok languages
  else Ok languages.

Section Engine.

Variable Model : Type.
Variable whisper_load_model : string -> option string -> Model + string.

(** [model.tokenizer]: the attribute, or the message of the exception that
    reading it raised. *)
Variable model_tokenizer : Model -> Tokenizer + string.

(** [get_available_languages]: the outcome, the instance afterwards and the
    engine calls made. *)
Definition get_available_languages (self : WhisperTranscriber Model)
  : outcome (gmap string string) * WhisperTranscriber Model * list engine_call :=
  match load_model Model whisper_load_model self with
  | (Raise e, self, calls) => (Raise e, self, calls)
  | (Ok _, self, calls) =>
      match model Model self with
      | None =>
          (Raise (External "'NoneType' object has no attribute 'tokenizer'"), self, calls)
      | Some m =>
          match model_tokenizer m with
          | inr what => (Raise (External what), self, calls)
          | inl tokenizer =>
              (for_each (language_step tokenizer) (token_to_id tokenizer) ∅, self, calls)
          end
      end
  end.

End Engine.

End Languages.

(** A token [<|code|>] for the language code [code]; the slice [token[2:-2]]
    also reads the token [<|>] as the empty code. *)
Definition token_of_code (token code : string) : Prop :=
  token = ("<|" ++ code ++ "|>")%string \/ (token = "<|>"%string /\ code = ""%string).

(** A vocabulary for the examples. *)
Definition toy_tokenizer : Languages.Tokenizer :=
  Languages.mkTokenizer
    [ ("hello", 1%Z); ("<|en|>", 2%Z); ("<|de|>", 3%Z); ("<|translate|>", 4%Z);
      ("<|startoftranscript|>", 5%Z); ("<|endoftext|>", 6%Z); ("<|>", 7%Z) ]%string
    (fun ids =>
       match ids with
       | [2%Z] => inl " english"
       | [3%Z] => inl "german "
       | _ => inl "?"
       end)%string.

(** ** The time a timestamp shows *)

(** The milliseconds that the fields of the timestamp of [n] units add up
    to. *)
Definition timestamp_millis (n : N) : N :=
  (((ts_hours n * 60 + ts_minutes n) * 60 + ts_seconds n) * 1000 + ts_millis n)%N.

(** The float 0.29, which is 5224175567749775 / 2^54. *)
Definition f_0_29 : float64 := mkF (5224175567749775 * 2 ^ 1020) eq_refl.

(** ** cli.py: paths and formats *)

Module Cli.

Local Open Scope string_scope.

(** [s.split(sep)] for a separator of one character: the pieces between the
    separators, one more than there are separators. *)
Fixpoint split_on (sep : ascii) (s : string) : list string :=
  match s with
  | EmptyString => [EmptyString]
  | String c s' =>
      if Ascii.eqb c sep then EmptyString :: split_on sep s'
      else match split_on sep s' with
           | piece :: pieces => String c piece :: pieces
           | [] => [String c EmptyString]
           end
  end.

(** [[fmt.strip() for fmt in args.formats.split(",")]] in [main] *)
Definition parse_formats (formats : string) : list string :=
  map strip (split_on "," formats).

(** [s.rfind(c)] for one character: the last index of [c], or [-1]. *)
Fixpoint rfind (c : ascii) (s : string) : Z :=
  match s with
  | EmptyString => (-1)%Z
  | String x s' =>
      let r := rfind c s' in
      if (0 <=? r)%Z then (r + 1)%Z
      else if Ascii.eqb x c then 0%Z else (-1)%Z
  end.

(** [os.path.splitext] of [posixpath]: the extension starts at the last dot
    of the last path component, unless that component has nothing but dots
    before it. *)
Definition splitext (p : string) : string * string :=
  let sepIndex := rfind "/" p in
  let dotIndex := rfind "." p in
  if (sepIndex <? dotIndex)%Z
       && negb (all_chars (Ascii.eqb ".") (slice p (sepIndex + 1) dotIndex))
  then (slice p 0 dotIndex, slice p dotIndex (Z.of_nat (String.length p)))
  else (p, EmptyString).

(** [get_output_path]: [None] and the empty string both count as no output
    path. *)
Definition get_output_path (input_path : string) (output_path : option string) : string :=
  match output_path with
  | Some (String c o) => fst (splitext (String c o))
  | _ => fst (splitext input_path)
  end.

End Cli.

(** Whether the character [c] occurs in [s], and how often. *)
Fixpoint contains (c : ascii) (s : string) : bool :=
  match s with
  | EmptyString => false
  | String x s' => Ascii.eqb x c || contains c s'
  end.

Fixpoint count_char (c : ascii) (s : string) : nat :=
  match s with
  | EmptyString => 0
  | String x s' => (if Ascii.eqb x c then 1 else 0) + count_char c s'
  end.

(** A directory prefix: empty, or ending in a slash. *)
Definition is_dir_prefix (dir : string) : Prop :=
  dir = EmptyString \/ exists parent, dir = (parent ++ "/")%string.

(** A list of texts in which each is at most the next, in the order of
    [str]. *)
Fixpoint ascending (l : list string) : bool :=
  match l with
  | a :: (b :: _) as rest => String.leb a b && ascending rest
  | _ => true
  end.

(** ** posixpath *)

Module PosixPath.

Local Open Scope string_scope.

(** [os.path.basename(p)]: what follows the last slash. *)
Definition basename (p : string) : string :=
  slice p (Cli.rfind "/" p + 1) (Z.of_nat (String.length p)).

(** [os.path.join(a, b)] *)
Definition join (a b : string) : string :=
  if String.prefix "/" b then b
  else if String.eqb a "" || ends_with "/" a then a ++ b
  else a ++ "/" ++ b.

End PosixPath.

(** ** audio.py, continued: files *)

Module AudioIo.

Local Open Scope string_scope.

(** The exceptions of this layer: [FileNotFoundError], and the ones modelled
    before. *)
Inductive error : Type :=
| FileNotFoundError (msg : string)
| Exn (e : exn).

Definition error_message (e : error) : string :=
  match e with
  | FileNotFoundError msg => msg
  | Exn e => exn_message e
  end.

Inductive result (A : Type) : Type :=
| Done (a : A)
| Fail (e : error).

Arguments Done {A} a.
Arguments Fail {A} e.

Definition of_outcome {A : Type} (r : outcome A) : result A :=
  match r with
  | Ok a => Done a
  | Raise e => Fail (Exn e)
  end.

Section Os.

(** The operating system and the libraries that touch it: each call takes
    the world and returns what it returns, with the world afterwards when it
    changes it and the message of its exception when it raises one. *)
Variable World : Type.
Variable resolve : World -> string -> string.
Variable path_exists : World -> string -> bool.
Variable getcwd : World -> string.
Variable from_file : World -> string -> Audio.AudioSegment + string.
Variable duration_text : Audio.AudioSegment -> string.
Variable named_temporary_file : World -> World * (string + string).
Variable export : World -> Audio.AudioSegment -> string -> World * option string.
Variable unlink : World -> string -> World * option string.
Variable downmix : Audio.AudioSegment -> positive -> list Z.
Variable resample : Audio.AudioSegment -> N -> list Z.

(** The first part of [load_audio]: the path to read, or the error. *)
Definition locate (w : World) (file_path0 : string) : result string * list log_record :=
  let file_path := resolve w file_path0 in
  if path_exists w file_path then (Done file_path, [])
  else
    let audio_dir := PosixPath.join (getcwd w) "audio" in
    let alternative_path := PosixPath.join audio_dir (PosixPath.basename file_path) in
    if path_exists w alternative_path then
      (Done alternative_path,
       [(INFO, "Found audio file in audio directory: " ++ alternative_path)])
    else
      (Fail (FileNotFoundError ("Audio file not found: " ++ file_path)),
       [(ERROR, "Audio file not found: " ++ file_path);
        (ERROR, "Alternative path also not found: " ++ alternative_path)]).

Definition load_audio (w : World) (file_path : string)
  : result Audio.AudioSegment * list log_record :=
  match locate w file_path with
  | (Fail e, log) => (Fail e, log)
  | (Done file_path, log) =>
      match from_file w file_path with
      | inl audio =>
          (Done audio,
           app log [(INFO, "Loaded audio file: " ++ file_path ++ " ("
                           ++ duration_text audio ++ " seconds)")])
      | inr what =>
          (Fail (Exn (ValueError ("Failed to load audio file: " ++ what))),
           app log [(ERROR, "Failed to load audio file " ++ file_path ++ ": " ++ what);
                    (ERROR, "Make sure FFmpeg is installed and in your PATH");
                    (ERROR, "Download FFmpeg from: https://ffmpeg.org/download.html")])
      end
  end.

(** [save_temp_audio]: the file is created first, then written. *)
Definition save_temp_audio (w : World) (audio : Audio.AudioSegment)
  : result string * World * list log_record :=
  match named_temporary_file w with
  | (w, inr what) => (Fail (Exn (External what)), w, [])
  | (w, inl name) =>
      match export w audio name with
      | (w, Some what) => (Fail (Exn (External what)), w, [])
      | (w, None) => (Done name, w, [(DEBUG, "Saved temporary audio file: " ++ name)])
      end
  end.

Definition process_audio_file (w : World) (file_path : string)
  : result (list Z * string) * World * list log_record :=
  match load_audio w file_path with
  | (Fail e, log) => (Fail e, w, log)
  | (Done audio, log) =>
      let '(processed_audio, log2) := Audio.preprocess_audio downmix resample audio in
      match save_temp_audio w processed_audio with
      | (Fail e, w, log3) => (Fail e, w, (log ++ log2 ++ log3)%list)
      | (Done temp_wav_path, w, log3) =>
          match Audio.get_audio_array processed_audio with
          | Raise e => (Fail (Exn e), w, (log ++ log2 ++ log3)%list)
          | Ok audio_array => (Done (audio_array, temp_wav_path), w, (log ++ log2 ++ log3)%list)
          end
      end
  end.

(** [cleanup_temp_file]: [None] and the empty string are falsy, and then
    the file system is not asked. *)
Definition cleanup_temp_file (w : World) (temp_file_path : option string)
  : World * list log_record :=
  match temp_file_path with
  | Some (String c rest) =>
      let path := String c rest in
      if path_exists w path then
        match unlink w path with
        | (w, None) => (w, [(DEBUG, "Removed temporary file: " ++ path)])
        | (w, Some what) =>
            (w, [(WARNING, "Failed to remove temporary file " ++ path ++ ": " ++ what)])
        end
      else (w, [])
  | _ => (w, [])
  end.

End Os.

End AudioIo.

(** ** cli.py, continued: running *)

Module CliRun.

Import AudioIo.

Local Open Scope string_scope.

(** [sorted(l)] for a list of [str]: ascending in the order of [str], which
    on UTF-8 bytes is the order of the code points. *)
Fixpoint insert_sorted (x : string) (l : list string) : list string :=
  match l with
  | [] => [x]
  | y :: rest => if String.leb x y then x :: l else y :: insert_sorted x rest
  end.

Definition sorted (l : list string) : list string := fold_right insert_sorted [] l.

Definition extensions : list string :=
  ["*.wav"; "*.mp3"; "*.flac"; "*.aac"; "*.ogg"; "*.m4a"].

Section Files.

Variable World : Type.

(** [glob.glob(pattern, recursive=flag)] *)
Variable glob : World -> string -> bool -> list string.

Definition find_audio_files (w : World) (input_path : string) (recursive : bool)
  : list string :=
  let audio_files :=
    if recursive then
      flat_map (fun ext =>
                  glob w (PosixPath.join (PosixPath.join input_path "**") ext) true)
               extensions
    else
      flat_map (fun ext => glob w (PosixPath.join input_path ext) false) extensions in
  sorted audio_files.

End Files.

Section Single.

Variable World : Type.
Variable resolve : World -> string -> string.
Variable path_exists : World -> string -> bool.
Variable getcwd : World -> string.
Variable from_file : World -> string -> Audio.AudioSegment + string.
Variable duration_text : Audio.AudioSegment -> string.
Variable named_temporary_file : World -> World * (string + string).
Variable export : World -> Audio.AudioSegment -> string -> World * option string.
Variable unlink : World -> string -> World * option string.
Variable downmix : Audio.AudioSegment -> positive -> list Z.
Variable resample : Audio.AudioSegment -> N -> list Z.
Variable write_file : World -> string -> string -> World * option string.

(** Whisper: whether it is installed, and its two calls; the audio it gets
    is the array of samples. *)
Variable whisper_available : bool.
Variable Model : Type.
Variable whisper_load_model : string -> option string -> Model + string.
Variable model_transcribe :
  Model -> list Z -> option string -> string -> Transcriber.WhisperOutput + string.

(** The [try] block of [process_single_file]: the outcome, the world, the
    records logged by cli.py and postprocessor.py, and the engine calls. *)
Definition transcribe_and_save (w : World) (audio_array : list Z)
    (input_path : string) (output_path : option string) (model_name language task : string)
    (formats : list string) (device : option string)
  : result (gmap string string) * World * list log_record
    * list Transcriber.engine_call :=
  match Transcriber.init Model whisper_available model_name device with
  | Raise e => (Fail (Exn e), w, [], [])
  | Ok transcriber =>
      let lang_param := if String.eqb language "auto" then None else Some language in
      match Transcriber.transcribe Model (list Z) whisper_load_model model_transcribe
              transcriber audio_array lang_param task with
      | (Raise e, _, calls) => (Fail (Exn e), w, [], calls)
      | (Ok result, _, calls) =>
          let final_output_path := Cli.get_output_path input_path output_path in
          match save_transcription World write_file result final_output_path formats w with
          | Ok st => (Done (saved_files World st), world World st, logged World st, calls)
          | Raise e => (Fail (Exn e), w, [], calls)
          end
      end
  end.

(** [process_single_file]: the audio is prepared outside the [try]; the
    [finally] clause runs whenever the [try] block was entered. *)
Definition process_single_file (w : World)
    (input_path : string) (output_path : option string) (model_name language task : string)
    (formats : list string) (device : option string)
  : result (gmap string string) * World * list log_record
    * list Transcriber.engine_call :=
  let log0 := [(INFO, "Processing file: " ++ input_path)] in
  match process_audio_file World resolve path_exists getcwd from_file duration_text
          named_temporary_file export downmix resample w input_path with
  | (Fail e, w, log1) => (Fail e, w, app log0 log1, [])
  | (Done (audio_array, temp_file), w, log1) =>
      let '(r, w, log2, calls) :=
        transcribe_and_save w audio_array input_path output_path model_name language
          task formats device in
      let '(w, log3) := cleanup_temp_file World path_exists unlink w (Some temp_file) in
      (r, w, app log0 (app log1 (app log2 log3)), calls)
  end.

End Single.

(** The parsed command line *)
Record Args : Type := mkArgs {
  arg_input : string;
  arg_model : string;
  arg_output : option string;
  arg_formats : string;
  arg_language : string;
  arg_task : string;
  arg_batch : bool;
  arg_recursive : bool;
  arg_device : option string;
  arg_verbose : bool
}.

Section Main.

Variable World : Type.
Variable isfile : World -> string -> bool.
Variable isdir : World -> string -> bool.
Variable glob : World -> string -> bool -> list string.

(** [process_single_file] as [main] sees it: what it returns or raises, the
    world afterwards and the records it logged. *)
Variable process_single_file :
  World -> string -> option string -> string -> string -> string -> list string ->
  option string -> result (gmap string string) * World * list log_record.

(** The values of a dict in its order, and the elapsed time as printed. *)
Variable dict_values : gmap string string -> list string.
Variable elapsed_text : World -> string.

(** The loop over the files of a batch: an exception of one file is logged
    and the loop goes on. *)
Fixpoint process_batch (args : Args) (formats : list string) (audio_files : list string)
    (w : World) : World * list log_record :=
  match audio_files with
  | [] => (w, [])
  | audio_file :: rest =>
      let '(r, w, log) :=
        process_single_file w audio_file None (arg_model args) (arg_language args)
          (arg_task args) formats (arg_device args) in
      let log :=
        match r with
        | Done _ => log
        | Fail e =>
            app log [(ERROR, "Failed to process " ++ audio_file ++ ": " ++ error_message e)]
        end in
      let '(w, log') := process_batch args formats rest w in
      (w, app log log')
  end.

(** [main], after [parse_args]: the exit code, the world and the records
    logged. *)
Definition main (args : Args) (w : World) : Z * World * list log_record :=
  let formats := Cli.parse_formats (arg_formats args) in
  if isfile w (arg_input args) then
    match process_single_file w (arg_input args) (arg_output args) (arg_model args)
            (arg_language args) (arg_task args) formats (arg_device args) with
    | (Done output_files, w, log) =>
        (0%Z, w,
         app log [(INFO, "Transcription saved to: " ++ join ", " (dict_values output_files));
                  (INFO, "Total processing time: " ++ elapsed_text w ++ " seconds")])
    | (Fail e, w, log) =>
        (1%Z, w,
         app log ((ERROR, "Error: " ++ error_message e)
                  :: if arg_verbose args then [(ERROR, "Detailed traceback:")] else []))
    end
  else if isdir w (arg_input args) && arg_batch args then
    let audio_files := find_audio_files World glob w (arg_input args) (arg_recursive args) in
    match audio_files with
    | [] => (1%Z, w, [(ERROR, "No audio files found in: " ++ arg_input args)])
    | _ =>
        let '(w', log) := process_batch args formats audio_files w in
        (0%Z, w',
         app ((INFO, "Found " ++ str (Z.of_nat (length audio_files))
                     ++ " audio files to process") :: log)
             [(INFO, "Batch processing completed");
              (INFO, "Total processing time: " ++ elapsed_text w' ++ " seconds")])
    end
  else
    (1%Z, w,
     [(ERROR, if isdir w (arg_input args) && negb (arg_batch args)
              then "Input is a directory but --batch flag not set"
              else "Input not found: " ++ arg_input args)]).

End Main.

End CliRun.

(** ** A small operating system for the examples *)

(** The world is the list of the paths that exist.  Paths are absolute
    already, the working directory is [/work], every file decodes to the
    16-bit segment of the examples, the temporary file is [/tmp/t.wav], and
    [unlink] removes the path. *)
Module ToyOs.

Local Open Scope string_scope.

Definition World : Type := list string.

Definition resolve (w : World) (p : string) : string := p.
Definition path_exists (w : World) (p : string) : bool := existsb (String.eqb p) w.
Definition getcwd (w : World) : string := "/work".
Definition from_file (w : World) (p : string) : Audio.AudioSegment + string :=
  inl extremes_16.
Definition duration_text (a : Audio.AudioSegment) : string := "0.00".
Definition named_temporary_file (w : World) : World * (string + string) :=
  ("/tmp/t.wav" :: w, inl "/tmp/t.wav").
Definition export (w : World) (a : Audio.AudioSegment) (p : string)
  : World * option string := (w, None).
Definition unlink (w : World) (p : string) : World * option string :=
  (List.filter (fun q => negb (String.eqb p q)) w, None).
Definition downmix (a : Audio.AudioSegment) (n : positive) : list Z := Audio.pcm a.
Definition resample (a : Audio.AudioSegment) (r : N) : list Z := Audio.pcm a.
Definition write_file (w : World) (p content : string) : World * option string :=
  (p :: w, None).

End ToyOs.

(** The stand-in engine on an array of samples. *)
Definition toy_transcribe_array (m : unit) (audio : list Z) (language : option string)
    (task : string) : Transcriber.WhisperOutput + string :=
  inl toy_output.

(** One file, processed on the toy system with the stand-in engine. *)
Definition toy_run
  : AudioIo.result (gmap string string) * ToyOs.World * list log_record
    * list Transcriber.engine_call :=
  CliRun.process_single_file ToyOs.World ToyOs.resolve ToyOs.path_exists ToyOs.getcwd
    ToyOs.from_file ToyOs.duration_text ToyOs.named_temporary_file ToyOs.export
    ToyOs.unlink ToyOs.downmix ToyOs.resample ToyOs.write_file true unit toy_load
    toy_transcribe_array ["/work/a.wav"]%string "/work/a.wav" None "small" "auto"
    "transcribe" ["txt"]%string None.

(** ** examples/batch_processing.py: [process_audio_batch] *)

Module BatchExample.

Import AudioIo.

Local Open Scope string_scope.

Section Run.

Variable World : Type.
Variable resolve : World -> string -> string.
Variable path_exists : World -> string -> bool.
Variable getcwd : World -> string.
Variable from_file : World -> string -> Audio.AudioSegment + string.
Variable duration_text : Audio.AudioSegment -> string.
Variable named_temporary_file : World -> World * (string + string).
Variable export : World -> Audio.AudioSegment -> string -> World * option string.
Variable unlink : World -> string -> World * option string.
Variable downmix : Audio.AudioSegment -> positive -> list Z.
Variable resample : Audio.AudioSegment -> N -> list Z.
Variable write_file : World -> string -> string -> World * option string.
Variable glob : World -> string -> bool -> list string.
Variable whisper_available : bool.
Variable Model : Type.
Variable whisper_load_model : string -> option string -> Model + string.
Variable model_transcribe :
  Model -> list Z -> option string -> string -> Transcriber.WhisperOutput + string.

(** Time: what passed between two worlds, sums of such spans, and a span as
    printed with two decimals. *)
Variable Seconds : Type.
Variable elapsed : World -> World -> Seconds.
Variable seconds_zero : Seconds.
Variable seconds_add : Seconds -> Seconds -> Seconds.
Variable seconds_text : Seconds -> string.

(** An entry of [results] *)
Record entry : Type := mkEntry {
  output_files : gmap string string;
  language : string;
  duration : Seconds
}.

(** What the loop carries along: the transcriber, the world, the dict
    [results], [total_duration], the lines printed, the records logged by the
    audio and file stages, and the engine calls. *)
Record batch_state : Type := mkBatch {
  transcriber : Transcriber.WhisperTranscriber Model;
  bworld : World;
  results : gmap string entry;
  total_duration : Seconds;
  printed : list string;
  blogged : list log_record;
  engine_calls : list Transcriber.engine_call
}.

Definition failed (st : batch_state) (t : Transcriber.WhisperTranscriber Model)
    (w : World) (log : list log_record) (calls : list Transcriber.engine_call)
    (audio_path : string) (e : error) : batch_state :=
  mkBatch t w (results st) (total_duration st)
    (app (printed st) ["Error processing " ++ audio_path ++ ": " ++ error_message e])
    (app (blogged st) log) (app (engine_calls st) calls).

(** One turn of the loop: the [try] block and its [except] clause. *)
Definition batch_step (language : option string) (task : string) (formats : list string)
    (st : batch_state) (audio_path : string) : batch_state :=
  let w0 := bworld st in
  match process_audio_file World resolve path_exists getcwd from_file duration_text
          named_temporary_file export downmix resample w0 audio_path with
  | (Fail e, w1, log1) => failed st (transcriber st) w1 log1 [] audio_path e
  | (Done (audio_array, temp_file), w1, log1) =>
      match Transcriber.transcribe Model (list Z) whisper_load_model model_transcribe
              (transcriber st) audio_array language task with
      | (Raise e, t, calls) => failed st t w1 log1 calls audio_path (Exn e)
      | (Ok result, t, calls) =>
          let '(w2, log2) :=
            cleanup_temp_file World path_exists unlink w1 (Some temp_file) in
          let output_path := fst (Cli.splitext audio_path) in
          match save_transcription World write_file result output_path formats w2 with
          | Raise e => failed st t w2 (app log1 log2) calls audio_path (Exn e)
          | Ok saved =>
              let w3 := world World saved in
              let duration := elapsed w0 w3 in
              mkBatch t w3
                (<[audio_path := mkEntry (saved_files World saved) (res_language result)
                                   duration]> (results st))
                (seconds_add (total_duration st) duration)
                (app (printed st)
                     ["Completed: " ++ PosixPath.basename audio_path ++ " ("
                      ++ res_language result ++ ") in " ++ seconds_text duration ++ "s"])
                (app (blogged st) (app log1 (app log2 (logged World saved))))
                (app (engine_calls st) calls)
          end
      end
  end.

(** [process_audio_batch]: the dict it returns or the exception it raises,
    and where the loop ended. *)
Definition process_audio_batch (directory : string) (recursive : bool)
    (model_name : string) (language : option string) (task : string)
    (formats : list string) (w : World) : result (gmap string entry) * batch_state :=
  let audio_files := CliRun.find_audio_files World glob w directory recursive in
  let nothing t lines := mkBatch t w ∅ seconds_zero lines [] [] in
  let unborn := Transcriber.mkTranscriber Model model_name None None in
  match audio_files with
  | [] => (Done ∅, nothing unborn ["No audio files found in " ++ directory])
  | _ =>
      let found := "Found " ++ str (Z.of_nat (length audio_files))
                   ++ " audio files to process" in
      match Transcriber.init Model whisper_available model_name None with
      | Raise e => (Fail (Exn e), nothing unborn [found])
      | Ok t =>
          let st := fold_left (batch_step language task formats) audio_files
                      (nothing t [found]) in
          (Done (results st),
           mkBatch (transcriber st) (bworld st) (results st) (total_duration st)
             (app (printed st)
                  [nl ++ "Batch processing complete!";
                   "Processed " ++ str (Z.of_nat (size (results st))) ++ "/"
                   ++ str (Z.of_nat (length audio_files)) ++ " files successfully";
                   "Total processing time: " ++ seconds_text (total_duration st)
                   ++ " seconds"])
             (blogged st) (engine_calls st))
      end
  end.

End Run.

End BatchExample.

(** A directory listing for the examples: two files, whatever the pattern. *)
Definition toy_glob (w : ToyOs.World) (pattern : string) (recursive : bool)
  : list string :=
  if String.eqb pattern "/work/*.wav" then ["/work/b.wav"; "/work/a.wav"]%string else [].

(** The batch of the example script on the toy system. *)
Definition toy_batch
  : AudioIo.result (gmap string (BatchExample.entry unit))
    * BatchExample.batch_state ToyOs.World unit unit :=
  BatchExample.process_audio_batch ToyOs.World ToyOs.resolve ToyOs.path_exists
    ToyOs.getcwd ToyOs.from_file ToyOs.duration_text ToyOs.named_temporary_file
    ToyOs.export ToyOs.unlink ToyOs.downmix ToyOs.resample ToyOs.write_file toy_glob
    true unit toy_load toy_transcribe_array unit (fun _ _ => tt) tt (fun _ _ => tt)
    (fun _ => "0.00"%string) "/work" false "small" None "transcribe" ["txt"]%string
    ["/work/a.wav"; "/work/b.wav"]%string.

(** An engine that is down: every call to transcribe fails. *)
Definition toy_engine_down (m : unit) (audio : list Z) (language : option string)
    (task : string) : Transcriber.WhisperOutput + string :=
  inr "engine down"%string.

(** The state before the first turn of a batch on the toy system. *)
Definition toy_turn_start : BatchExample.batch_state ToyOs.World unit unit :=
  BatchExample.mkBatch ToyOs.World unit unit
    (Transcriber.mkTranscriber unit "small" None None) ["/work/a.wav"%string] ∅ tt
    [] [] [].

(** One turn of the batch for [/work/a.wav] with the engine down. *)
Definition toy_failed_turn (st : BatchExample.batch_state ToyOs.World unit unit)
  : BatchExample.batch_state ToyOs.World unit unit :=
  BatchExample.batch_step ToyOs.World ToyOs.resolve ToyOs.path_exists ToyOs.getcwd
    ToyOs.from_file ToyOs.duration_text ToyOs.named_temporary_file ToyOs.export
    ToyOs.unlink ToyOs.downmix ToyOs.resample ToyOs.write_file unit toy_load
    toy_engine_down unit (fun _ _ => tt) (fun _ _ => tt) (fun _ => "0.00"%string)
    None "transcribe" ["txt"]%string st "/work/a.wav".

(** * Proof tools

    [lia] does not look into quotients and remainders: they are named first,
    the facts about them being stated beforehand. *)

Ltac hide_divmod :=
  repeat match goal with
  | |- context [N.div ?a ?b] =>
      let q := fresh "q" in set (q := N.div a b) in *; clearbody q
  | |- context [N.modulo ?a ?b] =>
      let r := fresh "r" in set (r := N.modulo a b) in *; clearbody r
  | H : context [N.div ?a ?b] |- _ =>
      let q := fresh "q" in set (q := N.div a b) in *; clearbody q
  | H : context [N.modulo ?a ?b] |- _ =>
      let r := fresh "r" in set (r := N.modulo a b) in *; clearbody r
  end.

Ltac dlia := hide_divmod; lia.
Ltac dnia := hide_divmod; nia.

(** * Facts about rounding *)

Module RoundFacts.

Import BinaryFloat.
Local Open Scope N_scope.

Lemma pow2_pos (k : N) : 0 < 2 ^ k.
Proof. apply N.neq_0_lt_0, N.pow_nonzero; discriminate. Qed.

Lemma pow2_nz (k : N) : 2 ^ k <> 0.
Proof. apply N.pow_nonzero; discriminate. Qed.

(** The rounded mantissa, as a function of the quotient and remainder. *)
Definition pick (m r d : N) : N :=
  if 2 * r <? d then m
  else if d <? 2 * r then m + 1
  else if N.even m then m else m + 1.

Lemma round_q_pick prec p q :
  round_q prec p q =
  let k := N.log2 (p / q) - (prec - 1) in
  pick (p / (q * 2 ^ k)) (p mod (q * 2 ^ k)) (q * 2 ^ k) * 2 ^ k.
Proof. reflexivity. Qed.

Lemma pick_bounds m r d : m <= pick m r d <= m + 1.
Proof.
  unfold pick.
  destruct (2 * r <? d); [lia|].
  destruct (d <? 2 * r); [lia|].
  destruct (N.even m); lia.
Qed.

Lemma pick_mono_r m r r' d : r <= r' -> pick m r d <= pick m r' d.
Proof.
  intros Hr. unfold pick.
  destruct (N.ltb_spec (2 * r) d), (N.ltb_spec (2 * r') d); try lia.
  - destruct (d <? 2 * r'); [lia|]. destruct (N.even m); lia.
  - destruct (N.ltb_spec d (2 * r)), (N.ltb_spec d (2 * r')); try lia.
    destruct (N.even m); lia.
Qed.

Lemma pick_zero m d : 0 < d -> pick m 0 d = m.
Proof.
  intros Hd. unfold pick.
  destruct (N.ltb_spec (2 * 0) d); [reflexivity | lia].
Qed.

Lemma pick_scale m r d c : 0 < c -> pick m (r * c) (d * c) = pick m r d.
Proof.
  intros Hc. unfold pick.
  assert (E1 : (2 * (r * c) <? d * c) = (2 * r <? d)).
  { destruct (N.ltb_spec (2 * (r * c)) (d * c)), (N.ltb_spec (2 * r) d); try reflexivity; nia. }
  assert (E2 : (d * c <? 2 * (r * c)) = (d <? 2 * r)).
  { destruct (N.ltb_spec (d * c) (2 * (r * c))), (N.ltb_spec d (2 * r)); try reflexivity; nia. }
  rewrite E1, E2. reflexivity.
Qed.

(** Scaling numerator and denominator alike does not change the result. *)
Lemma round_q_cancel prec p q c :
  0 < q -> 0 < c -> round_q prec (p * c) (q * c) = round_q prec p q.
Proof.
  intros Hq Hc. rewrite !round_q_pick. cbv zeta.
  assert (E : p * c / (q * c) = p / q) by (apply N.Div0.div_mul_cancel_r; lia).
  rewrite E.
  set (k := N.log2 (p / q) - (prec - 1)).
  assert (Hd : 0 < q * 2 ^ k) by (pose proof (pow2_pos k); nia).
  replace (q * c * 2 ^ k) with (q * 2 ^ k * c) by lia.
  rewrite N.Div0.div_mul_cancel_r by lia.
  rewrite N.Div0.mul_mod_distr_r.
  rewrite pick_scale by assumption. reflexivity.
Qed.

(** A number of units that sits on its own grid is not changed. *)
Definition on_grid (prec n : N) : Prop :=
  n mod 2 ^ (N.log2 n - (prec - 1)) = 0.

Lemma round_q_on_grid prec n : on_grid prec n -> round_q prec n 1 = n.
Proof.
  unfold on_grid. intros H. rewrite round_q_pick. cbv zeta.
  rewrite N.div_1_r, !N.mul_1_l, H.
  rewrite pick_zero by apply pow2_pos.
  pose proof (N.div_mod n (2 ^ (N.log2 n - (prec - 1))) (pow2_nz _)) as E.
  rewrite H in E. lia.
Qed.

Lemma on_grid_mul_pow2 prec m j : 0 < prec -> m < 2 ^ prec -> on_grid prec (m * 2 ^ j).
Proof.
  intros Hp Hm. unfold on_grid.
  destruct (N.eq_dec m 0) as [->|Hm0]; [reflexivity|].
  assert (Hl : N.log2 (m * 2 ^ j) = N.log2 m + j).
  { rewrite <- N.shiftl_mul_pow2. apply N.log2_shiftl. exact Hm0. }
  rewrite Hl.
  assert (Hlm : N.log2 m < prec) by (apply N.log2_lt_pow2; lia).
  set (k := N.log2 m + j - (prec - 1)).
  assert (Hk : k <= j) by (unfold k; lia).
  replace j with ((j - k) + k) at 1 by lia.
  rewrite N.pow_add_r, N.mul_assoc. apply N.Div0.mod_mul.
Qed.

Lemma round_q_mul_pow2 prec m j :
  0 < prec -> m < 2 ^ prec -> round_q prec (m * 2 ^ j) 1 = m * 2 ^ j.
Proof. intros. apply round_q_on_grid, on_grid_mul_pow2; assumption. Qed.

(** Rounding is monotone in the numerator. *)
Lemma round_q_mono prec p p' q :
  0 < prec -> 0 < q -> p <= p' -> round_q prec p q <= round_q prec p' q.
Proof.
  intros Hp Hq Hle. rewrite !round_q_pick. cbv zeta.
  set (t := p / q). set (t' := p' / q).
  assert (Ht : t <= t') by (apply N.Div0.div_le_mono; assumption).
  set (k := N.log2 t - (prec - 1)). set (k' := N.log2 t' - (prec - 1)).
  assert (Hk : k <= k') by (pose proof (N.log2_le_mono _ _ Ht); unfold k, k'; lia).
  assert (Hd : 0 < q * 2 ^ k) by (pose proof (pow2_pos k); nia).
  assert (Hd' : 0 < q * 2 ^ k') by (pose proof (pow2_pos k'); nia).
  destruct (N.eq_dec k k') as [Ek|Nk].
  - (* same grid *)
    rewrite <- Ek. apply N.mul_le_mono_r.
    set (d := q * 2 ^ k) in *.
    assert (Hm : p / d <= p' / d) by (apply N.Div0.div_le_mono; assumption).
    destruct (N.eq_dec (p / d) (p' / d)) as [Em|Nm].
    + rewrite <- Em. apply pick_mono_r.
      pose proof (N.div_mod p d ltac:(lia)). pose proof (N.div_mod p' d ltac:(lia)).
      rewrite <- Em in *. nia.
    + pose proof (pick_bounds (p / d) (p mod d) d).
      pose proof (pick_bounds (p' / d) (p' mod d) d). lia.
  - (* the larger value sits on a coarser grid *)
    assert (Hlt : k < k') by lia.
    assert (Ht'0 : 0 < t').
    { destruct (N.eq_dec t' 0) as [E|]; [|lia]. unfold k' in Hlt. rewrite E in Hlt.
      simpl in Hlt. lia. }
    assert (Hl' : N.log2 t' = k' + (prec - 1)) by (unfold k' in *; lia).
    assert (Hlow : 2 ^ (k' + (prec - 1)) <= t').
    { rewrite <- Hl'. apply N.log2_spec. exact Ht'0. }
    assert (Hm' : 2 ^ (prec - 1) <= p' / (q * 2 ^ k')).
    { rewrite <- N.Div0.div_div. fold t'.
      apply N.div_le_lower_bound; [apply pow2_nz|].
      rewrite <- N.pow_add_r. exact Hlow. }
    assert (Hup : p / (q * 2 ^ k) + 1 <= 2 ^ prec).
    { rewrite <- N.Div0.div_div. fold t.
      assert (Hlt2 : t / 2 ^ k < 2 ^ prec); [|lia].
      apply N.Div0.div_lt_upper_bound.
      rewrite <- N.pow_add_r.
      destruct (N.eq_dec t 0) as [->|Ht0]; [apply pow2_pos|].
      apply N.log2_lt_pow2; [lia|]. unfold k. lia. }
    pose proof (pick_bounds (p / (q * 2 ^ k)) (p mod (q * 2 ^ k)) (q * 2 ^ k)) as B.
    pose proof (pick_bounds (p' / (q * 2 ^ k')) (p' mod (q * 2 ^ k')) (q * 2 ^ k')) as B'.
    apply N.le_trans with (2 ^ prec * 2 ^ k).
    { apply N.mul_le_mono_r. lia. }
    apply N.le_trans with (2 ^ (prec - 1) * 2 ^ k').
    2:{ apply N.mul_le_mono_r. lia. }
    rewrite <- !N.pow_add_r. apply N.pow_le_mono_r; lia.
Qed.

(** Division by a divisor of the numerator rounds the exact quotient. *)
Lemma round_q_multiple prec a q : 0 < q -> round_q prec (a * q) q = round_q prec a 1.
Proof.
  intros Hq. rewrite <- (round_q_cancel prec a 1 q) by lia. f_equal. lia.
Qed.

(** Scaling a whole number of units by a power of two scales its rounding. *)
Lemma round_q_scale prec p c :
  0 < prec -> round_q prec (p * 2 ^ c) 1 = round_q prec p 1 * 2 ^ c.
Proof.
  intros Hprec. destruct (N.eq_dec p 0) as [->|Hp0]; [reflexivity|].
  destruct (N.le_gt_cases (N.log2 p) (prec - 1)) as [Hs|Hl].
  - (* few bits: both sides are exact *)
    assert (Hp : p < 2 ^ prec) by (apply N.log2_lt_pow2; lia).
    rewrite round_q_mul_pow2 by assumption.
    pose proof (round_q_mul_pow2 prec p 0 Hprec Hp) as E.
    rewrite N.pow_0_r, N.mul_1_r in E. now rewrite E.
  - rewrite !round_q_pick. cbv zeta. rewrite !N.div_1_r, !N.mul_1_l.
    assert (Hl2 : N.log2 (p * 2 ^ c) = N.log2 p + c).
    { rewrite <- N.shiftl_mul_pow2. now apply N.log2_shiftl. }
    rewrite Hl2. set (k := N.log2 p - (prec - 1)).
    replace (N.log2 p + c - (prec - 1)) with (k + c) by (unfold k; lia).
    rewrite N.pow_add_r.
    rewrite N.Div0.div_mul_cancel_r by apply pow2_nz.
    rewrite N.Div0.mul_mod_distr_r.
    rewrite pick_scale by apply pow2_pos. lia.
Qed.

(** What rounding returns sits on its grid: rounding again changes nothing. *)
Lemma round_q_idem prec p :
  0 < prec -> round_q prec (round_q prec p 1) 1 = round_q prec p 1.
Proof.
  intros Hprec. apply round_q_on_grid.
  rewrite round_q_pick. cbv zeta. rewrite N.div_1_r, !N.mul_1_l.
  set (k := N.log2 p - (prec - 1)).
  pose proof (pick_bounds (p / 2 ^ k) (p mod 2 ^ k) (2 ^ k)) as B.
  assert (Hm : p / 2 ^ k < 2 ^ prec).
  { apply N.Div0.div_lt_upper_bound. rewrite <- N.pow_add_r.
    destruct (N.eq_dec p 0) as [->|Hp0]; [apply pow2_pos|].
    apply N.log2_lt_pow2; [lia|]. unfold k. lia. }
  destruct (N.eq_dec (pick (p / 2 ^ k) (p mod 2 ^ k) (2 ^ k)) (2 ^ prec)) as [E|NE].
  - rewrite E, <- N.pow_add_r.
    rewrite <- (N.mul_1_l (2 ^ (prec + k))).
    apply on_grid_mul_pow2; [assumption|].
    apply N.pow_gt_1; lia.
  - apply on_grid_mul_pow2; [assumption | lia].
Qed.

End RoundFacts.

(** * Facts about strings *)

Module StrFacts.

Lemma append_cons (c : ascii) (s t : string) :
  (String c s ++ t)%string = String c (s ++ t).
Proof. reflexivity. Qed.

Lemma append_nil_l (t : string) : ("" ++ t)%string = t.
Proof. reflexivity. Qed.

Lemma append_nil_r (s : string) : (s ++ "")%string = s.
Proof.
  induction s as [|c s IH]; [reflexivity|]. now rewrite append_cons, IH.
Qed.

Lemma append_assoc (a b c : string) : ((a ++ b) ++ c)%string = (a ++ (b ++ c))%string.
Proof.
  induction a as [|x a IH]; [reflexivity|]. now rewrite !append_cons, IH.
Qed.

Lemma length_append (a b : string) :
  String.length (a ++ b) = (String.length a + String.length b)%nat.
Proof.
  induction a as [|x a IH]; [reflexivity|]. rewrite append_cons. simpl. now rewrite IH.
Qed.

Lemma ascii_compare_refl (c : ascii) : Ascii.compare c c = Eq.
Proof. unfold Ascii.compare. apply N.compare_refl. Qed.

Lemma compare_refl (s : string) : String.compare s s = Eq.
Proof.
  induction s as [|c s IH]; simpl; [reflexivity|].
  now rewrite ascii_compare_refl.
Qed.

(** Two strings that start with parts of equal length are compared part by
    part. *)
Lemma compare_app (a b x y : string) :
  String.length a = String.length b ->
  String.compare (a ++ x) (b ++ y) =
  match String.compare a b with
  | Eq => String.compare x y
  | o => o
  end.
Proof.
  revert b. induction a as [|c a IH]; intros [|d b] Hlen; simpl in Hlen; try discriminate.
  - reflexivity.
  - rewrite !append_cons. simpl.
    destruct (Ascii.compare c d); try reflexivity.
    apply IH. now injection Hlen.
Qed.

Lemma join_cons2 sep (x y : string) l :
  join sep (x :: y :: l) = (x ++ sep ++ join sep (y :: l))%string.
Proof. reflexivity. Qed.

Lemma prefix_app (a b : string) : String.prefix a (a ++ b) = true.
Proof.
  induction a as [|c a IH].
  - now destruct b.
  - rewrite append_cons. simpl.
    destruct (ascii_dec c c) as [_|N]; [exact IH | now elim N].
Qed.

End StrFacts.

(** * Facts about decimal rendering *)

Module DecFacts.

Local Open Scope N_scope.

Lemma pow10_pos (k : N) : 0 < 10 ^ k.
Proof. apply N.neq_0_lt_0, N.pow_nonzero; discriminate. Qed.

Lemma length_fixw w n : String.length (fixw w n) = w.
Proof. induction w as [|w IH]; simpl; [reflexivity | now rewrite IH]. Qed.

Lemma ndigits_aux_spec fuel n :
  N.log2 n <= N.of_nat fuel ->
  n < 10 ^ N.of_nat (ndigits_aux fuel n) /\
  (10 <= n -> 10 ^ N.of_nat (ndigits_aux fuel n - 1) <= n) /\
  (1 <= ndigits_aux fuel n)%nat.
Proof.
  revert n. induction fuel as [|f IH]; intros n Hl.
  - simpl. assert (n < 2).
    { destruct (N.eq_dec n 0) as [->|Hn]; [lia|].
      change 2 with (2 ^ 1). apply N.log2_lt_pow2; lia. }
    repeat split; lia.
  - simpl. destruct (N.ltb_spec n 10) as [Hlt|Hge].
    + repeat split; simpl; lia.
    + assert (Hl' : N.log2 (n / 10) <= N.of_nat f).
      { assert (n / 10 <= n / 2) by (apply N.div_le_compat_l; lia).
        pose proof (N.log2_le_mono _ _ H) as H1.
        assert (N.log2 (n / 2) = N.log2 n - 1).
        { rewrite <- N.div2_div, N.div2_spec. apply N.log2_shiftr. }
        lia. }
      destruct (IH _ Hl') as (A & B & C).
      replace (N.of_nat (S (ndigits_aux f (n / 10))))
        with (N.succ (N.of_nat (ndigits_aux f (n / 10)))) by lia.
      rewrite N.pow_succ_r'.
      pose proof (N.div_mod n 10 ltac:(lia)) as E.
      pose proof (N.mod_lt n 10 ltac:(lia)) as M.
      repeat split; [lia| |lia].
      intros _. simpl. rewrite Nat.sub_0_r.
      destruct (N.ltb_spec (n / 10) 10) as [Hs|Hs].
      * assert (ndigits_aux f (n / 10) = 1%nat) as ->.
        { destruct f; simpl; [reflexivity|].
          destruct (N.ltb_spec (n / 10) 10); [reflexivity | lia]. }
        simpl. lia.
      * specialize (B Hs).
        replace (N.of_nat (ndigits_aux f (n / 10)))
          with (N.succ (N.of_nat (ndigits_aux f (n / 10) - 1))) by lia.
        rewrite N.pow_succ_r'.
        dlia.
Qed.

Lemma ndigits_spec n :
  n < 10 ^ N.of_nat (ndigits n) /\
  (10 <= n -> 10 ^ N.of_nat (ndigits n - 1) <= n) /\
  (1 <= ndigits n)%nat.
Proof. apply ndigits_aux_spec. lia. Qed.

Lemma ndigits_le n w : (1 <= w)%nat -> n < 10 ^ N.of_nat w -> (ndigits n <= w)%nat.
Proof.
  intros Hw Hn. destruct (ndigits_spec n) as (A & B & C).
  destruct (N.ltb_spec n 10) as [Hs|Hs].
  - assert (ndigits n = 1%nat) as ->; [|exact Hw].
    unfold ndigits. destruct (N.to_nat (N.log2 n)); simpl; [reflexivity|].
    destruct (N.ltb_spec n 10); [reflexivity | lia].
  - specialize (B Hs).
    destruct (Nat.le_gt_cases (ndigits n) w) as [|Hgt]; [assumption|exfalso].
    assert (10 ^ N.of_nat w <= 10 ^ N.of_nat (ndigits n - 1)).
    { apply N.pow_le_mono_r; lia. }
    lia.
Qed.

(** Padding below the width: a two- or three-digit field. *)
Lemma format_0d_small w n :
  (1 <= w)%nat -> n < 10 ^ N.of_nat w -> format_0d w (Z.of_N n) = fixw w n.
Proof.
  intros Hw Hn. unfold format_0d.
  pose proof (ndigits_le n w Hw Hn).
  destruct n as [|p]; simpl Z.of_N; cbv iota.
  - simpl Z.to_N. now rewrite Nat.max_l.
  - simpl Z.to_N. now rewrite Nat.max_l.
Qed.

Lemma format_0d_nonneg w n :
  format_0d w (Z.of_N n) = fixw (Nat.max w (ndigits n)) n.
Proof. unfold format_0d. destruct n; reflexivity. Qed.

(** The digits only depend on the number modulo the width. *)
Lemma fixw_mod w n : fixw w (n mod 10 ^ N.of_nat w) = fixw w n.
Proof.
  revert n. induction w as [|w IH]; intros n; [reflexivity|].
  simpl fixw.
  replace (N.of_nat (S w)) with (N.succ (N.of_nat w)) by lia.
  rewrite N.pow_succ_r'. set (P := 10 ^ N.of_nat w).
  assert (HP : 0 < P) by apply pow10_pos.
  f_equal.
  - f_equal. rewrite (N.mul_comm 10 P).
    rewrite N.Div0.mod_mul_r.
    rewrite (N.mul_comm P), N.div_add by lia.
    rewrite N.div_small by (apply N.mod_lt; lia).
    simpl. apply N.Div0.mod_mod.
  - rewrite <- (IH (n mod (10 * P))), <- (IH n). f_equal.
    rewrite (N.mul_comm 10 P), N.Div0.mod_mul_r.
    rewrite (N.mul_comm P), N.Div0.mod_add. apply N.Div0.mod_mod.
Qed.

Lemma N_of_digit_char d : d < 10 -> N_of_ascii (digit_char d) = 48 + d.
Proof.
  intros Hd. unfold digit_char. apply N_ascii_embedding. lia.
Qed.

Lemma is_digit_digit_char d : d < 10 -> is_digit (digit_char d) = true.
Proof.
  intros Hd. unfold is_digit. rewrite N_of_digit_char by assumption.
  apply andb_true_intro; split; apply N.leb_le; lia.
Qed.

(** Reading the digits back gives the number. *)
Lemma dec_value_aux_fixw w n acc rest_acc :
  n < 10 ^ N.of_nat w ->
  rest_acc = acc * 10 ^ N.of_nat w + n ->
  dec_value_aux (fixw w n) acc = Some rest_acc.
Proof.
  revert n acc rest_acc. induction w as [|w IH]; intros n acc r Hn Hr.
  - simpl in *. f_equal. lia.
  - simpl fixw. cbn [dec_value_aux].
    replace (N.of_nat (S w)) with (N.succ (N.of_nat w)) in * by lia.
    rewrite N.pow_succ_r' in *. set (P := 10 ^ N.of_nat w) in *.
    assert (HP : 0 < P) by apply pow10_pos.
    assert (Hq : n / P < 10) by (apply N.Div0.div_lt_upper_bound; lia).
    rewrite N.mod_small by assumption.
    rewrite is_digit_digit_char, N_of_digit_char by assumption.
    rewrite <- (fixw_mod w n).
    apply IH; [apply N.mod_lt; lia|].
    pose proof (N.div_mod n P ltac:(lia)). fold P.
    rewrite (N.add_comm 48), N.add_sub.
    clearbody P. dnia.
Qed.

Lemma dec_value_fixw w n :
  (1 <= w)%nat -> n < 10 ^ N.of_nat w -> dec_value (fixw w n) = Some n.
Proof.
  intros Hw Hn. destruct w as [|w]; [lia|].
  change (dec_value (fixw (S w) n)) with (dec_value_aux (fixw (S w) n) 0).
  apply dec_value_aux_fixw; [assumption | lia].
Qed.

Lemma dec_value_str_N n : dec_value (str_N n) = Some n.
Proof.
  destruct (ndigits_spec n) as (A & _ & C). now apply dec_value_fixw.
Qed.

Lemma dec_value_format_0d w n : dec_value (format_0d w (Z.of_N n)) = Some n.
Proof.
  rewrite format_0d_nonneg. destruct (ndigits_spec n) as (A & _ & C).
  apply dec_value_fixw; [lia|].
  eapply N.lt_le_trans; [exact A|]. apply N.pow_le_mono_r; lia.
Qed.

(** *** Lexicographic order of fixed-width numbers *)

Lemma compare_digit_char a b :
  a < 10 -> b < 10 -> Ascii.compare (digit_char a) (digit_char b) = N.compare a b.
Proof.
  intros Ha Hb. unfold Ascii.compare.
  rewrite !N_of_digit_char by assumption.
  destruct (N.compare_spec a b), (N.compare_spec (48 + a) (48 + b)); try reflexivity; lia.
Qed.

Lemma compare_fixw w a b :
  a < 10 ^ N.of_nat w -> b < 10 ^ N.of_nat w ->
  String.compare (fixw w a) (fixw w b) = N.compare a b.
Proof.
  revert a b. induction w as [|w IH]; intros a b Ha Hb.
  - simpl in *. assert (a = 0) by lia. assert (b = 0) by lia. subst. reflexivity.
  - simpl fixw. cbn [String.compare].
    replace (N.of_nat (S w)) with (N.succ (N.of_nat w)) in * by lia.
    rewrite N.pow_succ_r' in *. set (P := 10 ^ N.of_nat w) in *.
    assert (HP : 0 < P) by apply pow10_pos.
    assert (Hqa : a / P < 10) by (apply N.Div0.div_lt_upper_bound; lia).
    assert (Hqb : b / P < 10) by (apply N.Div0.div_lt_upper_bound; lia).
    rewrite !N.mod_small by assumption.
    rewrite compare_digit_char by assumption.
    pose proof (N.div_mod a P ltac:(lia)) as Ea.
    pose proof (N.div_mod b P ltac:(lia)) as Eb.
    pose proof (N.mod_lt a P ltac:(lia)) as Ma.
    pose proof (N.mod_lt b P ltac:(lia)) as Mb.
    destruct (N.compare_spec (a / P) (b / P)) as [E|L|G].
    + rewrite <- (fixw_mod w a), <- (fixw_mod w b), IH by assumption.
      fold P.
      destruct (N.compare_spec (a mod P) (b mod P)), (N.compare_spec a b);
        try reflexivity; clearbody P; dnia.
    + symmetry. apply N.compare_lt_iff. dnia.
    + symmetry. apply N.compare_gt_iff. dnia.
Qed.

End DecFacts.

(** * Facts about binary64 operations *)

Module B64Facts.

Import RoundFacts.
Local Open Scope N_scope.

Lemma U_eq : U = 2 ^ 1074.
Proof. reflexivity. Qed.

Lemma U_pos : 0 < U.
Proof. rewrite U_eq. apply pow2_pos. Qed.

Lemma RN_zero : RN 0 = 0.
Proof. reflexivity. Qed.

Lemma RN_mono a b : a <= b -> RN a <= RN b.
Proof. intros H. apply round_q_mono; [reflexivity | reflexivity | exact H]. Qed.

Lemma RN_on_grid n : on_grid 53 n -> RN n = n.
Proof. apply round_q_on_grid. Qed.

Lemma RN_mul_pow2 m j : m < 2 ^ 53 -> RN (m * 2 ^ j) = m * 2 ^ j.
Proof. intros H. apply round_q_mul_pow2; [reflexivity | exact H]. Qed.

(** Whole numbers below [2^53] are floats. *)
Lemma of_int_exact k : k < 2 ^ 53 -> of_int k = k * U.
Proof. intros H. unfold of_int. rewrite U_eq. now apply RN_mul_pow2. Qed.

Lemma is_b64_on_grid n : is_b64 n = true -> on_grid 53 n.
Proof.
  unfold is_b64, on_grid. intros H.
  apply andb_prop in H. destruct H as [H _]. apply N.eqb_eq in H. exact H.
Qed.

Lemma on_grid_of_divide prec n j :
  n mod 2 ^ j = 0 -> N.log2 n - (prec - 1) <= j -> on_grid prec n.
Proof.
  intros Hd Hk. unfold on_grid.
  set (k := N.log2 n - (prec - 1)) in *.
  pose proof (N.div_mod n (2 ^ j) (pow2_nz j)) as E. rewrite Hd, N.add_0_r in E.
  rewrite E. replace j with ((j - k) + k) at 1 by lia.
  rewrite N.pow_add_r.
  replace (2 ^ (j - k) * 2 ^ k * (n / 2 ^ j)) with ((n / 2 ^ j) * 2 ^ (j - k) * 2 ^ k) by lia.
  apply N.Div0.mod_mul.
Qed.

(** The remainder of a float modulo a power of two is a float. *)
Lemma mod_pow2_split n j e :
  j <= e -> n mod 2 ^ j = 0 -> (n mod 2 ^ e) mod 2 ^ j = 0.
Proof.
  intros Hje Hd.
  pose proof (N.div_mod n (2 ^ j) (pow2_nz j)) as E. rewrite Hd, N.add_0_r in E.
  replace e with (j + (e - j)) by lia. rewrite N.pow_add_r.
  rewrite E at 1. rewrite N.Div0.mul_mod_distr_l.
  rewrite N.mul_comm. apply N.Div0.mod_mul.
Qed.

Lemma on_grid_mod_pow2 n e : on_grid 53 n -> on_grid 53 (n mod 2 ^ e).
Proof.
  intros Hg. unfold on_grid in Hg.
  set (k := N.log2 n - (53 - 1)) in *.
  set (r := n mod 2 ^ e).
  assert (Hr : r < 2 ^ e) by (apply N.mod_lt, pow2_nz).
  assert (Hrn : r <= n) by (apply N.Div0.mod_le).
  destruct (N.eq_dec r 0) as [->|Hr0]; [reflexivity|].
  assert (Hlr : N.log2 r < e) by (apply N.log2_lt_pow2; lia).
  pose proof (N.log2_le_mono _ _ Hrn) as Hll.
  destruct (N.le_gt_cases k e) as [Hke|Hke].
  - apply on_grid_of_divide with (j := k); [|lia].
    apply mod_pow2_split; assumption.
  - exfalso. apply Hr0. unfold r.
    pose proof (N.div_mod n (2 ^ k) (pow2_nz k)) as E. rewrite Hg, N.add_0_r in E.
    set (q := n / 2 ^ k) in E. clearbody q.
    assert (Ek : 2 ^ k = 2 ^ (k - e) * 2 ^ e)
      by (rewrite <- N.pow_add_r; f_equal; lia).
    rewrite E, Ek.
    replace (2 ^ (k - e) * 2 ^ e * q) with (2 ^ (k - e) * q * 2 ^ e) by lia.
    apply N.Div0.mod_mul.
Qed.

Lemma on_grid_mod_U n : on_grid 53 n -> on_grid 53 (n mod U).
Proof. rewrite U_eq. apply on_grid_mod_pow2. Qed.

(** The fractional part of a float stops short of 1 by at least [2^-53]. *)
Lemma frac_bound n : on_grid 53 n -> n mod U <= U - 2 ^ 1021.
Proof.
  intros Hg. unfold on_grid in Hg.
  set (k := N.log2 n - (53 - 1)) in *.
  assert (HU : U = 2 ^ 1021 * 2 ^ 53) by (rewrite U_eq, <- N.pow_add_r; reflexivity).
  pose proof (pow2_pos 1021) as P1. pose proof (pow2_pos 53) as P2.
  destruct (N.le_gt_cases 1021 k) as [Hk|Hk].
  - pose proof (N.div_mod n (2 ^ k) (pow2_nz k)) as E. rewrite Hg, N.add_0_r in E.
    set (q := n / 2 ^ k) in E. clearbody q.
    assert (Ek : 2 ^ k = 2 ^ 1021 * 2 ^ (k - 1021))
      by (rewrite <- N.pow_add_r; f_equal; lia).
    rewrite E, Ek, HU, <- N.mul_assoc, N.Div0.mul_mod_distr_l.
    pose proof (N.mod_lt (2 ^ (k - 1021) * q) (2 ^ 53) (pow2_nz 53)).
    dnia.
  - assert (Hn : n < 2 ^ 1073).
    { destruct (N.eq_dec n 0) as [->|Hn0]; [apply pow2_pos|].
      apply N.log2_lt_pow2; [lia|]. unfold k in Hk. lia. }
    rewrite N.mod_small.
    + assert (2 ^ 1073 + 2 ^ 1021 <= U); [|lia].
      rewrite U_eq. change 1074 with (N.succ 1073). rewrite N.pow_succ_r'.
      assert (2 ^ 1021 <= 2 ^ 1073) by (apply N.pow_le_mono_r; lia). lia.
    + rewrite U_eq. change 1074 with (N.succ 1073). rewrite N.pow_succ_r'.
      pose proof (pow2_pos 1073). lia.
Qed.

(** Floor division by a whole number [c * 2^j] is exact as long as the
    dividend is below [2^(53+j)]: both intermediate roundings leave their
    operand alone. *)
Lemma floordiv_exact n c j :
  0 < c -> n / U < 2 ^ (53 + j) ->
  py_floordiv n (c * 2 ^ j * U) = (n / (c * 2 ^ j * U)) * U.
Proof.
  intros Hc Hn. pose proof U_pos as HU. pose proof (pow2_pos j) as Hj.
  unfold py_floordiv, fmod, fdiv, fsub, fadd, ffloor. cbv zeta.
  set (y := c * 2 ^ j * U).
  assert (Hy : 0 < y) by (unfold y; nia).
  set (k := n / y).
  assert (Hsub : n - n mod y = (c * k) * (2 ^ j * U)).
  { pose proof (N.div_mod n y ltac:(lia)) as E. fold k in E.
    set (r := n mod y) in *. unfold y in E. clearbody r k. nia. }
  assert (Hck : c * k < 2 ^ 53).
  { assert (L : (c * k) * 2 ^ j <= n / U).
    { apply N.div_le_lower_bound; [lia|].
      pose proof (N.Div0.mul_div_le n y) as L. fold k in L. unfold y in L.
      clearbody k. nia. }
    rewrite N.pow_add_r in Hn. clearbody k. dnia. }
  assert (Hk : k < 2 ^ 53) by (clearbody k; nia).
  rewrite Hsub.
  assert (E1 : RN (c * k * (2 ^ j * U)) = c * k * (2 ^ j * U)).
  { rewrite U_eq, <- N.pow_add_r. now apply RN_mul_pow2. }
  rewrite E1.
  replace (c * k * (2 ^ j * U) * U) with ((k * U) * y) by (unfold y; lia).
  unfold Binary64.round_q. rewrite round_q_multiple by assumption.
  change (BinaryFloat.round_q 53 (k * U) 1) with (RN (k * U)).
  assert (E2 : RN (k * U) = k * U) by (rewrite U_eq; now apply RN_mul_pow2).
  rewrite E2.
  destruct (N.eqb_spec (k * U) 0) as [E|E]; [lia|].
  rewrite N.div_mul by lia. rewrite N.sub_diag, RN_zero.
  destruct (N.ltb_spec U (2 * 0)); [lia | reflexivity].
Qed.

Lemma floordiv_exact_small n c :
  0 < c -> n / U < 2 ^ 53 -> py_floordiv n (c * U) = (n / (c * U)) * U.
Proof.
  intros Hc Hn. pose proof (floordiv_exact n c 0 Hc Hn) as H.
  rewrite N.pow_0_r, N.mul_1_r in H. exact H.
Qed.

Lemma py_int_mul k : py_int (k * U) = Z.of_N k.
Proof. unfold py_int. rewrite N.div_mul; [reflexivity|]. pose proof U_pos. lia. Qed.

(** Two floats with the same units are the same float. *)
Lemma float64_eq (x y : float64) : units x = units y -> x = y.
Proof.
  destruct x as [n Hn], y as [m Hm]. simpl. intros ->.
  f_equal. apply UIP_dec. apply Bool.bool_dec.
Qed.

Lemma to_float64_units (x : float64) : to_float64 (units x) = Some x.
Proof.
  destruct x as [n Hn]. simpl. unfold to_float64.
  generalize (eq_refl (is_b64 n)).
  generalize (is_b64 n) at 2 3.
  intros b Hb. destruct b.
  - f_equal. apply float64_eq. reflexivity.
  - congruence.
Qed.

End B64Facts.

(** * The timestamp formatter *)

Module TimestampFacts.

Import RoundFacts B64Facts DecFacts.
Local Open Scope N_scope.

Lemma mod_mod_mul n b c : 0 < b -> 0 < c -> (n mod (b * c)) mod b = n mod b.
Proof.
  intros Hb Hc. rewrite N.Div0.mod_mul_r.
  rewrite (N.mul_comm b), N.Div0.mod_add. apply N.Div0.mod_mod.
Qed.

Lemma div_mod_mul n b c : 0 < b -> 0 < c -> (n mod (b * c)) / b = (n / b) mod c.
Proof.
  intros Hb Hc. rewrite N.Div0.mod_mul_r.
  rewrite (N.mul_comm b), N.div_add by lia.
  rewrite (N.div_small (n mod b)) by (apply N.mod_lt; lia). reflexivity.
Qed.

Lemma sub_floor n : n - n / U * U = n mod U.
Proof.
  pose proof U_pos.
  pose proof (N.div_mod n U ltac:(lia)) as E. dnia.
Qed.

(** The topmost product of a fractional part and 1000 rounds below 1000. *)
Lemma millis_top : RN (1000 * (U - 2 ^ 1021)) / U < 1000.
Proof. vm_compute. reflexivity. Qed.

Lemma fmul_1000 x : fmul x (1000 * U) = RN (1000 * x).
Proof.
  unfold fmul, Binary64.round_q.
  replace (x * (1000 * U)) with ((1000 * x) * U) by lia.
  apply round_q_multiple, U_pos.
Qed.

Lemma ts_millis_eq n : ts_millis n = RN (1000 * RN (n mod U)) / U.
Proof.
  unfold ts_millis, fsub, ffloor. rewrite sub_floor.
  rewrite of_int_exact by reflexivity. rewrite fmul_1000.
  unfold py_int. apply N2Z.id.
Qed.

Lemma ts_millis_lt n : on_grid 53 n -> ts_millis n < 1000.
Proof.
  intros Hg. rewrite ts_millis_eq.
  rewrite (RN_on_grid (n mod U)) by now apply on_grid_mod_U.
  eapply N.le_lt_trans; [|exact millis_top].
  apply N.Div0.div_le_mono. apply RN_mono.
  apply N.mul_le_mono_l. now apply frac_bound.
Qed.

Lemma ts_minutes_lt n : ts_minutes n < 60.
Proof. apply N.mod_lt. discriminate. Qed.

Lemma ts_seconds_lt n : ts_seconds n < 60.
Proof. apply N.mod_lt. discriminate. Qed.

(** Below [2^57] seconds the hours are the exact floor. *)
Lemma ts_hours_exact n : n / U < 2 ^ 57 -> ts_hours n = n / (3600 * U).
Proof.
  intros Hn. unfold ts_hours. rewrite of_int_exact by reflexivity.
  change 3600 with (225 * 2 ^ 4).
  rewrite floordiv_exact by (assumption || reflexivity).
  rewrite py_int_mul. apply N2Z.id.
Qed.

(** The three local variables of [_format_timestamp] after the two [%=]. *)
Lemma minutes_eq n :
  py_int (py_floordiv (py_mod n (of_int 3600)) (of_int 60)) = Z.of_N (ts_minutes n).
Proof.
  pose proof U_pos as HU.
  rewrite !of_int_exact by reflexivity. unfold py_mod, fmod.
  rewrite floordiv_exact_small; [|reflexivity|].
  2:{ eapply N.lt_trans with 3600; [|reflexivity].
      apply N.Div0.div_lt_upper_bound.
      rewrite (N.mul_comm U). apply N.mod_lt. lia. }
  rewrite py_int_mul. f_equal. unfold ts_minutes.
  replace (3600 * U) with ((60 * U) * 60) by lia.
  apply div_mod_mul; lia.
Qed.

Lemma seconds_eq n :
  py_mod (py_mod n (of_int 3600)) (of_int 60) = n mod (60 * U).
Proof.
  pose proof U_pos as HU.
  rewrite !of_int_exact by reflexivity. unfold py_mod, fmod.
  replace (3600 * U) with ((60 * U) * 60) by lia.
  apply mod_mod_mul; lia.
Qed.

Lemma int_seconds_eq n : py_int (n mod (60 * U)) = Z.of_N (ts_seconds n).
Proof.
  pose proof U_pos as HU.
  unfold py_int, ts_seconds. f_equal.
  rewrite (N.mul_comm 60). apply div_mod_mul; lia.
Qed.

Lemma frac_eq n :
  fsub (n mod (60 * U)) (of_int (Z.to_N (py_int (n mod (60 * U))))) = fsub n (ffloor n).
Proof.
  pose proof U_pos as HU.
  rewrite int_seconds_eq, N2Z.id.
  rewrite of_int_exact.
  2:{ eapply N.lt_trans; [apply ts_seconds_lt | reflexivity]. }
  unfold fsub, ffloor. f_equal. rewrite sub_floor.
  unfold ts_seconds.
  rewrite (N.mul_comm 60 U), N.Div0.mod_mul_r.
  set (a := n mod U). set (b := (n / U) mod 60). lia.
Qed.

Lemma format_timestamp_body (s : float64) (sep : string) :
  (format_0d 2 (py_int (py_floordiv (units s) (of_int 3600))) ++ ":"
   ++ format_0d 2 (py_int (py_floordiv (py_mod (units s) (of_int 3600)) (of_int 60))) ++ ":"
   ++ format_0d 2 (py_int (py_mod (py_mod (units s) (of_int 3600)) (of_int 60))) ++ sep
   ++ format_0d 3
        (py_int
           (fmul
              (fsub (py_mod (py_mod (units s) (of_int 3600)) (of_int 60))
                 (of_int (Z.to_N (py_int (py_mod (py_mod (units s) (of_int 3600)) (of_int 60))))))
              (of_int 1000))))%string
  = timestamp sep s.
Proof.
  pose proof (is_b64_on_grid _ (units_ok s)) as Hg.
  set (n := units s) in *.
  rewrite minutes_eq, seconds_eq, frac_eq, int_seconds_eq.
  unfold timestamp. fold n.
  assert (Hms : py_int (fmul (fsub n (ffloor n)) (of_int 1000)) = Z.of_N (ts_millis n)).
  { unfold ts_millis, py_int. now rewrite N2Z.id. }
  rewrite Hms.
  assert (Hh : py_int (py_floordiv n (of_int 3600)) = Z.of_N (ts_hours n)).
  { unfold ts_hours, py_int. now rewrite N2Z.id. }
  rewrite Hh.
  rewrite (format_0d_small 2 (ts_minutes n)); [|lia|].
  2:{ eapply N.lt_trans; [apply ts_minutes_lt | reflexivity]. }
  rewrite (format_0d_small 2 (ts_seconds n)); [|lia|].
  2:{ eapply N.lt_trans; [apply ts_seconds_lt | reflexivity]. }
  rewrite (format_0d_small 3 (ts_millis n)); [|lia|].
  2:{ eapply N.lt_le_trans; [now apply ts_millis_lt | apply N.le_refl]. }
  reflexivity.
Qed.

Lemma format_timestamp_srt s : _format_timestamp s "srt" = Ok (timestamp "," s).
Proof.
  unfold _format_timestamp. cbv zeta.
  change (String.eqb (lower "srt") "srt") with true. cbv iota.
  f_equal. apply format_timestamp_body.
Qed.

Lemma format_timestamp_vtt s : _format_timestamp s "vtt" = Ok (timestamp "." s).
Proof.
  unfold _format_timestamp. cbv zeta.
  change (String.eqb (lower "vtt") "srt") with false.
  change (String.eqb (lower "vtt") "vtt") with true. cbv iota.
  f_equal. apply format_timestamp_body.
Qed.

End TimestampFacts.

(** * Order of timestamps *)

Module OrderFacts.

Import RoundFacts B64Facts DecFacts StrFacts TimestampFacts.
Local Open Scope N_scope.

(** The fields of a later time come later in the order of the tuples
    (hours, minutes, seconds, milliseconds), when the hours are exact. *)
Inductive fields_le : N * N * N * N -> N * N * N * N -> Prop :=
| fle_h h m s f h' m' s' f' : h < h' -> fields_le (h, m, s, f) (h', m', s', f')
| fle_m h m s f m' s' f' : m < m' -> fields_le (h, m, s, f) (h, m', s', f')
| fle_s h m s f s' f' : s < s' -> fields_le (h, m, s, f) (h, m, s', f')
| fle_f h m s f f' : f <= f' -> fields_le (h, m, s, f) (h, m, s, f').

Lemma div_div_60 n : n / (3600 * U) = n / (60 * U) / 60.
Proof. rewrite N.Div0.div_div. f_equal; lia. Qed.

Lemma div_div_U n : n / (60 * U) = n / U / 60.
Proof. rewrite N.Div0.div_div. f_equal; lia. Qed.

Lemma ts_millis_mono n n' :
  on_grid 53 n -> on_grid 53 n' -> n mod U <= n' mod U -> ts_millis n <= ts_millis n'.
Proof.
  intros Hg Hg' Hle. rewrite !ts_millis_eq.
  rewrite (RN_on_grid (n mod U)), (RN_on_grid (n' mod U)) by now apply on_grid_mod_U.
  apply N.Div0.div_le_mono, RN_mono. dlia.
Qed.

Lemma fields_mono n n' :
  on_grid 53 n -> on_grid 53 n' -> n <= n' ->
  fields_le (n / (3600 * U), ts_minutes n, ts_seconds n, ts_millis n)
            (n' / (3600 * U), ts_minutes n', ts_seconds n', ts_millis n').
Proof.
  intros Hg Hg' Hle. pose proof U_pos as HU.
  unfold ts_minutes, ts_seconds.
  rewrite !div_div_60, !div_div_U.
  set (b := n / U). set (b' := n' / U).
  assert (Hb : b <= b') by (apply N.Div0.div_le_mono; assumption).
  set (a := b / 60). set (a' := b' / 60).
  assert (Ha : a <= a') by (apply N.Div0.div_le_mono; assumption).
  assert (Hh : a / 60 <= a' / 60) by (apply N.Div0.div_le_mono; assumption).
  pose proof (N.div_mod a 60 ltac:(lia)) as Ea.
  pose proof (N.div_mod a' 60 ltac:(lia)) as Ea'.
  pose proof (N.div_mod b 60 ltac:(lia)) as Eb. fold a in Eb.
  pose proof (N.div_mod b' 60 ltac:(lia)) as Eb'. fold a' in Eb'.
  pose proof (N.div_mod n U ltac:(lia)) as En. fold b in En.
  pose proof (N.div_mod n' U ltac:(lia)) as En'. fold b' in En'.
  destruct (N.lt_ge_cases (a / 60) (a' / 60)) as [Lh|Gh]; [now apply fle_h|].
  assert (Eh : a / 60 = a' / 60) by lia. rewrite Eh.
  destruct (N.lt_ge_cases (a mod 60) (a' mod 60)) as [Lm|Gm]; [now apply fle_m|].
  assert (Em : a mod 60 = a' mod 60).
  { rewrite Eh in Ea. clear - Ea Ea' Ha Gm. dlia. }
  rewrite Em.
  assert (Eaa : a = a') by (rewrite Eh, Em in Ea; clear - Ea Ea'; dlia).
  destruct (N.lt_ge_cases (b mod 60) (b' mod 60)) as [Ls|Gs]; [now apply fle_s|].
  assert (Es : b mod 60 = b' mod 60).
  { rewrite Eaa in Eb. clear - Eb Eb' Hb Gs. clearbody a'. dlia. }
  rewrite Es.
  assert (Ebb : b = b').
  { rewrite Eaa, Es in Eb. clear - Eb Eb'. clearbody a'. dlia. }
  apply fle_f. apply ts_millis_mono; try assumption.
  rewrite Ebb in En. clear - En En' Hle HU. clearbody b'. dnia.
Qed.

(** The order of the fields is the order of the strings, for hour fields of
    the same length. *)
Lemma fixw_leb w a b x y :
  a < 10 ^ N.of_nat w -> b < 10 ^ N.of_nat w ->
  String.compare (fixw w a ++ x) (fixw w b ++ y) =
  match N.compare a b with
  | Eq => String.compare x y
  | o => o
  end.
Proof.
  intros Ha Hb. rewrite compare_app by now rewrite !length_fixw.
  now rewrite compare_fixw.
Qed.

Lemma hours_same_width h h' :
  String.length (format_0d 2 (Z.of_N h)) = String.length (format_0d 2 (Z.of_N h')) ->
  exists w, format_0d 2 (Z.of_N h) = fixw w h /\ format_0d 2 (Z.of_N h') = fixw w h'
            /\ h < 10 ^ N.of_nat w /\ h' < 10 ^ N.of_nat w.
Proof.
  rewrite !format_0d_nonneg, !length_fixw. intros Hw.
  exists (Nat.max 2 (ndigits h)).
  split; [reflexivity|]. split; [now rewrite Hw|].
  split; [| rewrite Hw ];
    (eapply N.lt_le_trans; [apply ndigits_spec | apply N.pow_le_mono_r; lia]).
Qed.

Lemma timestamp_fields_leb sep h m s f h' m' s' f' :
  String.length (format_0d 2 (Z.of_N h)) = String.length (format_0d 2 (Z.of_N h')) ->
  m < 100 -> m' < 100 -> s < 100 -> s' < 100 -> f < 1000 -> f' < 1000 ->
  fields_le (h, m, s, f) (h', m', s', f') ->
  String.leb
    (format_0d 2 (Z.of_N h) ++ ":" ++ fixw 2 m ++ ":" ++ fixw 2 s ++ sep ++ fixw 3 f)
    (format_0d 2 (Z.of_N h') ++ ":" ++ fixw 2 m' ++ ":" ++ fixw 2 s' ++ sep ++ fixw 3 f')
  = true.
Proof.
  intros Hlen Hm Hm' Hs Hs' Hf Hf' Hle.
  destruct (hours_same_width h h' Hlen) as (w & -> & -> & Hh & Hh').
  unfold String.leb.
  rewrite fixw_leb by assumption.
  assert (Hc : forall x y : string,
             String.compare (":" ++ x) (":" ++ y) = String.compare x y) by reflexivity.
  assert (Hsep : forall x y : string,
             String.compare (sep ++ x) (sep ++ y) = String.compare x y).
  { intros x y. rewrite compare_app by reflexivity. now rewrite compare_refl. }
  assert (Hlast : forall a b, a < 1000 -> b < 1000 ->
             String.compare (fixw 3 a) (fixw 3 b) = N.compare a b).
  { intros a b Ha Hb. now apply compare_fixw. }
  inversion Hle; subst.
  - apply N.compare_lt_iff in H0. now rewrite H0.
  - rewrite N.compare_refl, Hc, fixw_leb by assumption.
    apply N.compare_lt_iff in H0. now rewrite H0.
  - rewrite N.compare_refl, Hc, fixw_leb by assumption.
    rewrite N.compare_refl, Hc, fixw_leb by assumption.
    apply N.compare_lt_iff in H0. now rewrite H0.
  - rewrite N.compare_refl, Hc, fixw_leb by assumption.
    rewrite N.compare_refl, Hc, fixw_leb by assumption.
    rewrite N.compare_refl, Hsep, Hlast by assumption.
    destruct (N.compare_spec f f'); try reflexivity. lia.
Qed.

End OrderFacts.

(** * SRT and WebVTT *)

Module SubtitleFacts.

Import StrFacts TimestampFacts.

Lemma srt_append_eq acc segment :
  srt_append acc segment = Ok (acc ++ srt_entry segment).
Proof.
  unfold srt_append. rewrite !format_timestamp_srt. simpl bind.
  rewrite <- !app_assoc. reflexivity.
Qed.

Lemma vtt_append_eq acc segment :
  vtt_append acc segment = Ok (acc ++ vtt_entry segment).
Proof.
  unfold vtt_append. rewrite !format_timestamp_vtt. simpl bind.
  rewrite <- !app_assoc. reflexivity.
Qed.

(** The loops append the entries of the segments in order. *)
Lemma for_each_srt segments acc :
  for_each srt_append segments acc = Ok (acc ++ flat_map srt_entry segments).
Proof.
  revert acc. induction segments as [|x rest IH]; intros acc; cbn [for_each flat_map].
  - now rewrite app_nil_r.
  - rewrite srt_append_eq. simpl bind. rewrite IH, <- app_assoc. reflexivity.
Qed.

Lemma for_each_vtt segments acc :
  for_each vtt_append segments acc = Ok (acc ++ flat_map vtt_entry segments).
Proof.
  revert acc. induction segments as [|x rest IH]; intros acc; cbn [for_each flat_map].
  - now rewrite app_nil_r.
  - rewrite vtt_append_eq. simpl bind. rewrite IH, <- app_assoc. reflexivity.
Qed.

Lemma generate_srt_eq result :
  generate_srt result = Ok (join nl (flat_map srt_entry (res_segments result))).
Proof. unfold generate_srt. now rewrite for_each_srt. Qed.

Lemma generate_vtt_eq result :
  generate_vtt result
  = Ok (join nl ("WEBVTT" :: "" :: flat_map vtt_entry (res_segments result))%string).
Proof. unfold generate_vtt. now rewrite for_each_vtt. Qed.

(** The joined lines as text: the blocks of the segments, one newline
    (an empty line) between two of them. *)
Lemma join_srt_blocks segments :
  join nl (flat_map srt_entry segments) = join nl (map srt_block segments).
Proof.
  induction segments as [|x rest IH]; [reflexivity|].
  change (flat_map srt_entry (x :: rest)) with (srt_entry x ++ flat_map srt_entry rest).
  unfold srt_entry at 1. cbn [app map].
  destruct rest as [|y rest'].
  - cbn [flat_map join]. unfold srt_block.
    rewrite append_nil_r. reflexivity.
  - rewrite !join_cons2. cbn [map] in IH.
    change (flat_map srt_entry (y :: rest')) with (srt_entry y ++ flat_map srt_entry rest') in *.
    unfold srt_entry at 1. cbn [app].
    unfold srt_entry at 1 in IH. cbn [app] in IH.
    rewrite !join_cons2. rewrite !join_cons2 in IH.
    cbn [map]. rewrite join_cons2, <- IH.
    unfold srt_block. rewrite !append_assoc, !append_nil_l. reflexivity.
Qed.

Lemma join_vtt_blocks segments :
  join nl ("WEBVTT" :: "" :: flat_map vtt_entry segments)%string
  = ("WEBVTT" ++ nl ++ concat_strings (map (fun s => nl ++ vtt_block s) segments))%string.
Proof.
  assert (H : forall l,
    join nl (EmptyString :: flat_map vtt_entry l)
    = concat_strings (map (fun s => nl ++ vtt_block s)%string l)).
  { induction l as [|x rest IH]; [reflexivity|].
    change (flat_map vtt_entry (x :: rest)) with (vtt_entry x ++ flat_map vtt_entry rest).
    unfold vtt_entry at 1. cbn [app map concat_strings].
    rewrite !join_cons2, IH. unfold vtt_block.
    rewrite !append_assoc, !append_nil_l. reflexivity. }
  rewrite join_cons2, H. reflexivity.
Qed.

End SubtitleFacts.

(** * The characters of a timestamp *)

Module CharFacts.

Import StrFacts DecFacts.

Lemma all_chars_app P (a b : string) :
  all_chars P (a ++ b) = (all_chars P a && all_chars P b)%bool.
Proof.
  induction a as [|c a IH]; [reflexivity|].
  rewrite append_cons. simpl. rewrite IH. now rewrite andb_assoc.
Qed.

Lemma all_chars_weaken (P Q : ascii -> bool) s :
  (forall c, P c = true -> Q c = true) -> all_chars P s = true -> all_chars Q s = true.
Proof.
  intros H. induction s as [|c s IH]; simpl; [reflexivity|].
  intros E. apply andb_prop in E. destruct E as [E1 E2].
  now rewrite (H _ E1), IH.
Qed.

Lemma all_digits_fixw w n : all_chars is_digit (fixw w n) = true.
Proof.
  induction w as [|w IH]; simpl; [reflexivity|].
  rewrite IH, andb_true_r. apply is_digit_digit_char.
  apply N.mod_lt. discriminate.
Qed.

(** Digits, colons and the separator: nothing else occurs in a timestamp. *)
Definition ts_char (sep : ascii) (c : ascii) : bool :=
  (is_digit c || Ascii.eqb c ":" || Ascii.eqb c sep)%bool.

Lemma timestamp_chars (sep : ascii) (s : float64) :
  all_chars (ts_char sep) (timestamp (String sep EmptyString) s) = true.
Proof.
  unfold timestamp. rewrite format_0d_nonneg.
  assert (D : forall w n, all_chars (ts_char sep) (fixw w n) = true).
  { intros w n. apply (all_chars_weaken is_digit); [|apply all_digits_fixw].
    intros c Hc. unfold ts_char. now rewrite Hc. }
  rewrite !all_chars_app, !D. simpl.
  unfold ts_char. rewrite Ascii.eqb_refl, orb_true_r. reflexivity.
Qed.

End CharFacts.

(** * Audio preparation *)

Module AudioFacts.

Import RoundFacts Binary32 Audio.
Local Open Scope Z_scope.

Lemma U32_eq : U32 = 2 ^ 149.
Proof. reflexivity. Qed.

(** Casting and dividing by [2^c] is one correct rounding of the exact
    quotient, for magnitudes. *)
Lemma cast_div_magnitude (a c : N) :
  (c <= 149)%N ->
  BinaryFloat.round_q 24
    (BinaryFloat.round_q 24 (a * 2 ^ 149) 1 * 2 ^ 149) (2 ^ c * 2 ^ 149)
  = BinaryFloat.round_q 24 (a * 2 ^ 149) (2 ^ c).
Proof.
  intros Hc.
  assert (E149 : (2 ^ 149 = 2 ^ (149 - c) * 2 ^ c)%N).
  { rewrite <- N.pow_add_r. f_equal. lia. }
  rewrite round_q_cancel by apply pow2_pos.
  rewrite (round_q_scale 24 a 149) by reflexivity.
  rewrite E149 at 1. rewrite !N.mul_assoc.
  rewrite round_q_multiple by apply pow2_pos.
  rewrite round_q_scale, round_q_idem by reflexivity.
  rewrite E149, N.mul_assoc.
  rewrite round_q_multiple by apply pow2_pos.
  now rewrite round_q_scale by reflexivity.
Qed.

Lemma f32_of_int_pow2 (c : N) : f32_of_int (2 ^ Z.of_N c) = 2 ^ Z.of_N c * U32.
Proof.
  unfold f32_of_int, round_z.
  assert (P : 0 < 2 ^ Z.of_N c) by (apply Z.pow_pos_nonneg; lia).
  assert (PU : 0 < U32) by reflexivity.
  rewrite Z.sgn_pos by nia. rewrite Z.mul_1_l.
  replace (Z.abs_N (2 ^ Z.of_N c * U32)) with (1 * 2 ^ (c + 149))%N.
  - rewrite round_q_mul_pow2 by reflexivity.
    rewrite N.mul_1_l, N2Z.inj_pow, N2Z.inj_add, Z.pow_add_r by lia. reflexivity.
  - apply N2Z.inj. rewrite N2Z.inj_abs_N, Z.abs_eq by nia.
    rewrite N.mul_1_l, N2Z.inj_pow, N2Z.inj_add, Z.pow_add_r by lia. reflexivity.
Qed.

(** The code's two steps on one sample are the correctly rounded quotient. *)
Lemma cast_div (x : Z) (c : N) :
  (c <= 149)%N ->
  f32_div (f32_of_int x) (f32_of_int (2 ^ Z.of_N c)) = round_z (x * U32) (2 ^ Z.of_N c).
Proof.
  intros Hc. rewrite f32_of_int_pow2.
  unfold f32_div, f32_of_int, round_z.
  assert (PU : 0 < U32) by reflexivity.
  assert (P : 0 < 2 ^ Z.of_N c) by (apply Z.pow_pos_nonneg; lia).
  assert (Eq1 : Z.to_N 1 = 1%N) by reflexivity.
  assert (Eq2 : Z.to_N (2 ^ Z.of_N c) = (2 ^ c)%N).
  { apply N2Z.inj. rewrite Z2N.id by lia. now rewrite N2Z.inj_pow. }
  assert (Eq3 : Z.to_N (2 ^ Z.of_N c * U32) = (2 ^ c * 2 ^ 149)%N).
  { apply N2Z.inj. rewrite Z2N.id by nia.
    rewrite N2Z.inj_mul, !N2Z.inj_pow. reflexivity. }
  assert (Eabs : forall z, Z.abs_N (z * U32) = (Z.abs_N z * 2 ^ 149)%N).
  { intros z. rewrite Zabs2N.inj_mul. reflexivity. }
  rewrite Eq1, Eq2, Eq3, Eabs.
  set (R := BinaryFloat.round_q 24 (Z.abs_N x * 2 ^ 149) 1).
  destruct (Z.eq_dec x 0) as [->|Hx0]; [reflexivity|].
  assert (HR : (0 < R)%N).
  { unfold R. pose proof (round_q_mono 24 (1 * 2 ^ 149) (Z.abs_N x * 2 ^ 149) 1
                            ltac:(reflexivity) ltac:(reflexivity)) as M.
    rewrite round_q_mul_pow2 in M by reflexivity.
    assert (1 * 2 ^ 149 <= Z.abs_N x * 2 ^ 149)%N.
    { apply N.mul_le_mono_r. lia. }
    specialize (M H). pose proof (pow2_pos 149). lia. }
  assert (Esgn : Z.sgn (Z.sgn x * Z.of_N R * U32) = Z.sgn x).
  { destruct (Z.lt_trichotomy x 0) as [L|[E|G]]; [|lia|].
    - rewrite (Z.sgn_neg x L). apply Z.sgn_neg. nia.
    - rewrite (Z.sgn_pos x G). apply Z.sgn_pos. nia. }
  assert (Esx : Z.sgn (x * U32) = Z.sgn x).
  { rewrite Z.sgn_mul, (Z.sgn_pos U32) by assumption. lia. }
  rewrite Esx, Esgn. f_equal. f_equal.
  replace (Z.abs_N (Z.sgn x * Z.of_N R * U32)) with (R * 2 ^ 149)%N.
  - unfold R. now apply cast_div_magnitude.
  - rewrite Eabs. f_equal. rewrite Zabs2N.inj_mul, Zabs2N.id.
    destruct (Z.lt_trichotomy x 0) as [L|[E|G]]; [|lia|].
    + rewrite (Z.sgn_neg x L). simpl. lia.
    + rewrite (Z.sgn_pos x G). simpl. lia.
Qed.

(** A sample within the range of its width lands in [[-1, 1]]. *)
Lemma quotient_bounded (x : Z) (c : N) :
  (c <= 149)%N -> - 2 ^ Z.of_N c <= x <= 2 ^ Z.of_N c ->
  - U32 <= round_z (x * U32) (2 ^ Z.of_N c) <= U32.
Proof.
  intros Hc Hx. unfold round_z.
  assert (PU : 0 < U32) by reflexivity.
  assert (P : 0 < 2 ^ Z.of_N c) by (apply Z.pow_pos_nonneg; lia).
  assert (Eq2 : Z.to_N (2 ^ Z.of_N c) = (2 ^ c)%N).
  { apply N2Z.inj. rewrite Z2N.id by lia. now rewrite N2Z.inj_pow. }
  rewrite Eq2, Zabs2N.inj_mul.
  change (Z.abs_N U32) with (2 ^ 149)%N.
  assert (Ha : (Z.abs_N x <= 2 ^ c)%N).
  { apply N2Z.inj_le. rewrite N2Z.inj_abs_N, N2Z.inj_pow. simpl Z.of_N at 2. lia. }
  assert (B : (BinaryFloat.round_q 24 (Z.abs_N x * 2 ^ 149) (2 ^ c) <= 2 ^ 149)%N).
  { eapply N.le_trans.
    - apply (round_q_mono 24 _ (2 ^ 149 * 2 ^ c)); [reflexivity | apply pow2_pos |].
      rewrite (N.mul_comm (2 ^ 149)). now apply N.mul_le_mono_r.
    - rewrite round_q_multiple by apply pow2_pos.
      rewrite <- (N.mul_1_l (2 ^ 149)) at 1.
      rewrite round_q_mul_pow2 by reflexivity. lia. }
  set (q := BinaryFloat.round_q 24 (Z.abs_N x * 2 ^ 149) (2 ^ c)) in *.
  assert (Bz : 0 <= Z.of_N q <= U32).
  { split; [lia|]. change U32 with (Z.of_N (2 ^ 149)). now apply N2Z.inj_le. }
  destruct (Z.sgn_spec (x * U32)) as [[_ ->]|[[_ ->]|[_ ->]]]; lia.
Qed.

(** The most negative sample is exactly -1.0. *)
Lemma quotient_lowest (c : N) :
  (c <= 149)%N -> round_z (- 2 ^ Z.of_N c * U32) (2 ^ Z.of_N c) = - U32.
Proof.
  intros Hc. unfold round_z.
  assert (PU : 0 < U32) by reflexivity.
  assert (P : 0 < 2 ^ Z.of_N c) by (apply Z.pow_pos_nonneg; lia).
  rewrite Z.sgn_neg by nia.
  assert (Eq2 : Z.to_N (2 ^ Z.of_N c) = (2 ^ c)%N).
  { apply N2Z.inj. rewrite Z2N.id by lia. now rewrite N2Z.inj_pow. }
  rewrite Eq2, Zabs2N.inj_mul, Zabs2N.inj_opp.
  change (Z.abs_N U32) with (2 ^ 149)%N.
  replace (Z.abs_N (2 ^ Z.of_N c)) with (2 ^ c)%N.
  2:{ apply N2Z.inj. rewrite N2Z.inj_abs_N, N2Z.inj_pow, Z.abs_eq by lia. reflexivity. }
  rewrite (N.mul_comm (2 ^ c)), round_q_multiple by apply pow2_pos.
  rewrite <- (N.mul_1_l (2 ^ 149)) at 1.
  rewrite round_q_mul_pow2 by reflexivity. reflexivity.
Qed.

(** Below 24 bits nothing is rounded. *)
Lemma quotient_exact (x : Z) (c : N) :
  (c <= 149)%N -> Z.abs x < 2 ^ 24 ->
  round_z (x * U32) (2 ^ Z.of_N c) * 2 ^ Z.of_N c = x * U32.
Proof.
  intros Hc Hx. unfold round_z.
  assert (PU : 0 < U32) by reflexivity.
  assert (P : 0 < 2 ^ Z.of_N c) by (apply Z.pow_pos_nonneg; lia).
  assert (Eq2 : Z.to_N (2 ^ Z.of_N c) = (2 ^ c)%N).
  { apply N2Z.inj. rewrite Z2N.id by lia. now rewrite N2Z.inj_pow. }
  rewrite Eq2, Zabs2N.inj_mul.
  change (Z.abs_N U32) with (2 ^ 149)%N.
  assert (E149 : (2 ^ 149 = 2 ^ (149 - c) * 2 ^ c)%N).
  { rewrite <- N.pow_add_r. f_equal. lia. }
  rewrite E149 at 1. rewrite N.mul_assoc, round_q_multiple by apply pow2_pos.
  rewrite round_q_mul_pow2; [|reflexivity|].
  2:{ apply N2Z.inj_lt. rewrite N2Z.inj_abs_N. exact Hx. }
  rewrite Z.sgn_mul, (Z.sgn_pos U32) by assumption.
  rewrite N2Z.inj_mul, N2Z.inj_abs_N, N2Z.inj_pow.
  assert (EU : U32 = 2 ^ Z.of_N (149 - c) * 2 ^ Z.of_N c).
  { rewrite <- Z.pow_add_r by lia. rewrite U32_eq. f_equal. lia. }
  rewrite EU. simpl (Z.of_N 2).
  set (A := 2 ^ Z.of_N (149 - c)). set (B := 2 ^ Z.of_N c).
  transitivity ((Z.abs x * Z.sgn x) * (A * B)); [ring|].
  now rewrite Z.abs_sgn.
Qed.

(** What pydub's two setters do to channel count and frame rate. *)
Section Setters.

Variable downmix : AudioSegment -> positive -> list Z.
Variable resample : AudioSegment -> N -> list Z.

Lemma set_channels_channels a n : channels (set_channels downmix a n) = n.
Proof.
  unfold set_channels. destruct (Pos.eqb_spec n (channels a)) as [E|NE];
    [symmetry; exact E | reflexivity].
Qed.

Lemma set_channels_rate a n : frame_rate (set_channels downmix a n) = frame_rate a.
Proof. unfold set_channels. now destruct (Pos.eqb n (channels a)). Qed.

Lemma set_frame_rate_rate a r : frame_rate (set_frame_rate resample a r) = r.
Proof.
  unfold set_frame_rate. destruct (N.eqb_spec r (frame_rate a)) as [E|NE];
    [symmetry; exact E | reflexivity].
Qed.

Lemma set_frame_rate_channels a r :
  channels (set_frame_rate resample a r) = channels a.
Proof. unfold set_frame_rate. now destruct (N.eqb r (frame_rate a)). Qed.

End Setters.

End AudioFacts.

(** * JSON: what is written is read back *)

Module JsonFacts.

Import RoundFacts B64Facts DecFacts StrFacts CharFacts Json.

Local Open Scope string_scope.

(** What may follow a token for a scan with [P] to stop there. *)
Definition stops (P : ascii -> bool) (s : string) : bool :=
  match s with
  | EmptyString => true
  | String c _ => negb (P c)
  end.

Lemma span_app P (a b : string) :
  all_chars P a = true -> stops P b = true -> span P (a ++ b) = (a, b).
Proof.
  intros Ha Hb. induction a as [|c a IH].
  - rewrite append_nil_l. destruct b as [|d b]; [reflexivity|].
    simpl in *. now destruct (P d).
  - rewrite append_cons. simpl in *.
    apply andb_prop in Ha. destruct Ha as [Hc Ha].
    rewrite Hc, (IH Ha). reflexivity.
Qed.

Lemma span_all P (a : string) : all_chars P a = true -> span P a = (a, EmptyString).
Proof.
  intros Ha. rewrite <- (append_nil_r a) at 1. now apply span_app.
Qed.

(** *** Characters *)

Lemma digit_is_number_char c : is_digit c = true -> is_number_char c = true.
Proof. intros H. unfold is_number_char. now rewrite H. Qed.

Lemma digit_tests c :
  is_digit c = true ->
  Ascii.eqb c dquote = false /\ Ascii.eqb c "{" = false /\ Ascii.eqb c "[" = false
  /\ Ascii.eqb c "n" = false /\ Ascii.eqb c "t" = false /\ Ascii.eqb c "f" = false
  /\ Ascii.eqb c "-" = false /\ Ascii.eqb c "." = false /\ is_ws c = false.
Proof.
  destruct c as [[] [] [] [] [] [] [] []]; intros H; try discriminate H;
    repeat split; reflexivity.
Qed.

Lemma number_char_tests c :
  is_number_char c = true ->
  Ascii.eqb c dquote = false /\ Ascii.eqb c "{" = false /\ Ascii.eqb c "[" = false
  /\ Ascii.eqb c "n" = false /\ Ascii.eqb c "t" = false /\ Ascii.eqb c "f" = false
  /\ is_ws c = false.
Proof.
  destruct c as [[] [] [] [] [] [] [] []]; intros H; try discriminate H;
    repeat split; reflexivity.
Qed.

Lemma all_number_chars_digits s :
  all_chars is_digit s = true -> all_chars is_number_char s = true.
Proof. apply all_chars_weaken. exact digit_is_number_char. Qed.

(** *** Integers *)

Lemma str_N_cons n :
  exists c rest, str_N n = String c rest /\ is_digit c = true
                 /\ (Ascii.eqb c "0" = true -> rest = EmptyString).
Proof.
  unfold str_N. destruct (ndigits_spec n) as (A & B & C).
  destruct (ndigits n) as [|w] eqn:Ew; [lia|].
  cbn [fixw]. eexists _, _. split; [reflexivity|].
  assert (Hd : ((n / 10 ^ N.of_nat w) mod 10 < 10)%N) by (apply N.mod_lt; discriminate).
  split; [now apply is_digit_digit_char|].
  intros H0. destruct w as [|w']; [reflexivity|exfalso].
  assert (Hn : (10 <= n)%N).
  { destruct (N.le_gt_cases 10 n) as [|Hs]; [assumption|exfalso].
    pose proof (ndigits_le n 1 ltac:(lia) ltac:(simpl; lia)). lia. }
  specialize (B Hn). replace (S (S w') - 1)%nat with (S w') in B by lia.
  replace (N.of_nat (S (S w'))) with (N.succ (N.of_nat (S w'))) in A by lia.
  rewrite N.pow_succ_r' in A.
  set (P := (10 ^ N.of_nat (S w'))%N) in *.
  assert (HP : (0 < P)%N) by apply pow10_pos.
  assert (Hq1 : (1 <= n / P)%N) by (apply N.div_le_lower_bound; lia).
  assert (Hq2 : (n / P < 10)%N) by (apply N.Div0.div_lt_upper_bound; lia).
  rewrite N.mod_small in H0 by assumption.
  apply Ascii.eqb_eq in H0.
  apply (f_equal N_of_ascii) in H0. rewrite N_of_digit_char in H0 by assumption.
  simpl in H0. clearbody P. dlia.
Qed.

Lemma all_digits_str_N n : all_chars is_digit (str_N n) = true.
Proof. apply all_digits_fixw. Qed.

Lemma int_part_ok_str_N n : int_part_ok (str_N n) = true.
Proof.
  destruct (str_N_cons n) as (c & rest & E & Hc & H0). rewrite E. simpl.
  destruct (Ascii.eqb c "0") eqn:Ec; [|reflexivity].
  now rewrite (H0 eq_refl).
Qed.

Lemma split_sign_str_N n : split_sign (str_N n) = (false, str_N n).
Proof.
  destruct (str_N_cons n) as (c & rest & E & Hc & _).
  destruct (digit_tests c Hc) as (_ & _ & _ & _ & _ & _ & Hm & _).
  rewrite E. unfold split_sign. now rewrite Hm.
Qed.

Lemma split_sign_str_N_app n t : split_sign (str_N n ++ t) = (false, str_N n ++ t).
Proof.
  destruct (str_N_cons n) as (c & rest & E & Hc & _).
  destruct (digit_tests c Hc) as (_ & _ & _ & _ & _ & _ & Hm & _).
  rewrite E, append_cons. unfold split_sign. now rewrite Hm.
Qed.

Lemma parse_number_token_str_N n :
  parse_number_token (str_N n) = Some (JInt (Z.of_N n)).
Proof.
  unfold parse_number_token. rewrite split_sign_str_N. cbn [fst snd].
  rewrite (span_all is_digit (str_N n)) by apply all_digits_str_N.
  unfold number_value.
  rewrite int_part_ok_str_N, dec_value_str_N. reflexivity.
Qed.

Lemma parse_number_token_str z : parse_number_token (str z) = Some (JInt z).
Proof.
  destruct z as [|p|p].
  - reflexivity.
  - change (str (Zpos p)) with (str_N (Npos p)).
    now rewrite parse_number_token_str_N.
  - change (str (Zneg p)) with (String "-" (str_N (Npos p))).
    unfold parse_number_token, split_sign.
    change (Ascii.eqb "-" "-") with true. cbn [fst snd].
    rewrite (span_all is_digit (str_N (Npos p))) by apply all_digits_str_N.
    unfold number_value.
    rewrite int_part_ok_str_N, dec_value_str_N. reflexivity.
Qed.

Lemma number_chars_str z : all_chars is_number_char (str z) = true.
Proof.
  destruct z as [|p|p].
  - reflexivity.
  - apply all_number_chars_digits, all_digits_str_N.
  - change (str (Zneg p)) with (String "-" (str_N (Npos p))).
    simpl. apply all_number_chars_digits, all_digits_str_N.
Qed.

(** *** Floats *)

Lemma shortest_reads_back fuel nd n e s :
  shortest fuel nd n e = Some s -> reads_back n s = true.
Proof.
  revert nd. induction fuel as [|fuel IH]; intros nd; simpl; [discriminate|].
  destruct (find (reads_back n) (candidates n e nd)) as [s'|] eqn:F.
  - intros H. injection H as <-. now apply List.find_some in F.
  - apply IH.
Qed.

Lemma pow10_split : (10 ^ 1074 = 5 ^ 1074 * 2 ^ 1074)%N.
Proof. change 10%N with (5 * 2)%N. apply N.pow_mul_l. Qed.

Lemma dec_to_units_exact n :
  on_grid 53 n -> dec_to_units (n * 5 ^ 1074) (Zneg 1074) = n.
Proof.
  intros Hg. unfold dec_to_units, Binary64.round_q.
  rewrite U_eq, <- N.mul_assoc, <- pow10_split.
  rewrite round_q_multiple by apply pow10_pos.
  now apply round_q_on_grid.
Qed.

Lemma exact_repr_value (f : float64) :
  parse_number_token (exact_repr (units f)) = Some (JFloat f).
Proof.
  unfold exact_repr, parse_number_token.
  rewrite split_sign_str_N_app. cbn [fst snd].
  rewrite span_app; [|apply all_digits_str_N | reflexivity].
  unfold number_value.
  rewrite int_part_ok_str_N, dec_value_str_N.
  cbn [negb].
  change (Ascii.eqb "e" ".") with false. cbv iota beta.
  change (parse_exponent "e-1074") with (Some (Zneg 1074)).
  change (dec_value_aux "" (units f * 5 ^ 1074)) with (Some (units f * 5 ^ 1074)%N).
  cbn [andb negb String.length].
  change (Zneg 1074 - Z.of_nat 0)%Z with (Zneg 1074).
  rewrite dec_to_units_exact by apply is_b64_on_grid, units_ok.
  now rewrite to_float64_units.
Qed.

Lemma exact_repr_chars n : all_chars is_number_char (exact_repr n) = true.
Proof.
  unfold exact_repr. rewrite all_chars_app.
  rewrite (all_number_chars_digits _ (all_digits_str_N _)). reflexivity.
Qed.

(** What [repr] writes for a float reads back as that float. *)
Lemma float_repr_value (f : float64) :
  parse_number_token (float_repr f) = Some (JFloat f)
  /\ all_chars is_number_char (float_repr f) = true.
Proof.
  unfold float_repr.
  destruct (N.eqb_spec (units f) 0) as [E0|N0].
  - split; [|reflexivity].
    change (parse_number_token "0.0") with (Some (JFloat f_0)).
    do 2 f_equal. apply float64_eq. now rewrite E0.
  - destruct (shortest 17 1 (units f) (decimal_exponent (units f))) as [s|] eqn:S.
    + apply shortest_reads_back in S. unfold reads_back in S.
      apply andb_prop in S. destruct S as [Hc Hp]. split; [|exact Hc].
      destruct (parse_number_token s) as [[| | |g| | |]|]; try discriminate Hp.
      do 2 f_equal. apply float64_eq. now apply N.eqb_eq.
    + split; [apply exact_repr_value | apply exact_repr_chars].
Qed.

(** *** Strings *)

Lemma parse_escape_char c X t r :
  parse_string_body X = Some (t, r) ->
  parse_string_body (escape_char c ++ X) = Some (String c t, r).
Proof.
  intros H.
  destruct c as [[] [] [] [] [] [] [] []];
    match goal with
    | |- context [escape_char ?c] =>
        let e := eval vm_compute in (escape_char c) in
        change (escape_char c) with e
    end;
    rewrite ?append_cons, ?append_nil_l; simpl; rewrite H; reflexivity.
Qed.

Lemma parse_string_escaped s rest :
  parse_string_body (escape s ++ String dquote rest) = Some (s, rest).
Proof.
  induction s as [|c s IH].
  - reflexivity.
  - cbn [escape]. rewrite append_assoc. now apply parse_escape_char.
Qed.

(** Characters outside ASCII and the printable ASCII ones other than the
    quote and the backslash are written as they are. *)
Lemma escape_char_literal c :
  (32 <= N_of_ascii c)%N -> c <> dquote -> c <> backslash ->
  escape_char c = String c EmptyString.
Proof.
  destruct c as [[] [] [] [] [] [] [] []]; intros H Hq Hb;
    try reflexivity; try (now elim Hq); try (now elim Hb);
    vm_compute in H; now elim H.
Qed.

(** *** White space *)

Lemma skip_ws_spaces k s : skip_ws (spaces k ++ s) = skip_ws s.
Proof.
  induction k as [|k IH]; [reflexivity|].
  cbn [spaces]. rewrite append_cons. exact IH.
Qed.

Lemma skip_ws_newline_indent k s : skip_ws (newline_indent k ++ s) = skip_ws s.
Proof.
  unfold newline_indent, nl. rewrite append_assoc, append_cons, append_nil_l.
  change (skip_ws (String (ascii_of_N 10) (spaces (2 * k) ++ s)))
    with (skip_ws (spaces (2 * k) ++ s)).
  apply skip_ws_spaces.
Qed.

Lemma skip_ws_cons c s : is_ws c = false -> skip_ws (String c s) = String c s.
Proof. intros H. simpl. now rewrite H. Qed.

(** *** Values *)

(** [RT n v]: with fuel [n] or more, the encoding of [v] at any nesting
    level is read back as [v], whatever follows it (anything a number scan
    stops at). *)
Definition RT (n : nat) (v : value) : Prop :=
  forall level f rest,
    (n <= f)%nat -> stops is_number_char rest = true ->
    parse_value f (encode level v ++ rest) = Some (v, rest).

(** The encoding starts with a character that is neither white space nor a
    closing bracket. *)
Definition StartsOk (v : value) : Prop :=
  forall level, exists c s,
    encode level v = String c s
    /\ is_ws c = false /\ Ascii.eqb c "]" = false /\ Ascii.eqb c "}" = false.

Lemma RT_mono n m v : (n <= m)%nat -> RT n v -> RT m v.
Proof. intros Hnm H level f rest Hf. apply H. lia. Qed.

Lemma skip_ws_starts v level rest :
  StartsOk v -> skip_ws (encode level v ++ rest) = encode level v ++ rest.
Proof.
  intros H. destruct (H level) as (c & s & E & Hw & _).
  rewrite E, append_cons. now apply skip_ws_cons.
Qed.

Lemma encode_arr_cons level v vs :
  encode level (JArr (v :: vs))
  = "[" ++ newline_indent (S level)
    ++ join ("," ++ newline_indent (S level)) (map (encode (S level)) (v :: vs))
    ++ newline_indent level ++ "]".
Proof. reflexivity. Qed.

Lemma encode_obj_cons level m ms :
  encode level (JObj (m :: ms))
  = "{" ++ newline_indent (S level)
    ++ join ("," ++ newline_indent (S level))
         (map (fun kv => encode_string (fst kv) ++ ": " ++ encode (S level) (snd kv))
              (m :: ms))
    ++ newline_indent level ++ "}".
Proof. reflexivity. Qed.

Lemma starts_str s : StartsOk (JStr s).
Proof. intros level. eexists _, _. repeat split; reflexivity. Qed.

Lemma starts_arr items : StartsOk (JArr items).
Proof.
  intros level. destruct items as [|v vs].
  - eexists _, _. repeat split; reflexivity.
  - rewrite encode_arr_cons. eexists _, _. repeat split; reflexivity.
Qed.

Lemma starts_obj members : StartsOk (JObj members).
Proof.
  intros level. destruct members as [|m ms].
  - eexists _, _. repeat split; reflexivity.
  - rewrite encode_obj_cons. eexists _, _. repeat split; reflexivity.
Qed.

Lemma number_char_brackets c :
  is_number_char c = true -> Ascii.eqb c "]" = false /\ Ascii.eqb c "}" = false.
Proof.
  destruct c as [[] [] [] [] [] [] [] []]; intros H; try discriminate H;
    split; reflexivity.
Qed.

Lemma starts_number tok v :
  parse_number_token tok = Some v -> all_chars is_number_char tok = true ->
  exists c s, tok = String c s
    /\ is_ws c = false /\ Ascii.eqb c "]" = false /\ Ascii.eqb c "}" = false.
Proof.
  intros Hp Hc. destruct tok as [|c s]; [discriminate Hp|].
  simpl in Hc. apply andb_prop in Hc. destruct Hc as [Hc _].
  exists c, s. split; [reflexivity|].
  destruct (number_char_tests c Hc) as (_ & _ & _ & _ & _ & _ & Hw).
  destruct (number_char_brackets c Hc) as [A B]. now repeat split.
Qed.

Lemma starts_int z : StartsOk (JInt z).
Proof.
  intros level. apply (starts_number _ (JInt z)).
  - apply parse_number_token_str.
  - apply number_chars_str.
Qed.

Lemma starts_float x : StartsOk (JFloat x).
Proof.
  intros level. destruct (float_repr_value x) as [Hp Hc].
  now apply (starts_number _ (JFloat x)).
Qed.

(** A number token is read as a whole. *)
Lemma parse_value_number f tok v rest :
  parse_number_token tok = Some v -> all_chars is_number_char tok = true ->
  stops is_number_char rest = true ->
  parse_value (S f) (tok ++ rest) = Some (v, rest).
Proof.
  intros Hp Hc Hr. destruct tok as [|c t]; [discriminate Hp|].
  pose proof Hc as Hc'. simpl in Hc'. apply andb_prop in Hc'. destruct Hc' as [Hc1 _].
  destruct (number_char_tests c Hc1) as (T1 & T2 & T3 & T4 & T5 & T6 & _).
  rewrite append_cons. cbn [parse_value]. rewrite T1, T2, T3, T4, T5, T6.
  rewrite <- append_cons. rewrite (span_app _ _ _ Hc Hr), Hp. reflexivity.
Qed.

Lemma rt_int z : RT 1 (JInt z).
Proof.
  intros level f rest Hf Hr. destruct f as [|f]; [lia|].
  apply parse_value_number; [apply parse_number_token_str | apply number_chars_str | exact Hr].
Qed.

Lemma rt_float x : RT 1 (JFloat x).
Proof.
  intros level f rest Hf Hr. destruct f as [|f]; [lia|].
  destruct (float_repr_value x) as [Hp Hc].
  now apply parse_value_number.
Qed.

Lemma encode_string_app s rest :
  encode_string s ++ rest = String dquote (escape s ++ String dquote rest).
Proof.
  unfold encode_string. now rewrite append_cons, append_assoc, append_cons, append_nil_l.
Qed.

Lemma rt_str s : RT 1 (JStr s).
Proof.
  intros level f rest Hf Hr. destruct f as [|f]; [lia|].
  cbn [encode]. rewrite encode_string_app. cbn [parse_value].
  change (Ascii.eqb dquote dquote) with true. cbv iota.
  now rewrite parse_string_escaped.
Qed.

Definition item_sep (level : nat) : string := "," ++ newline_indent (S level).

Lemma stops_item_sep level X : stops is_number_char (item_sep level ++ X) = true.
Proof. reflexivity. Qed.

Lemma stops_newline_indent level X : stops is_number_char (newline_indent level ++ X) = true.
Proof. reflexivity. Qed.

(** The items of an array, up to the closing bracket. *)
Lemma parse_items_list n level vs :
  vs <> [] -> Forall (RT n) vs -> Forall StartsOk vs ->
  forall f rest, (n + length vs <= f)%nat ->
    parse_items f (join (item_sep level) (map (encode (S level)) vs)
                   ++ newline_indent level ++ String "]" rest)
    = Some (vs, rest).
Proof.
  induction vs as [|v vs IH]; intros Hne Hrt Hst f rest Hf; [now elim Hne|].
  apply List.Forall_cons_iff in Hrt. destruct Hrt as [Hv Hvs].
  apply List.Forall_cons_iff in Hst. destruct Hst as [Sv Svs].
  destruct f as [|f]; [simpl in Hf; lia|].
  cbn [parse_items]. destruct vs as [|w ws].
  - cbn [map join].
    rewrite (Hv (S level) f _ ltac:(simpl in Hf; lia) (stops_newline_indent _ _)).
    rewrite skip_ws_newline_indent. reflexivity.
  - cbn [map]. rewrite join_cons2, !append_assoc.
    rewrite (Hv (S level) f _ ltac:(simpl in Hf; lia) (stops_item_sep _ _)).
    unfold item_sep at 1. rewrite append_assoc, append_cons, append_nil_l.
    rewrite skip_ws_cons by reflexivity.
    change (Ascii.eqb "," "]") with false. change (Ascii.eqb "," ",") with true.
    cbv iota. rewrite skip_ws_newline_indent.
    change (encode (S level) w :: map (encode (S level)) ws)
      with (map (encode (S level)) (w :: ws)).
    assert (Hj : exists c s, join (item_sep level) (map (encode (S level)) (w :: ws))
                             = String c s /\ is_ws c = false).
    { apply List.Forall_cons_iff in Svs. destruct Svs as [Sw _].
      destruct (Sw (S level)) as (c & s & E & Hw & _).
      cbn [map]. destruct ws as [|w' ws'].
      - cbn [map join]. now exists c, s.
      - cbn [map]. rewrite join_cons2, E, append_cons. now eexists _, _. }
    destruct Hj as (c & s & Ej & Hw).
    rewrite Ej, append_cons, skip_ws_cons, <- append_cons, <- Ej by exact Hw.
    rewrite (IH ltac:(discriminate) Hvs Svs f rest ltac:(simpl in Hf |- *; lia)).
    reflexivity.
Qed.

Lemma rt_arr n items :
  Forall (RT n) items -> Forall StartsOk items -> RT (S (n + length items)) (JArr items).
Proof.
  intros Hrt Hst level f rest Hf Hr. destruct f as [|f]; [lia|].
  destruct items as [|v vs]; [reflexivity|].
  rewrite encode_arr_cons, !append_assoc, append_cons, append_nil_l.
  cbn [parse_value].
  change (Ascii.eqb "[" dquote) with false. change (Ascii.eqb "[" "{") with false.
  change (Ascii.eqb "[" "[") with true. cbv iota.
  rewrite skip_ws_newline_indent.
  fold (item_sep level).
  assert (Sv : StartsOk v) by now apply List.Forall_cons_iff in Hst.
  destruct (Sv (S level)) as (c & s & E & Hw & Hb & _).
  assert (Ej : exists s', join (item_sep level) (map (encode (S level)) (v :: vs))
                          = String c s').
  { cbn [map]. destruct vs as [|w ws].
    - cbn [map join]. now exists s.
    - cbn [map]. rewrite join_cons2, E, append_cons. now eexists. }
  destruct Ej as (s' & Ej).
  rewrite Ej, append_cons, skip_ws_cons by exact Hw. rewrite Hb.
  rewrite <- append_cons, <- Ej.
  change ("]" ++ rest) with (String "]" rest).
  rewrite (parse_items_list n level (v :: vs) ltac:(discriminate) Hrt Hst f rest
             ltac:(simpl in Hf |- *; lia)).
  reflexivity.
Qed.

Definition encode_member (level : nat) (kv : string * value) : string :=
  encode_string (fst kv) ++ ": " ++ encode (S level) (snd kv).

(** The members of an object, up to the closing brace. *)
Lemma parse_members_list n level ms :
  ms <> [] -> Forall (fun kv => RT n (snd kv)) ms -> Forall (fun kv => StartsOk (snd kv)) ms ->
  forall f rest, (n + length ms <= f)%nat ->
    parse_members f (join (item_sep level) (map (encode_member level) ms)
                     ++ newline_indent level ++ String "}" rest)
    = Some (ms, rest).
Proof.
  induction ms as [|[k v] ms IH]; intros Hne Hrt Hst f rest Hf; [now elim Hne|].
  apply List.Forall_cons_iff in Hrt. destruct Hrt as [Hv Hvs].
  apply List.Forall_cons_iff in Hst. destruct Hst as [Sv Svs].
  cbn [snd] in Hv, Sv.
  destruct f as [|f]; [simpl in Hf; lia|].
  assert (Hkey : forall X,
    parse_members (S f) (encode_member level (k, v) ++ X)
    = match parse_value f (encode (S level) v ++ X) with
      | None => None
      | Some (v', r2) =>
          match skip_ws r2 with
          | EmptyString => None
          | String c2 r3 =>
              if Ascii.eqb c2 "}" then Some ([(k, v')], r3)
              else if Ascii.eqb c2 "," then
                match parse_members f (skip_ws r3) with
                | Some (ms', r4) => Some ((k, v') :: ms', r4)
                | None => None
                end
              else None
          end
      end).
  { intros X. unfold encode_member. cbn [fst snd].
    rewrite append_assoc, encode_string_app. cbn [parse_members].
    change (Ascii.eqb dquote dquote) with true. cbv iota.
    rewrite parse_string_escaped.
    rewrite append_assoc, !append_cons, append_nil_l.
    rewrite skip_ws_cons by reflexivity.
    change (Ascii.eqb ":" ":") with true. cbv iota.
    change (skip_ws (String " " (encode (S level) v ++ X)))
      with (skip_ws (encode (S level) v ++ X)).
    now rewrite skip_ws_starts. }
  destruct ms as [|m' ms'].
  - cbn [map join]. rewrite Hkey.
    rewrite (Hv (S level) f _ ltac:(simpl in Hf; lia) (stops_newline_indent _ _)).
    rewrite skip_ws_newline_indent. reflexivity.
  - cbn [map]. rewrite join_cons2, !append_assoc, Hkey.
    rewrite (Hv (S level) f _ ltac:(simpl in Hf; lia) (stops_item_sep _ _)).
    unfold item_sep at 1. rewrite append_assoc, append_cons, append_nil_l.
    rewrite skip_ws_cons by reflexivity.
    change (Ascii.eqb "," "}") with false. change (Ascii.eqb "," ",") with true.
    cbv iota. rewrite skip_ws_newline_indent.
    change (encode_member level m' :: map (encode_member level) ms')
      with (map (encode_member level) (m' :: ms')).
    assert (Hj : exists s, join (item_sep level) (map (encode_member level) (m' :: ms'))
                           = String dquote s).
    { cbn [map]. destruct ms' as [|m'' ms''].
      - cbn [map join]. unfold encode_member. rewrite encode_string_app. now eexists.
      - cbn [map]. rewrite join_cons2. unfold encode_member at 1.
        rewrite append_assoc, encode_string_app. now eexists. }
    destruct Hj as (s & Ej).
    rewrite Ej, append_cons, skip_ws_cons, <- append_cons, <- Ej by reflexivity.
    rewrite (IH ltac:(discriminate) Hvs Svs f rest ltac:(simpl in Hf |- *; lia)).
    reflexivity.
Qed.

Lemma rt_obj n members :
  Forall (fun kv => RT n (snd kv)) members ->
  Forall (fun kv => StartsOk (snd kv)) members ->
  RT (S (n + length members)) (JObj members).
Proof.
  intros Hrt Hst level f rest Hf Hr. destruct f as [|f]; [lia|].
  destruct members as [|m ms]; [reflexivity|].
  rewrite encode_obj_cons, !append_assoc, append_cons, append_nil_l.
  cbn [parse_value].
  change (Ascii.eqb "{" dquote) with false. change (Ascii.eqb "{" "{") with true.
  cbv iota. rewrite skip_ws_newline_indent.
  fold (item_sep level).
  change (fun kv : string * value =>
            encode_string (fst kv) ++ ": " ++ encode (S level) (snd kv))
    with (encode_member level).
  assert (Ej : exists s', join (item_sep level) (map (encode_member level) (m :: ms))
                          = String dquote s').
  { cbn [map]. destruct ms as [|m' ms'].
    - cbn [map join]. unfold encode_member. rewrite encode_string_app. now eexists.
    - cbn [map]. rewrite join_cons2. unfold encode_member at 1.
      rewrite append_assoc, encode_string_app. now eexists. }
  destruct Ej as (s' & Ej).
  rewrite Ej, append_cons, skip_ws_cons by reflexivity.
  change (Ascii.eqb dquote "}") with false. cbv iota.
  rewrite <- append_cons, <- Ej.
  change ("}" ++ rest) with (String "}" rest).
  rewrite (parse_members_list n level (m :: ms) ltac:(discriminate) Hrt Hst f rest
             ltac:(simpl in Hf |- *; lia)).
  reflexivity.
Qed.

End JsonFacts.

(** * The JSON document of a transcription *)

Module JsonDocFacts.

Import StrFacts Json JsonFacts.

Local Open Scope string_scope.

Lemma rt_segment_dict seg : RT 6 (segment_dict seg).
Proof.
  unfold segment_dict. match goal with |- RT _ (JObj ?m) => refine (rt_obj 1 m _ _) end.
  - repeat constructor; cbn [snd];
      [apply rt_int | apply rt_float | apply rt_float | apply rt_str].
  - repeat constructor; cbn [snd];
      [apply starts_int | apply starts_float | apply starts_float | apply starts_str].
Qed.

Lemma rt_json_dict result :
  RT (11 + length (res_segments result)) (json_dict result).
Proof.
  set (L := length (res_segments result)).
  assert (Harr : RT (7 + L) (JArr (map segment_dict (res_segments result)))).
  { apply (RT_mono (S (6 + length (map segment_dict (res_segments result))))).
    - rewrite length_map. fold L. lia.
    - match goal with |- RT _ (JArr ?m) => refine (rt_arr 6 m _ _) end.
      + apply List.Forall_map, List.Forall_forall. intros seg _. apply rt_segment_dict.
      + apply List.Forall_map, List.Forall_forall. intros seg _. apply starts_obj. }
  apply (RT_mono (S (7 + L + 3))); [lia|].
  unfold json_dict. match goal with |- RT _ (JObj ?m) => refine (rt_obj (7 + L) m _ _) end.
  - repeat constructor; cbn [snd];
      [ apply (RT_mono 1); [lia | apply rt_str]
      | apply (RT_mono 1); [lia | apply rt_str]
      | exact Harr ].
  - repeat constructor; cbn [snd];
      [apply starts_str | apply starts_str | apply starts_arr].
Qed.

Lemma length_join_ge sep (l : list string) :
  Forall (fun x => (1 <= String.length x)%nat) l ->
  (length l <= String.length (join sep l))%nat.
Proof.
  induction l as [|x l IH]; intros H; [simpl; lia|].
  apply List.Forall_cons_iff in H. destruct H as [Hx Hl].
  destruct l as [|y l'].
  - cbn [join length]. lia.
  - rewrite join_cons2, !length_append. specialize (IH Hl).
    cbn [length] in IH |- *. lia.
Qed.

Lemma length_encode_segments level segments :
  (length segments
   <= String.length (encode level (JArr (map segment_dict segments))))%nat.
Proof.
  destruct segments as [|seg segs]; [simpl; lia|].
  cbn [map]. rewrite encode_arr_cons, !length_append.
  pose proof (length_join_ge ("," ++ newline_indent (S level))
                (map (encode (S level)) (segment_dict seg :: map segment_dict segs))) as H.
  rewrite !length_map in H. cbn [length] in H |- *. rewrite length_map in H.
  assert (H1 : Forall (fun x => (1 <= String.length x)%nat)
                 (map (encode (S level)) (segment_dict seg :: map segment_dict segs))).
  { change (segment_dict seg :: map segment_dict segs)
      with (map segment_dict (seg :: segs)).
    apply List.Forall_map, List.Forall_map, List.Forall_forall. intros s _.
    unfold segment_dict. rewrite encode_obj_cons, length_append.
    change (String.length "{") with 1%nat. lia. }
  specialize (H H1). lia.
Qed.

Lemma length_dumps_json_dict result :
  (11 + length (res_segments result)
   <= String.length (dumps (json_dict result)))%nat.
Proof.
  unfold dumps, json_dict. rewrite encode_obj_cons.
  cbn [map fst snd]. rewrite !join_cons2. cbn [join]. rewrite !length_append.
  pose proof (length_encode_segments 1 (res_segments result)) as H.
  change (String.length "{") with 1%nat.
  change (String.length (newline_indent 1)) with 3%nat.
  change (String.length ",") with 1%nat.
  change (String.length ": ") with 2%nat.
  lia.
Qed.

(** Reading back what [json.dumps] wrote gives the dict that was written. *)
Lemma loads_dumps_json_dict result :
  loads (dumps (json_dict result)) = Some (json_dict result).
Proof.
  unfold loads.
  assert (E : skip_ws (dumps (json_dict result)) = dumps (json_dict result) ++ "").
  { unfold dumps. rewrite append_nil_r.
    pose proof (skip_ws_starts (json_dict result) 0 "" (starts_obj _)) as H.
    now rewrite append_nil_r in H. }
  rewrite E. unfold dumps at 2.
  rewrite (rt_json_dict result 0%nat _ "" (length_dumps_json_dict result) eq_refl).
  reflexivity.
Qed.

Lemma escape_app a b : escape (a ++ b) = escape a ++ escape b.
Proof.
  induction a as [|c a IH]; [now rewrite !append_nil_l|].
  rewrite append_cons. cbn [escape]. now rewrite IH, append_assoc.
Qed.

Lemma escape_non_ascii u : all_chars non_ascii u = true -> escape u = u.
Proof.
  induction u as [|c u IH]; intros H; [reflexivity|].
  simpl in H. apply andb_prop in H. destruct H as [Hc Hu].
  cbn [escape]. rewrite (IH Hu), escape_char_literal.
  - now rewrite append_cons, append_nil_l.
  - unfold non_ascii in Hc. apply N.leb_le in Hc. lia.
  - intros ->. discriminate Hc.
  - intros ->. discriminate Hc.
Qed.

Lemma occurs_refl x : occurs_in x x.
Proof. exists "", "". now rewrite append_nil_l, append_nil_r. Qed.

Lemma occurs_app_l x a b : occurs_in x a -> occurs_in x (a ++ b).
Proof.
  intros (pre & post & ->). exists pre, (post ++ b). now rewrite !append_assoc.
Qed.

Lemma occurs_app_r x a b : occurs_in x b -> occurs_in x (a ++ b).
Proof.
  intros (pre & post & ->). exists (a ++ pre), post. now rewrite !append_assoc.
Qed.

Lemma occurs_trans x y z : occurs_in x y -> occurs_in y z -> occurs_in x z.
Proof.
  intros Hxy (pre & post & ->). now apply occurs_app_r, occurs_app_l.
Qed.

Ltac find_occurrence close :=
  first [ close
        | apply occurs_app_l; find_occurrence close
        | apply occurs_app_r; find_occurrence close ].

Lemma join_contains sep (x : string) l : In x l -> occurs_in x (join sep l).
Proof.
  induction l as [|y l IH]; intros H; [destruct H|].
  destruct l as [|z l'].
  - destruct H as [->|[]]. apply occurs_refl.
  - rewrite join_cons2. destruct H as [->|H].
    + apply occurs_app_l, occurs_refl.
    + now apply occurs_app_r, occurs_app_r, IH.
Qed.

Lemma segment_text_occurs level seg :
  occurs_in (encode_string (seg_text seg)) (encode level (segment_dict seg)).
Proof.
  unfold segment_dict. rewrite encode_obj_cons. cbn [map fst snd].
  rewrite !join_cons2. cbn [join encode].
  find_occurrence ltac:(apply occurs_refl).
Qed.

Lemma segments_text_occurs level seg segments :
  In seg segments ->
  occurs_in (encode_string (seg_text seg))
            (encode level (JArr (map segment_dict segments))).
Proof.
  intros H. destruct segments as [|s0 segs]; [destruct H|].
  apply (occurs_trans _ _ _ (segment_text_occurs (S level) seg)).
  cbn [map]. rewrite encode_arr_cons.
  do 2 apply occurs_app_r. apply occurs_app_l, join_contains.
  change (segment_dict s0 :: map segment_dict segs) with (map segment_dict (s0 :: segs)).
  now apply in_map, in_map.
Qed.

Lemma json_strings_occur result t :
  t = res_text result \/ t = res_language result
  \/ In t (map seg_text (res_segments result)) ->
  occurs_in (encode_string t) (dumps (json_dict result)).
Proof.
  intros H. unfold dumps, json_dict. rewrite encode_obj_cons. cbn [map fst snd].
  rewrite !join_cons2. cbn [join encode].
  destruct H as [->|[->|H]].
  - find_occurrence ltac:(apply occurs_refl).
  - find_occurrence ltac:(apply occurs_refl).
  - apply in_map_iff in H. destruct H as (seg & <- & H).
    find_occurrence ltac:(now apply segments_text_occurs).
Qed.

Lemma encode_string_non_ascii a u b :
  all_chars non_ascii u = true ->
  encode_string (a ++ u ++ b)
  = String dquote (escape a ++ u ++ escape b ++ String dquote "").
Proof.
  intros H. unfold encode_string.
  now rewrite !escape_app, (escape_non_ascii u H), !append_assoc.
Qed.

End JsonDocFacts.

(** * Saving the output files *)

Module SaveFacts.

Import StrFacts SubtitleFacts.

Local Open Scope string_scope.

Lemma generators_supported name :
  supported name = true ->
  exists generate,
    format_generators !! name = Some generate
    /\ forall result, generate result = Ok (rendering name result).
Proof.
  unfold supported, format_generators. cbn [existsb].
  rewrite !list_to_map_cons, list_to_map_nil.
  destruct (String.eqb_spec name "txt") as [->|Ntxt].
  { intros _. exists generate_plain_text. split; [now rewrite lookup_insert_eq|].
    reflexivity. }
  rewrite lookup_insert_ne by congruence.
  destruct (String.eqb_spec name "srt") as [->|Nsrt].
  { intros _. exists generate_srt. split; [now rewrite lookup_insert_eq|].
    intros result. now rewrite generate_srt_eq. }
  rewrite lookup_insert_ne by congruence.
  destruct (String.eqb_spec name "vtt") as [->|Nvtt].
  { intros _. exists generate_vtt. split; [now rewrite lookup_insert_eq|].
    intros result. now rewrite generate_vtt_eq. }
  rewrite lookup_insert_ne by congruence.
  destruct (String.eqb_spec name "json") as [->|Njson].
  { intros _. exists generate_json. split; [now rewrite lookup_insert_eq|].
    reflexivity. }
  discriminate.
Qed.

Lemma generators_unsupported name :
  supported name = false -> format_generators !! name = None.
Proof.
  unfold supported, format_generators. cbn [existsb].
  rewrite !list_to_map_cons, list_to_map_nil.
  destruct (String.eqb_spec name "txt") as [->|Ntxt]; [discriminate|].
  destruct (String.eqb_spec name "srt") as [->|Nsrt]; [discriminate|].
  destruct (String.eqb_spec name "vtt") as [->|Nvtt]; [discriminate|].
  destruct (String.eqb_spec name "json") as [->|Njson]; [discriminate|].
  intros _. rewrite !lookup_insert_ne by congruence. apply lookup_empty.
Qed.

Section Loop.

Context {World : Type}.
Variable write_file : World -> string -> string -> World * option string.
Variable result : TranscriptionResult.
Variable output_path : string.

(** Every path in the dict is the one of its format. *)
Definition consistent (m : gmap string string) : Prop :=
  forall name path, m !! name = Some path -> path = output_path ++ "." ++ name.

Lemma attempts_cons_supported fmt rest w :
  supported (lower fmt) = true ->
  attempts write_file result output_path (fmt :: rest) w
  = let path := output_path ++ "." ++ lower fmt in
    let r := write_file w path (rendering (lower fmt) result) in
    let more := attempts write_file result output_path rest (fst r) in
    ((lower fmt, path, match snd r with None => true | Some _ => false end) :: fst more,
     snd more).
Proof.
  intros Hs. cbn [attempts]. rewrite Hs. cbv zeta.
  destruct (write_file w _ _) as [w' failure]. cbn [fst snd].
  now destruct (attempts write_file result output_path rest w').
Qed.

Lemma attempts_cons_unsupported fmt rest w :
  supported (lower fmt) = false ->
  attempts write_file result output_path (fmt :: rest) w
  = attempts write_file result output_path rest w.
Proof. intros Hs. cbn [attempts]. now rewrite Hs. Qed.

Lemma attempts_names formats w :
  map attempt_name (fst (attempts write_file result output_path formats w))
  = List.filter supported (map lower formats).
Proof.
  revert w. induction formats as [|fmt rest IH]; intros w; [reflexivity|].
  cbn [map List.filter]. destruct (supported (lower fmt)) eqn:Hs.
  - rewrite attempts_cons_supported by exact Hs. cbn [fst map attempt_name].
    now rewrite IH.
  - rewrite attempts_cons_unsupported by exact Hs. apply IH.
Qed.

Lemma attempts_paths formats w :
  Forall (fun a => attempt_path a = output_path ++ "." ++ attempt_name a)
         (fst (attempts write_file result output_path formats w)).
Proof.
  revert w. induction formats as [|fmt rest IH]; intros w; [constructor|].
  destruct (supported (lower fmt)) eqn:Hs.
  - rewrite attempts_cons_supported by exact Hs. cbn [fst]. constructor; [reflexivity|].
    apply IH.
  - rewrite attempts_cons_unsupported by exact Hs. apply IH.
Qed.

Lemma save_loop formats :
  forall st0, consistent (saved_files World st0) ->
  exists st,
    for_each (save_format World write_file result output_path) formats st0 = Ok st
    /\ world World st
       = snd (attempts write_file result output_path formats (world World st0))
    /\ (forall name path,
          saved_files World st !! name = Some path
          <-> In (name, path, true)
                 (fst (attempts write_file result output_path formats (world World st0)))
              \/ saved_files World st0 !! name = Some path)
    /\ List.filter is_warning (logged World st)
       = (List.filter is_warning (logged World st0)
          ++ map unsupported_warning
               (List.filter (fun fmt => negb (supported (lower fmt))) formats))%list.
Proof.
  induction formats as [|fmt rest IH]; intros st0 Hc.
  - exists st0. cbn [for_each attempts fst snd map List.filter].
    rewrite app_nil_r. repeat split; try tauto. now intros [[]|].
  - cbn [for_each]. unfold save_format at 1.
    destruct (supported (lower fmt)) eqn:Hs.
    + destruct (generators_supported _ Hs) as (generate & Eg & Hg).
      rewrite Eg, Hg. cbn [bind].
      rewrite attempts_cons_supported by exact Hs. cbv zeta.
      cbn [List.filter]. rewrite Hs. cbn [negb].
      destruct (write_file (world World st0) (output_path ++ "." ++ lower fmt)
                  (rendering (lower fmt) result)) as [w' [e|]] eqn:Ew; cbn [bind fst snd].
      * match goal with |- context [for_each _ rest ?s] => set (st1 := s) end.
        destruct (IH st1 Hc) as (st & E & Hw & Hm & Hl).
        exists st. split; [exact E|]. split; [exact Hw|]. split.
        -- intros name path. rewrite Hm. cbn [In]. split.
           ++ intros [H|H]; [left; now right | now right].
           ++ intros [[H|H]|H]; [discriminate H | now left | now right].
        -- rewrite Hl. subst st1. cbn [logged]. rewrite List.filter_app.
           cbn [List.filter is_warning fst]. now rewrite app_nil_r.
      * match goal with |- context [for_each _ rest ?s] => set (st1 := s) end.
        assert (Hc1 : consistent (saved_files World st1)).
        { subst st1. cbn [saved_files]. intros name path H.
          apply lookup_insert_Some in H. destruct H as [[<- <-]|[_ H]]; [reflexivity|].
          now apply Hc. }
        destruct (IH st1 Hc1) as (st & E & Hw & Hm & Hl).
        exists st. split; [exact E|]. split; [exact Hw|]. split.
        -- intros name path. rewrite Hm. subst st1. cbn [saved_files In].
           rewrite lookup_insert_Some. split.
           ++ intros [H|[[<- <-]|[_ H]]];
                [left; now right | left; now left | now right].
           ++ intros [[H|H]|H].
              ** injection H as <- <-. right. now left.
              ** left. exact H.
              ** destruct (decide (lower fmt = name)) as [<-|Hn].
                 --- right. left. split; [reflexivity|]. symmetry. now apply Hc.
                 --- right. right. now split.
        -- rewrite Hl. subst st1. cbn [logged]. rewrite List.filter_app.
           cbn [List.filter is_warning fst]. now rewrite app_nil_r.
    + pose proof (generators_unsupported _ Hs) as Eg.
      unfold generator in Eg |- *. rewrite Eg.
      rewrite attempts_cons_unsupported by exact Hs.
      cbn [List.filter]. rewrite Hs. cbn [negb map bind].
      match goal with |- context [for_each _ rest ?s] => set (st1 := s) end.
      destruct (IH st1 Hc) as (st & E & Hw & Hm & Hl).
      exists st. split; [exact E|]. split; [exact Hw|]. split; [exact Hm|].
      rewrite Hl. subst st1. cbn [logged]. rewrite List.filter_app.
      cbn [List.filter is_warning fst unsupported_warning].
      now rewrite <- app_assoc.
Qed.

End Loop.

Lemma supported_lower name : supported name = true -> supported (lower name) = true.
Proof.
  unfold supported at 1. cbn [existsb].
  destruct (String.eqb_spec name "txt") as [->|_]; [reflexivity|].
  destruct (String.eqb_spec name "srt") as [->|_]; [reflexivity|].
  destruct (String.eqb_spec name "vtt") as [->|_]; [reflexivity|].
  destruct (String.eqb_spec name "json") as [->|_]; [reflexivity|].
  discriminate.
Qed.

End SaveFacts.

(** * The functions at work *)

Module Examples.

Local Open Scope string_scope.

(** The document of the result that the tests use, as Python prints it. *)
Example generate_json_sample :
  generate_json sample_result
  = Ok (join nl
          [ "{";
            "  " ++ quoted "text" ++ ": "
                 ++ quoted "This is a test transcription with multiple segments." ++ ",";
            "  " ++ quoted "language" ++ ": " ++ quoted "en" ++ ",";
            "  " ++ quoted "segments" ++ ": [";
            "    {";
            "      " ++ quoted "id" ++ ": 0,";
            "      " ++ quoted "start" ++ ": 0.0,";
            "      " ++ quoted "end" ++ ": 2.5,";
            "      " ++ quoted "text" ++ ": " ++ quoted "This is a test";
            "    },";
            "    {";
            "      " ++ quoted "id" ++ ": 1,";
            "      " ++ quoted "start" ++ ": 2.5,";
            "      " ++ quoted "end" ++ ": 5.0,";
            "      " ++ quoted "text" ++ ": " ++ quoted "transcription with";
            "    },";
            "    {";
            "      " ++ quoted "id" ++ ": 2,";
            "      " ++ quoted "start" ++ ": 5.0,";
            "      " ++ quoted "end" ++ ": 7.5,";
            "      " ++ quoted "text" ++ ": " ++ quoted "multiple segments.";
            "    }";
            "  ]";
            "}" ]).
Proof. vm_compute. reflexivity. Qed.

Example loads_sample :
  Json.loads (Json.dumps (json_dict sample_result)) = Some (json_dict sample_result).
Proof. vm_compute. reflexivity. Qed.

(** Characters outside ASCII are written as they are; a quote, a backslash
    and a newline are escaped. *)
Example encode_string_gruesse : Json.encode_string gruesse = quoted gruesse.
Proof. vm_compute. reflexivity. Qed.

Example encode_string_escapes :
  Json.encode_string ("a" ++ String Json.dquote "b" ++ nl ++ String Json.backslash "c")
  = quoted ("a" ++ String Json.backslash (String Json.dquote "b")
            ++ String Json.backslash "n"
            ++ String Json.backslash (String Json.backslash "c")).
Proof. vm_compute. reflexivity. Qed.

(** Saving as SRT, XML, JSON and text where [out.srt] cannot be written: the
    SRT write fails, XML is not a format, and the two others are written. *)
Example save_transcription_sample :
  exists st,
    save_transcription mem_fs mem_write sample_result "out"
      ["srt"; "XML"; "JSON"; "txt"] (mkFS ∅ ["out.srt"]) = Ok st
    /\ saved_files mem_fs st !! "json" = Some "out.json"
    /\ saved_files mem_fs st !! "txt" = Some "out.txt"
    /\ saved_files mem_fs st !! "srt" = None
    /\ saved_files mem_fs st !! "XML" = None
    /\ saved_files mem_fs st !! "xml" = None
    /\ logged mem_fs st
       = [ (ERROR, "Failed to save SRT output: [Errno 13] Permission denied");
           (WARNING, "Unsupported output format: XML");
           (INFO, "Saved JSON output to: out.json");
           (INFO, "Saved TXT output to: out.txt") ]
    /\ files (world mem_fs st) !! "out.txt" = Some (res_text sample_result)
    /\ files (world mem_fs st) !! "out.json" = Some (Json.dumps (json_dict sample_result))
    /\ files (world mem_fs st) !! "out.srt" = None.
Proof.
  eexists. split; [vm_compute; reflexivity|].
  split; [vm_compute; reflexivity|]. split; [vm_compute; reflexivity|].
  split; [vm_compute; reflexivity|]. split; [vm_compute; reflexivity|].
  split; [vm_compute; reflexivity|]. split; [vm_compute; reflexivity|].
  split; [vm_compute; reflexivity|]. split; [vm_compute; reflexivity|].
  vm_compute; reflexivity.
Qed.

End Examples.

(** * The claims *)

Import RoundFacts B64Facts DecFacts StrFacts TimestampFacts OrderFacts SubtitleFacts.

(** ** Timestamps *)






(** ** SRT and WebVTT *)

Import CharFacts.

(** C1. For every result, [generate_srt] returns the newline-joined lines of
    its segments in order, four per segment: the number [id + 1], the line
    [HH:MM:SS,mmm --> HH:MM:SS,mmm] of start and end, the text, and an empty
    line.  As text: the blocks of number line, time line and text line, one
    empty line between two blocks.  For the spec's example result the output
    starts with the first block as the spec writes it. *)
Theorem generate_srt_entries (result : TranscriptionResult) :
  generate_srt result = Ok (join nl (flat_map srt_entry (res_segments result)))
  /\ join nl (flat_map srt_entry (res_segments result))
     = join nl (map srt_block (res_segments result))
  /\ starts_with (generate_srt sample_result)
       ("1" ++ nl ++ "00:00:00,000 --> 00:00:02,500" ++ nl ++ "This is a test" ++ nl)
     = true.
Proof.
  split; [apply generate_srt_eq|].
  split; [apply join_srt_blocks|].
  vm_compute. reflexivity.
Qed.

(** C2. For every result, [generate_vtt] returns the newline-joined lines
    [WEBVTT], an empty line, and then three lines per segment in order: the
    line [HH:MM:SS.mmm --> HH:MM:SS.mmm], the text, and an empty line; no line
    holds a sequence number.  As text: [WEBVTT] and a newline, then for each
    segment an empty line and its two lines.  A VTT timestamp consists of
    digits, colons and the period before the milliseconds: it has no comma.
    For the spec's example result the output starts with the header, the
    empty line and the first cue as the spec writes them. *)
Theorem generate_vtt_entries (result : TranscriptionResult) :
  generate_vtt result
  = Ok (join nl ("WEBVTT" :: "" :: flat_map vtt_entry (res_segments result))%string)
  /\ join nl ("WEBVTT" :: "" :: flat_map vtt_entry (res_segments result))%string
     = ("WEBVTT" ++ nl
        ++ concat_strings (map (fun s => nl ++ vtt_block s) (res_segments result)))%string
  /\ (forall s : float64,
        _format_timestamp s "vtt" = Ok (timestamp "." s)
        /\ all_chars (ts_char ".") (timestamp "." s) = true)
  /\ starts_with (generate_vtt sample_result)
       ("WEBVTT" ++ nl ++ nl ++ "00:00:00.000 --> 00:00:02.500" ++ nl
        ++ "This is a test" ++ nl)
     = true.
Proof.
  split; [apply generate_vtt_eq|].
  split; [apply join_vtt_blocks|].
  split.
  { intros s. split; [apply format_timestamp_vtt | apply timestamp_chars]. }
  vm_compute. reflexivity.
Qed.

(** ** Audio *)

Import AudioFacts.

(** C7. Whatever the sample conversions of pydub do, the segment
    [preprocess_audio] returns has one channel and a frame rate of 16000 Hz,
    and preprocessing it again returns that very segment without taking a
    branch (no debug line is logged): channel count and frame rate of
    [preprocess_audio (preprocess_audio x)] are those of
    [preprocess_audio x]. *)
Theorem preprocess_audio_idempotent
    (downmix : Audio.AudioSegment -> positive -> list Z)
    (resample : Audio.AudioSegment -> N -> list Z)
    (x : Audio.AudioSegment) :
  let p := fst (Audio.preprocess_audio downmix resample x) in
  Audio.channels p = 1%positive
  /\ Audio.frame_rate p = Audio.SAMPLE_RATE
  /\ Audio.preprocess_audio downmix resample p = (p, [])
  /\ Audio.channels (fst (Audio.preprocess_audio downmix resample p)) = Audio.channels p
  /\ Audio.frame_rate (fst (Audio.preprocess_audio downmix resample p))
     = Audio.frame_rate p.
Proof.
  intros p.
  assert (Hc : Audio.channels p = 1%positive /\ Audio.frame_rate p = Audio.SAMPLE_RATE).
  { unfold p, Audio.preprocess_audio.
    destruct (Pos.ltb_spec 1 (Audio.channels x)) as [L|G].
    - destruct (N.eqb_spec (Audio.frame_rate (Audio.set_channels downmix x 1))
                  Audio.SAMPLE_RATE) as [E|NE]; cbn [negb fst].
      + split; [apply set_channels_channels | exact E].
      + split; [|apply set_frame_rate_rate].
        rewrite set_frame_rate_channels. apply set_channels_channels.
    - assert (E1 : Audio.channels x = 1%positive) by lia.
      destruct (N.eqb_spec (Audio.frame_rate x) Audio.SAMPLE_RATE) as [E|NE];
        cbn [negb fst].
      + split; assumption.
      + split; [|apply set_frame_rate_rate].
        now rewrite set_frame_rate_channels. }
  destruct Hc as [Hc Hr].
  assert (Hn : Audio.preprocess_audio downmix resample p = (p, [])).
  { unfold Audio.preprocess_audio. rewrite Hc.
    change (1 <? 1)%positive with false. cbv iota beta. rewrite Hr. reflexivity. }
  rewrite Hn. repeat split; assumption.
Qed.

(** C8. For a segment of 8, 16 or 32 bits per sample whose samples lie in
    [[-2^(b-1), 2^(b-1) - 1]], [get_audio_array] returns, for each sample
    [x], the float32 nearest to [x / 2^(b-1)]: the cast and the division
    together round once.  Every value lies in [[-1.0, 1.0]], the sample
    [-2^(b-1)] gives exactly [-1.0], and a sample below [2^24] in magnitude
    (every 8 and 16 bit sample) gives the exact quotient. *)
Theorem get_audio_array_normalized (audio : Audio.AudioSegment) :
  let c := (8 * Audio.sample_width audio - 1)%N in
  (Audio.sample_width audio = 1 \/ Audio.sample_width audio = 2
   \/ Audio.sample_width audio = 4)%N ->
  Forall (fun x => - 2 ^ Z.of_N c <= x <= 2 ^ Z.of_N c - 1)%Z (Audio.pcm audio) ->
  exists buffer : list Z,
    Audio.get_audio_array audio = Ok buffer
    /\ buffer = map (fun x => Binary32.round_z (x * Binary32.U32) (2 ^ Z.of_N c))%Z
                    (Audio.pcm audio)
    /\ Forall (fun v => - Binary32.U32 <= v <= Binary32.U32)%Z buffer
    /\ Binary32.round_z (- 2 ^ Z.of_N c * Binary32.U32) (2 ^ Z.of_N c)
       = (- Binary32.U32)%Z
    /\ Forall (fun x => Z.abs x < 2 ^ 24 ->
                 Binary32.round_z (x * Binary32.U32) (2 ^ Z.of_N c) * 2 ^ Z.of_N c
                 = x * Binary32.U32)%Z (Audio.pcm audio).
Proof.
  intros c Hw Hr.
  assert (Hc : (c <= 149)%N) by (unfold c; lia).
  assert (Hshift : Z.shiftl 1 (8 * Z.of_N (Audio.sample_width audio) - 1) = (2 ^ Z.of_N c)%Z).
  { unfold c. destruct Hw as [-> | [-> | ->]]; reflexivity. }
  assert (Hraw : Audio.get_array_of_samples audio = Ok (Audio.pcm audio)).
  { unfold Audio.get_array_of_samples. destruct Hw as [-> | [-> | ->]]; reflexivity. }
  eexists. split.
  { unfold Audio.get_audio_array. rewrite Hraw. simpl bind. rewrite Hshift.
    rewrite map_map. reflexivity. }
  assert (E : map (fun x => Binary32.f32_div (Binary32.f32_of_int x)
                              (Binary32.f32_of_int (2 ^ Z.of_N c)))%Z (Audio.pcm audio)
              = map (fun x => Binary32.round_z (x * Binary32.U32) (2 ^ Z.of_N c))%Z
                    (Audio.pcm audio)).
  { apply map_ext. intros x. now apply cast_div. }
  split; [exact E|]. rewrite E.
  split.
  { apply List.Forall_map. eapply List.Forall_impl; [|exact Hr].
    intros x Hx. cbv beta in Hx |- *. apply quotient_bounded; [exact Hc | lia]. }
  split; [now apply quotient_lowest|].
  apply List.Forall_forall. intros x _ Hx. now apply quotient_exact.
Qed.

(** C8, used once: sixteen-bit samples -32768, 0 and 32767. *)
Lemma get_audio_array_normalized_witness :
  exists buffer : list Z,
    Audio.get_audio_array extremes_16 = Ok buffer
    /\ buffer = map (fun x => Binary32.round_z (x * Binary32.U32) (2 ^ 15))%Z
                    [-32768; 0; 32767]%Z
    /\ Forall (fun v => - Binary32.U32 <= v <= Binary32.U32)%Z buffer
    /\ Binary32.round_z (- 2 ^ 15 * Binary32.U32) (2 ^ 15) = (- Binary32.U32)%Z
    /\ Forall (fun x => Z.abs x < 2 ^ 24 ->
                 Binary32.round_z (x * Binary32.U32) (2 ^ 15) * 2 ^ 15
                 = x * Binary32.U32)%Z [-32768; 0; 32767]%Z.
Proof.
  apply (get_audio_array_normalized extremes_16).
  - right. left. reflexivity.
  - repeat constructor; simpl; lia.
Defined.

(** ** Task validation *)

Lemma wrapped_is_not_invalid (what task : string) :
  @Raise TranscriptionResult (ValueError ("Transcription failed: " ++ what)%string)
  <> Raise (ValueError (Transcriber.invalid_task_message task)).
Proof. intros H. vm_compute in H. discriminate H. Qed.

(** C9. Whatever the engine does, [transcribe] raises the [ValueError] of
    the task check (the code's invalid-argument error, with the message
    [Invalid task: ...]) exactly when the task is neither ["transcribe"] nor
    ["translate"]; and then nothing was loaded: the instance is as before and
    no call was made to the engine. *)
Theorem transcribe_invalid_task_iff
    (Model AudioInput : Type)
    (whisper_load_model : string -> option string -> Model + string)
    (model_transcribe :
       Model -> AudioInput -> option string -> string -> Transcriber.WhisperOutput + string)
    (self : Transcriber.WhisperTranscriber Model)
    (audio : AudioInput) (language : option string) (task : string) :
  let out := Transcriber.transcribe Model AudioInput whisper_load_model model_transcribe
               self audio language task in
  (fst (fst out) = Raise (ValueError (Transcriber.invalid_task_message task))
   <-> (task <> "transcribe" /\ task <> "translate")%string)
  /\ ((task <> "transcribe" /\ task <> "translate")%string ->
      snd (fst out) = self /\ snd out = []).
Proof.
  intros out. unfold out, Transcriber.transcribe. simpl existsb.
  destruct (String.eqb_spec task "transcribe") as [E1|N1];
    [|destruct (String.eqb_spec task "translate") as [E2|N2]]; simpl negb; cbv iota.
  - (* task = "transcribe" *)
    split; [split|]; [|intros [H _]; contradiction | intros [H _]; contradiction].
    intros H. exfalso. revert H. unfold Transcriber.load_model.
    destruct (Transcriber.model Model self) as [m|] eqn:Em; simpl.
    + rewrite Em.
      destruct (model_transcribe m audio language task); simpl;
        [discriminate | apply wrapped_is_not_invalid].
    + destruct (whisper_load_model _ _) as [m|w]; simpl; [|discriminate].
      destruct (model_transcribe m audio language task); simpl;
        [discriminate | apply wrapped_is_not_invalid].
  - (* task = "translate" *)
    split; [split|]; [|intros [_ H]; contradiction | intros [_ H]; contradiction].
    intros H. exfalso. revert H. unfold Transcriber.load_model.
    destruct (Transcriber.model Model self) as [m|] eqn:Em; simpl.
    + rewrite Em.
      destruct (model_transcribe m audio language task); simpl;
        [discriminate | apply wrapped_is_not_invalid].
    + destruct (whisper_load_model _ _) as [m|w]; simpl; [|discriminate].
      destruct (model_transcribe m audio language task); simpl;
        [discriminate | apply wrapped_is_not_invalid].
  - (* any other task *)
    simpl. split; [split|]; intros; repeat split; assumption.
Qed.

(** ** JSON *)

(** C4. For every transcription result [generate_json] returns a text that
    [json.loads] reads back as an object with the members [text] and
    [language], equal to the text and the language of the result, and
    [segments], the list of the objects [{id, start, end, text}] of the
    segments in their order, the numbers being the very binary64 values and
    integers of the segments.  Every string of the result appears in the
    text as the string literal [encode_string], in which the bytes of
    characters outside ASCII stand for themselves, unescaped. *)
Theorem generate_json_round_trip (result : TranscriptionResult) :
  exists s,
    generate_json result = Ok s
    /\ Json.loads s
       = Some (Json.JObj
                 [ ("text", Json.JStr (res_text result));
                   ("language", Json.JStr (res_language result));
                   ("segments",
                    Json.JArr
                      (map (fun segment =>
                              Json.JObj
                                [ ("id", Json.JInt (seg_id segment));
                                  ("start", Json.JFloat (seg_start segment));
                                  ("end", Json.JFloat (seg_end segment));
                                  ("text", Json.JStr (seg_text segment)) ])
                           (res_segments result))) ])%string
    /\ (forall t,
          t = res_text result \/ t = res_language result
          \/ In t (map seg_text (res_segments result)) ->
          occurs_in (Json.encode_string t) s)
    /\ (forall a u b,
          all_chars non_ascii u = true ->
          Json.encode_string (a ++ u ++ b)
          = String Json.dquote
              (Json.escape a ++ u ++ Json.escape b ++ String Json.dquote ""))%string.
Proof.
  exists (Json.dumps (json_dict result)). split; [reflexivity|]. split.
  - apply JsonDocFacts.loads_dumps_json_dict.
  - split.
    + apply JsonDocFacts.json_strings_occur.
    + apply JsonDocFacts.encode_string_non_ascii.
Qed.

(** ** No segments *)

(** C10. For a result without segments [generate_srt] returns the empty
    string, [generate_vtt] returns [WEBVTT] followed by one newline and
    nothing else, and [generate_json] returns a document of three members
    that reads back as an object whose [segments] member is the empty
    array. *)
Theorem empty_segments_outputs (text language : string) :
  let result := mkResult text [] language in
  generate_srt result = Ok ""%string
  /\ generate_vtt result = Ok ("WEBVTT" ++ nl)%string
  /\ exists s,
       generate_json result = Ok s
       /\ s = ("{" ++ nl
               ++ "  " ++ Json.encode_string "text" ++ ": "
               ++ Json.encode_string text ++ "," ++ nl
               ++ "  " ++ Json.encode_string "language" ++ ": "
               ++ Json.encode_string language ++ "," ++ nl
               ++ "  " ++ Json.encode_string "segments" ++ ": []" ++ nl
               ++ "}")%string
       /\ Json.loads s
          = Some (Json.JObj [ ("text", Json.JStr text);
                              ("language", Json.JStr language);
                              ("segments", Json.JArr []) ])%string.
Proof.
  intros result. split; [reflexivity|]. split; [reflexivity|].
  exists (Json.dumps (json_dict result)). split; [reflexivity|]. split.
  - unfold Json.dumps, json_dict, result. cbn [res_text res_language res_segments map].
    rewrite JsonFacts.encode_obj_cons. cbn [map fst snd].
    rewrite !join_cons2. cbn [join Json.encode].
    rewrite !append_assoc. reflexivity.
  - apply (JsonDocFacts.loads_dumps_json_dict result).
Qed.

(** ** Saving *)


(** * Further properties *)

(** ** [str.strip] *)

Module StripFacts.

Import StrFacts.

Local Open Scope string_scope.

Lemma lstrip_split s :
  exists a, s = a ++ lstrip s /\ all_chars is_space a = true.
Proof.
  induction s as [|c s IH]; [now exists ""|].
  cbn [lstrip]. destruct (is_space c) eqn:Hc.
  - destruct IH as (a & E & Ha). exists (String c a).
    rewrite append_cons, <- E. cbn [all_chars]. now rewrite Hc, Ha.
  - now exists "".
Qed.

Lemma lstrip_first s : not_space (first_char (lstrip s)) = true.
Proof.
  induction s as [|c s IH]; [reflexivity|].
  cbn [lstrip]. destruct (is_space c) eqn:Hc; [exact IH|].
  cbn [first_char not_space]. now rewrite Hc.
Qed.

Lemma rstrip_cons c s :
  rstrip (String c s)
  = match rstrip s with
    | EmptyString => if is_space c then EmptyString else String c EmptyString
    | t => String c t
    end.
Proof. reflexivity. Qed.

Lemma rstrip_split s :
  exists b, s = rstrip s ++ b /\ all_chars is_space b = true.
Proof.
  induction s as [|c s IH]; [now exists ""|].
  rewrite rstrip_cons. destruct IH as (b & E & Hb).
  destruct (rstrip s) as [|d t] eqn:Er.
  - rewrite append_nil_l in E. subst b. destruct (is_space c) eqn:Hc.
    + exists (String c s). rewrite append_nil_l. cbn [all_chars]. now rewrite Hc, Hb.
    + exists s. now rewrite append_cons, append_nil_l.
  - exists b. now rewrite append_cons, <- E.
Qed.

Lemma rstrip_last s : not_space (last_char (rstrip s)) = true.
Proof.
  induction s as [|c s IH]; [reflexivity|].
  rewrite rstrip_cons. destruct (rstrip s) as [|d t] eqn:Er.
  - destruct (is_space c) eqn:Hc; [reflexivity|].
    cbn [last_char not_space]. now rewrite Hc.
  - exact IH.
Qed.

Lemma rstrip_first s :
  not_space (first_char s) = true -> not_space (first_char (rstrip s)) = true.
Proof.
  destruct s as [|c s]; [reflexivity|]. cbn [first_char not_space]. intros Hc.
  rewrite rstrip_cons. destruct (rstrip s); [|cbn [first_char not_space]; exact Hc].
  apply negb_true_iff in Hc. rewrite Hc. cbn [first_char not_space]. now rewrite Hc.
Qed.

Lemma strip_trimming s : trimming_of (strip s) s.
Proof.
  unfold trimming_of, trimmed, strip. split.
  - rewrite rstrip_first by apply lstrip_first. now rewrite rstrip_last.
  - destruct (lstrip_split s) as (a & Ea & Ha).
    destruct (rstrip_split (lstrip s)) as (b & Eb & Hb).
    exists a, b. split; [|now split]. now rewrite <- Eb.
Qed.

End StripFacts.

(** ** transcriber.py *)

Module TranscriberFacts.

Import Transcriber.

Local Open Scope string_scope.

Lemma in_models name :
  existsb (String.eqb name) WHISPER_MODELS = true <-> In name WHISPER_MODELS.
Proof.
  rewrite existsb_exists. split.
  - intros (x & Hx & E). apply String.eqb_eq in E. now subst.
  - intros H. exists name. split; [exact H | apply String.eqb_refl].
Qed.

Lemma convert_from_length i segments :
  length (convert_from i segments) = length segments.
Proof.
  revert i. induction segments as [|s rest IH]; intros i; [reflexivity|].
  cbn [convert_from length]. now rewrite IH.
Qed.

Lemma convert_from_nth segments :
  forall i k ws,
    nth_error segments k = Some ws ->
    nth_error (convert_from i segments) k
    = Some (mkSegment (i + Z.of_nat k) (ws_start ws) (ws_end ws) (strip (ws_text ws))).
Proof.
  induction segments as [|s rest IH]; intros i k ws H; [now destruct k|].
  destruct k as [|k]; cbn [nth_error convert_from] in H |- *.
  - injection H as ->. now rewrite Z.add_0_r.
  - rewrite (IH (i + 1)%Z k ws H). do 2 f_equal. lia.
Qed.

Section Calls.

Context {Model AudioInput : Type}.
Variable whisper_load_model : string -> option string -> Model + string.
Variable model_transcribe :
  Model -> AudioInput -> option string -> string -> WhisperOutput + string.

Definition valid_task (task : string) : Prop :=
  task = "transcribe" \/ task = "translate".

Lemma valid_task_check task :
  negb (existsb (String.eqb task) ["transcribe"; "translate"]) = false <-> valid_task task.
Proof.
  unfold valid_task. cbn [existsb].
  destruct (String.eqb_spec task "transcribe") as [E1|N1];
    [|destruct (String.eqb_spec task "translate") as [E2|N2]]; cbn.
  - split; [now left | reflexivity].
  - split; [now right | reflexivity].
  - split; [discriminate | now intros [|]].
Qed.

(** With a loaded model, [transcribe] is one call to the engine. *)
Lemma transcribe_loaded self m audio language task :
  model Model self = Some m -> valid_task task ->
  transcribe Model AudioInput whisper_load_model model_transcribe self audio language task
  = match model_transcribe m audio language task with
    | inl result =>
        (Ok (mkResult (strip (wo_text result))
               (_convert_whisper_segments (wo_segments result)) (wo_language result)),
         self, [ModelTranscribe task])
    | inr what =>
        (Raise (ValueError ("Transcription failed: " ++ what)), self,
         [ModelTranscribe task])
    end.
Proof.
  intros Hm Hv. unfold Transcriber.transcribe.
  apply valid_task_check in Hv. rewrite Hv.
  unfold load_model. rewrite Hm. cbn iota beta. rewrite Hm.
  now destruct (model_transcribe m audio language task).
Qed.

(** Without one, the model is loaded first. *)
Lemma transcribe_unloaded self audio language task :
  model Model self = None -> valid_task task ->
  transcribe Model AudioInput whisper_load_model model_transcribe self audio language task
  = match whisper_load_model (model_name Model self) (device Model self) with
    | inl m =>
        let self' := mkTranscriber Model (model_name Model self) (device Model self)
                       (Some m) in
        match model_transcribe m audio language task with
        | inl result =>
            (Ok (mkResult (strip (wo_text result))
                   (_convert_whisper_segments (wo_segments result)) (wo_language result)),
             self',
             [LoadModel (model_name Model self) (device Model self); ModelTranscribe task])
        | inr what =>
            (Raise (ValueError ("Transcription failed: " ++ what)), self',
             [LoadModel (model_name Model self) (device Model self); ModelTranscribe task])
        end
    | inr what =>
        (Raise (External what), self,
         [LoadModel (model_name Model self) (device Model self)])
    end.
Proof.
  intros Hm Hv. unfold Transcriber.transcribe.
  apply valid_task_check in Hv. rewrite Hv.
  unfold load_model. rewrite Hm.
  destruct (whisper_load_model _ _) as [m|what]; [|reflexivity].
  cbn iota beta. cbn [model].
  now destruct (model_transcribe m audio language task).
Qed.

Lemma transcribe_ok_valid self audio language task r self' calls :
  transcribe Model AudioInput whisper_load_model model_transcribe self audio language task = (Ok r, self', calls) -> valid_task task.
Proof.
  intros H. apply valid_task_check. unfold Transcriber.transcribe in H.
  destruct (negb _); [discriminate H | reflexivity].
Qed.

End Calls.

End TranscriberFacts.

(** X1. A [WhisperTranscriber] is constructed exactly when Whisper is
    installed and the model name is one of the five sizes; the new instance
    has no model loaded.  A missing Whisper is reported first, as an
    [ImportError], whatever the name; a wrong name as a [ValueError] that
    lists the sizes. *)
Theorem init_succeeds_iff (Model : Type) (whisper_available : bool)
    (name : string) (dev : option string) :
  ((exists t, Transcriber.init Model whisper_available name dev = Ok t)
   <-> whisper_available = true /\ In name Transcriber.WHISPER_MODELS)
  /\ (forall t, Transcriber.init Model whisper_available name dev = Ok t ->
        t = Transcriber.mkTranscriber Model name dev None)
  /\ (whisper_available = false ->
      Transcriber.init Model whisper_available name dev
      = Raise (ImportError
                 "Whisper is not installed. Install it with: pip install openai-whisper"))
  /\ (whisper_available = true -> ~ In name Transcriber.WHISPER_MODELS ->
      Transcriber.init Model whisper_available name dev
      = Raise (ValueError ("Invalid model name: " ++ name
                           ++ ". Choose from: tiny, base, small, medium, large")))%string.
Proof.
  unfold Transcriber.init.
  destruct whisper_available; cbn [negb].
  - destruct (existsb (String.eqb name) Transcriber.WHISPER_MODELS) eqn:E; cbn [negb].
    + apply TranscriberFacts.in_models in E.
      split; [split; [now intros _ | intros _; now eexists]|].
      split; [now intros t [= <-]|]. split; [discriminate|]. now intros _ H.
    + assert (N : ~ In name Transcriber.WHISPER_MODELS).
      { intros H. apply TranscriberFacts.in_models in H. congruence. }
      split; [split; [now intros [t H] | now intros [_ H]]|].
      split; [discriminate|]. split; [discriminate|]. reflexivity.
  - split; [split; [now intros [t H] | now intros [H _]]|].
    split; [discriminate|]. split; [reflexivity | discriminate].
Qed.

(** X2. The engine model is loaded lazily and once: a successful
    [transcribe] made its one engine call, preceded by a load exactly when
    the instance had no model yet, and leaves an instance with a model (the
    one it had, if it had one) and the same name and device; every later
    [transcribe] on that instance, whatever its arguments and outcome, loads
    nothing and leaves the instance as it is. *)
Theorem transcribe_loads_model_once (Model AudioInput : Type)
    (whisper_load_model : string -> option string -> Model + string)
    (model_transcribe :
       Model -> AudioInput -> option string -> string -> Transcriber.WhisperOutput + string)
    (self self' : Transcriber.WhisperTranscriber Model)
    (audio : AudioInput) (language : option string) (task : string)
    (r : TranscriptionResult) (calls : list Transcriber.engine_call) :
  Transcriber.transcribe Model AudioInput whisper_load_model model_transcribe
    self audio language task = (Ok r, self', calls) ->
  calls = match Transcriber.model Model self with
          | Some _ => [Transcriber.ModelTranscribe task]
          | None => [Transcriber.LoadModel (Transcriber.model_name Model self)
                       (Transcriber.device Model self);
                     Transcriber.ModelTranscribe task]
          end
  /\ Transcriber.model_name Model self' = Transcriber.model_name Model self
  /\ Transcriber.device Model self' = Transcriber.device Model self
  /\ (exists m, Transcriber.model Model self' = Some m
                /\ forall m0, Transcriber.model Model self = Some m0 -> m0 = m)
  /\ forall audio2 language2 task2,
       let again := Transcriber.transcribe Model AudioInput whisper_load_model
                      model_transcribe self' audio2 language2 task2 in
       snd (fst again) = self'
       /\ forall n d, ~ In (Transcriber.LoadModel n d) (snd again).
Proof.
  intros H.
  pose proof (TranscriberFacts.transcribe_ok_valid _ _ _ _ _ _ _ _ _ H) as Hv.
  assert (Hlater : forall m, Transcriber.model Model self' = Some m ->
            forall audio2 language2 task2,
              let again := Transcriber.transcribe Model AudioInput whisper_load_model
                             model_transcribe self' audio2 language2 task2 in
              snd (fst again) = self'
              /\ forall n d, ~ In (Transcriber.LoadModel n d) (snd again)).
  { intros m Hm audio2 language2 task2 again. subst again.
    destruct (TranscriberFacts.valid_task_check task2) as [_ Hc].
    destruct (negb (existsb (String.eqb task2) ["transcribe"; "translate"]%string)) eqn:Et.
    - unfold Transcriber.transcribe. rewrite Et. cbn [fst snd]. split; [reflexivity|].
      now intros n d [].
    - rewrite (TranscriberFacts.transcribe_loaded _ _ _ _ _ _ _ Hm)
        by now apply TranscriberFacts.valid_task_check.
      destruct (model_transcribe m audio2 language2 task2); cbn [fst snd];
        (split; [reflexivity|]); intros n d [E|[]]; discriminate E. }
  destruct (Transcriber.model Model self) as [m|] eqn:Em.
  - rewrite (TranscriberFacts.transcribe_loaded _ _ _ _ _ _ _ Em Hv) in H.
    destruct (model_transcribe m audio language task); [|discriminate H].
    injection H as _ <- <-.
    split; [reflexivity|]. split; [reflexivity|]. split; [reflexivity|].
    split; [exists m; split; [exact Em | now intros m0 [= ->]]|].
    now apply (Hlater m).
  - rewrite (TranscriberFacts.transcribe_unloaded _ _ _ _ _ _ Em Hv) in H.
    destruct (whisper_load_model _ _) as [m|what]; [|discriminate H].
    cbv zeta in H.
    destruct (model_transcribe m audio language task); [|discriminate H].
    injection H as _ <- <-.
    split; [reflexivity|]. split; [reflexivity|]. split; [reflexivity|].
    split; [exists m; split; [reflexivity | discriminate]|].
    now apply (Hlater m).
Qed.

(** X2, used once: the stand-in engine, first call on a fresh instance. *)
Lemma transcribe_loads_model_once_witness :
  Transcriber.transcribe unit unit toy_load toy_transcribe toy_transcriber
    tt None "transcribe"
  = (Ok (mkResult "This is a test" [mkSegment 0 f_0 f_2_5 "This is a test"] "en"),
     Transcriber.mkTranscriber unit "small" None (Some tt),
     [Transcriber.LoadModel "small" None; Transcriber.ModelTranscribe "transcribe"])
  /\ forall audio2 language2 task2,
       let again := Transcriber.transcribe unit unit toy_load toy_transcribe
                      (Transcriber.mkTranscriber unit "small" None (Some tt))
                      audio2 language2 task2 in
       snd (fst again) = Transcriber.mkTranscriber unit "small" None (Some tt)
       /\ forall n d, ~ In (Transcriber.LoadModel n d) (snd again).
Proof.
  assert (H : Transcriber.transcribe unit unit toy_load toy_transcribe toy_transcriber
                tt None "transcribe"
              = (Ok (mkResult "This is a test"
                       [mkSegment 0 f_0 f_2_5 "This is a test"] "en"),
                 Transcriber.mkTranscriber unit "small" None (Some tt),
                 [Transcriber.LoadModel "small" None;
                  Transcriber.ModelTranscribe "transcribe"])) by reflexivity.
  split; [exact H|].
  exact (proj2 (proj2 (proj2 (proj2
           (transcribe_loads_model_once unit unit toy_load toy_transcribe
              _ _ _ _ _ _ _ H))))).
Defined.

(** X3. With a valid task, a failure of the engine's [transcribe] is raised
    as a [ValueError] whose message is [Transcription failed: ] and the
    cause, and the instance keeps its model; a failure to load the model is
    raised as it came from the loader, without that wrapping, before the
    engine is asked to transcribe, and leaves the instance without a model,
    so that the next call tries to load again. *)
Theorem transcribe_failures (Model AudioInput : Type)
    (whisper_load_model : string -> option string -> Model + string)
    (model_transcribe :
       Model -> AudioInput -> option string -> string -> Transcriber.WhisperOutput + string)
    (self : Transcriber.WhisperTranscriber Model)
    (audio : AudioInput) (language : option string) (task what : string) :
  task = "transcribe"%string \/ task = "translate"%string ->
  let out := Transcriber.transcribe Model AudioInput whisper_load_model model_transcribe
               self audio language task in
  (forall m,
     (Transcriber.model Model self = Some m
      \/ (Transcriber.model Model self = None
          /\ whisper_load_model (Transcriber.model_name Model self)
               (Transcriber.device Model self) = inl m)) ->
     model_transcribe m audio language task = inr what ->
     fst (fst out) = Raise (ValueError ("Transcription failed: " ++ what)%string)
     /\ Transcriber.model Model (snd (fst out)) = Some m)
  /\ (Transcriber.model Model self = None ->
      whisper_load_model (Transcriber.model_name Model self)
        (Transcriber.device Model self) = inr what ->
      out = (Raise (External what), self,
             [Transcriber.LoadModel (Transcriber.model_name Model self)
                (Transcriber.device Model self)])).
Proof.
  intros Hv out. split.
  - intros m [Hm|[Hm Hl]] Hf; subst out.
    + rewrite (TranscriberFacts.transcribe_loaded _ _ _ _ _ _ _ Hm Hv), Hf.
      cbn [fst snd]. now split.
    + rewrite (TranscriberFacts.transcribe_unloaded _ _ _ _ _ _ Hm Hv), Hl.
      cbv zeta. rewrite Hf. cbn [fst snd Transcriber.model]. now split.
  - intros Hm Hl. subst out.
    now rewrite (TranscriberFacts.transcribe_unloaded _ _ _ _ _ _ Hm Hv), Hl.
Qed.

(** X3, used once: a loader that fails. *)
Lemma transcribe_failures_witness :
  Transcriber.transcribe unit unit (fun _ _ => inr "out of memory"%string) toy_transcribe
    toy_transcriber tt None "translate"
  = (Raise (External "out of memory"), toy_transcriber,
     [Transcriber.LoadModel "small" None]).
Proof.
  exact (proj2 (transcribe_failures unit unit (fun _ _ => inr "out of memory"%string)
                  toy_transcribe toy_transcriber tt None "translate" "out of memory"
                  (or_intror eq_refl))
               eq_refl eq_refl).
Defined.




(** ** [get_available_languages] *)

Module LanguageFacts.

Import StrFacts Transcriber Languages.

Local Open Scope string_scope.

Lemma ends_with_spec suffix s :
  ends_with suffix s = true <-> exists pre, s = pre ++ suffix.
Proof.
  split.
  - induction s as [|c s IH]; cbn [ends_with]; intros H.
    + rewrite orb_false_r in H. apply String.eqb_eq in H. subst. now exists "".
    + apply orb_true_iff in H. destruct H as [H|H].
      * apply String.eqb_eq in H. rewrite H. now exists "".
      * destruct (IH H) as (pre & ->). exists (String c pre). now rewrite append_cons.
  - intros (pre & ->). induction pre as [|c pre IH].
    + rewrite append_nil_l. destruct suffix; cbn [ends_with]; now rewrite String.eqb_refl.
    + rewrite append_cons. cbn [ends_with]. rewrite IH. apply orb_true_r.
Qed.

Lemma substring_0_app (a b : string) : substring 0 (String.length a) (a ++ b) = a.
Proof.
  induction a as [|c a IH].
  - rewrite append_nil_l. now destruct b.
  - rewrite append_cons. cbn [String.length substring]. now rewrite IH.
Qed.

Lemma slice_wrapped code : slice ("<|" ++ code ++ "|>") 2 (-2) = code.
Proof.
  unfold slice. rewrite !length_append.
  change (String.length "<|") with 2%nat. change (String.length "|>") with 2%nat.
  set (n := String.length code).
  assert (E1 : ((2 <? 0)%Z = false)) by reflexivity.
  assert (E2 : ((-2 <? 0)%Z = true)) by reflexivity.
  rewrite E1, E2.
  replace (Z.min 2 (Z.of_nat (2 + (n + 2)))) with 2%Z by lia.
  replace (Z.max (-2 + Z.of_nat (2 + (n + 2))) 0 - 2)%Z with (Z.of_nat n) by lia.
  rewrite Nat2Z.id. change (Z.to_nat 2) with 2%nat.
  rewrite !append_cons, append_nil_l. cbn [substring]. apply substring_0_app.
Qed.

Lemma prefix_nil s : String.prefix "" s = true.
Proof. now destruct s. Qed.

Lemma prefix_cons a s1 b s2 :
  String.prefix (String a s1) (String b s2) = Ascii.eqb a b && String.prefix s1 s2.
Proof.
  cbn [String.prefix]. destruct (ascii_dec a b) as [->|N].
  - now rewrite Ascii.eqb_refl.
  - apply Ascii.eqb_neq in N. now rewrite N.
Qed.

(** A token that starts with [<|] and ends with [|>] is [<|code|>] for the
    code that the slice takes, or it is [<|>]. *)
Lemma wrapped_token token :
  String.prefix "<|" token = true -> ends_with "|>" token = true ->
  token_of_code token (slice token 2 (-2)).
Proof.
  intros Hp He. apply ends_with_spec in He. destruct He as (pre & E).
  destruct token as [|a [|b rest]]; [discriminate Hp | |].
  { rewrite prefix_cons in Hp. apply andb_prop in Hp. now destruct Hp. }
  rewrite !prefix_cons in Hp.
  apply andb_prop in Hp. destruct Hp as [Ha Hp].
  apply andb_prop in Hp. destruct Hp as [Hb _].
  apply Ascii.eqb_eq in Ha, Hb. subst a b.
  destruct pre as [|x [|y pre']].
  - rewrite append_nil_l in E. discriminate E.
  - rewrite append_cons, append_nil_l in E. injection E as _ ->. right. now split.
  - rewrite !append_cons in E. injection E as _ _ ->. left.
    change (String "<" (String "|" (pre' ++ "|>"))) with ("<|" ++ pre' ++ "|>").
    now rewrite slice_wrapped.
Qed.

Definition excluded (code : string) : bool :=
  existsb (String.eqb code) ["translate"; "transcribe"; "notimestamps"].

(** The test that the loop makes on a token. *)
Definition accepted (token : string) : bool :=
  String.prefix "<|" token && ends_with "|>" token
  && negb (String.prefix "<|startoftranscript" token)
  && negb (excluded (slice token 2 (-2))).

Lemma language_step_eq tokenizer languages token token_id :
  language_step tokenizer languages (token, token_id)
  = if accepted token then
      match decode tokenizer [token_id] with
      | inl name => Ok (<[slice token 2 (-2) := strip name]> languages)
      | inr what => Raise (External what)
      end
    else Ok languages.
Proof.
  unfold language_step, accepted, excluded.
  destruct (String.prefix "<|" token && ends_with "|>" token
            && negb (String.prefix "<|startoftranscript" token)); [|reflexivity].
  cbn [andb]. now destruct (negb _).
Qed.

Lemma languages_loop tokenizer items :
  forall start languages,
    for_each (language_step tokenizer) items start = Ok languages ->
    (forall code name,
       languages !! code = Some name ->
       start !! code = Some name
       \/ exists token id text,
            In (token, id) items /\ accepted token = true
            /\ code = slice token 2 (-2)
            /\ decode tokenizer [id] = inl text /\ name = strip text)
    /\ (forall code, is_Some (start !! code) -> is_Some (languages !! code))
    /\ (forall token id,
          In (token, id) items -> accepted token = true ->
          is_Some (languages !! slice token 2 (-2))).
Proof.
  induction items as [|[token token_id] rest IH]; intros start languages H.
  - cbn [for_each] in H. injection H as <-. split; [now left|]. split; [tauto|].
    now intros token id [].
  - cbn [for_each] in H. rewrite language_step_eq in H.
    destruct (accepted token) eqn:Ha.
    + destruct (decode tokenizer [token_id]) as [text|what] eqn:Ed; [|discriminate H].
      cbn [bind] in H. destruct (IH _ _ H) as (I1 & I2 & I3).
      split; [|split].
      * intros code name Hl. destruct (I1 code name Hl) as [Hs|Hs].
        -- apply lookup_insert_Some in Hs. destruct Hs as [[<- <-]|[_ Hs]].
           ++ right. exists token, token_id, text. repeat split; try assumption.
              now left.
           ++ now left.
        -- right. destruct Hs as (t & i & x & Hin & Hrest).
           exists t, i, x. split; [now right | exact Hrest].
      * intros code Hs. apply I2. rewrite lookup_insert_is_Some.
        destruct (decide (slice token 2 (-2) = code)); [now left | right; now split].
      * intros t i [E|Hin] Hacc.
        -- injection E as <- <-. apply I2. rewrite lookup_insert_is_Some. now left.
        -- now apply (I3 t i).
    + cbn [bind] in H. destruct (IH _ _ H) as (I1 & I2 & I3).
      split; [|split].
      * intros code name Hl. destruct (I1 code name Hl) as [Hs|Hs]; [now left|].
        right. destruct Hs as (t & i & x & Hin & Hrest).
        exists t, i, x. split; [now right | exact Hrest].
      * exact I2.
      * intros t i [E|Hin] Hacc.
        -- injection E as <- <-. congruence.
        -- now apply (I3 t i).
Qed.

Lemma accepted_wrapped code :
  excluded code = false ->
  String.prefix "<|startoftranscript" ("<|" ++ code ++ "|>") = false ->
  accepted ("<|" ++ code ++ "|>") = true.
Proof.
  intros Hx Hs. unfold accepted. rewrite Hs, slice_wrapped, Hx.
  assert (He : ends_with "|>" ("<|" ++ code ++ "|>") = true).
  { apply ends_with_spec. exists ("<|" ++ code). now rewrite append_assoc. }
  rewrite He. rewrite !append_cons, !prefix_cons, prefix_nil. reflexivity.
Qed.

End LanguageFacts.



(** ** The time a timestamp shows *)

Module PrecisionFacts.

Import RoundFacts B64Facts TimestampFacts OrderFacts.

Local Open Scope N_scope.

Lemma whole_seconds n :
  (n / (3600 * U) * 60 + ts_minutes n) * 60 + ts_seconds n = n / U.
Proof.
  unfold ts_minutes, ts_seconds. rewrite div_div_60, div_div_U.
  set (q := n / U). set (a := q / 60).
  pose proof (N.div_mod a 60 ltac:(lia)) as Ea.
  pose proof (N.div_mod q 60 ltac:(lia)) as Eq. fold a in Eq.
  dlia.
Qed.

Lemma RN_whole k : k < 2 ^ 53 -> RN (k * U) = k * U.
Proof. intros H. rewrite U_eq. now apply RN_mul_pow2. Qed.

(** Rounding a product to a float and truncating it gives the floor of the
    product or, when the product rounds up to a whole number, the next one. *)
Lemma millis_bounds x :
  x / U < 2 ^ 52 ->
  x / U <= RN x / U /\ (RN x / U) * U < x + U.
Proof.
  intros Hk. pose proof U_pos as HU.
  pose proof (N.div_mod x U ltac:(lia)) as Ex.
  pose proof (N.mod_lt x U ltac:(lia)) as Hr.
  set (k := x / U) in *. set (r := x mod U) in *. clearbody k r.
  assert (Hk53 : k < 2 ^ 53) by (eapply N.lt_trans; [exact Hk | reflexivity]).
  assert (Hlo : k * U <= RN x).
  { rewrite <- (RN_whole k) by exact Hk53. apply RN_mono. lia. }
  assert (Hhi : RN x <= (k + 1) * U).
  { rewrite <- (RN_whole (k + 1)).
    - apply RN_mono. lia.
    - assert (H1 : k + 1 <= 2 ^ 52) by lia.
      eapply N.le_lt_trans; [exact H1 | reflexivity]. }
  split.
  - apply N.div_le_lower_bound; lia.
  - destruct (N.eq_dec r 0) as [Ez|Nz].
    + assert (Exk : x = k * U) by lia.
      rewrite Exk at 1. rewrite RN_whole by exact Hk53.
      rewrite N.div_mul by lia. lia.
    + pose proof (N.Div0.mul_div_le (RN x) U) as Hd.
      set (d := RN x / U) in *. clearbody d.
      set (y := RN x) in *. clearbody y. nia.
Qed.

Lemma timestamp_millis_bounds n :
  on_grid 53 n -> n / U < 2 ^ 57 ->
  (1000 * n) / U <= timestamp_millis n
  /\ timestamp_millis n * U < 1000 * n + U.
Proof.
  intros Hg Hb. pose proof U_pos as HU.
  unfold timestamp_millis. rewrite (ts_hours_exact n Hb), whole_seconds.
  rewrite ts_millis_eq, (RN_on_grid (n mod U)) by now apply on_grid_mod_U.
  pose proof (N.div_mod n U ltac:(lia)) as En.
  pose proof (N.mod_lt n U ltac:(lia)) as Hf.
  clear Hb Hg.
  set (q := n / U) in *. set (f := n mod U) in *. clearbody q f.
  assert (Hx : (1000 * f) / U < 2 ^ 52).
  { apply N.Div0.div_lt_upper_bound.
    assert (H1 : 1000 < 2 ^ 52) by reflexivity.
    set (P := 2 ^ 52) in *. clearbody P. nia. }
  destruct (millis_bounds (1000 * f) Hx) as [Hlo Hhi].
  clear Hx.
  set (ms := RN (1000 * f) / U) in *. clearbody ms.
  assert (Efl : (1000 * n) / U = 1000 * q + (1000 * f) / U).
  { rewrite En. replace (1000 * (U * q + f)) with (1000 * q * U + 1000 * f) by lia.
    rewrite N.div_add_l by lia. reflexivity. }
  split.
  - rewrite Efl. set (fl := 1000 * f / U) in *. clearbody fl. lia.
  - subst n. nia.
Qed.

End PrecisionFacts.

(** X7. The case of the format type does not matter to [_format_timestamp],
    and any type other than SRT and VTT is rejected with a [ValueError] that
    quotes the type as it was given. *)
Theorem format_timestamp_format_type (s : float64) (format_type : string) :
  (lower format_type = "srt"%string ->
   _format_timestamp s format_type = _format_timestamp s "srt")
  /\ (lower format_type = "vtt"%string ->
      _format_timestamp s format_type = _format_timestamp s "vtt")
  /\ (lower format_type <> "srt"%string -> lower format_type <> "vtt"%string ->
      _format_timestamp s format_type
      = Raise (ValueError ("Unsupported format type: " ++ format_type)%string))
  /\ _format_timestamp f_3661_5 "SRT" = Ok "01:01:01,500"%string
  /\ _format_timestamp f_3661_5 "Vtt" = Ok "01:01:01.500"%string
  /\ _format_timestamp f_3661_5 "ass"
     = Raise (ValueError "Unsupported format type: ass").
Proof.
  split; [|split; [|split]].
  - intros E. unfold _format_timestamp. cbv zeta. rewrite E. reflexivity.
  - intros E. unfold _format_timestamp. cbv zeta. rewrite E. reflexivity.
  - intros N1 N2. unfold _format_timestamp. cbv zeta.
    apply String.eqb_neq in N1, N2. now rewrite N1, N2.
  - split; [vm_compute; reflexivity|]. split; vm_compute; reflexivity.
Qed.

(** X8. Below [2^57] seconds a timestamp is never earlier than its time cut
    to whole milliseconds and is less than one millisecond later than the
    time: the fields add up to [floor(1000 s)] or, when the float product
    rounds up to a whole number, to one more.  That happens: 0.29 is a float
    just below 29/100 and prints as 290 milliseconds. *)
Theorem timestamp_within_a_millisecond (s : float64) :
  (units s / U < 2 ^ 57)%N ->
  ((1000 * units s) / U <= timestamp_millis (units s)
   /\ timestamp_millis (units s) * U < 1000 * units s + U)%N
  /\ _format_timestamp f_0_29 "srt" = Ok "00:00:00,290"%string
  /\ (1000 * units f_0_29 < 290 * U)%N.
Proof.
  intros Hb. split.
  - apply PrecisionFacts.timestamp_millis_bounds; [|exact Hb].
    apply is_b64_on_grid, units_ok.
  - split; vm_compute; reflexivity.
Qed.

(** X8, used once: 3661.5 seconds show as 3661500 milliseconds. *)
Lemma timestamp_within_a_millisecond_witness :
  ((1000 * units f_3661_5) / U <= timestamp_millis (units f_3661_5)
   /\ timestamp_millis (units f_3661_5) * U < 1000 * units f_3661_5 + U)%N.
Proof.
  assert (H : (units f_3661_5 / U < 2 ^ 57)%N) by (vm_compute; reflexivity).
  exact (proj1 (timestamp_within_a_millisecond f_3661_5 H)).
Defined.

(** ** What the saved files hold *)

Module FileFacts.

Import StrFacts SaveFacts.

Local Open Scope string_scope.

Lemma append_inv_head (a b c : string) : a ++ b = a ++ c -> b = c.
Proof.
  induction a as [|x a IH]; [now rewrite !append_nil_l|].
  rewrite !append_cons. intros [= H]. now apply IH.
Qed.

Lemma read_only_spec fs path :
  existsb (String.eqb path) (read_only fs) = true <-> In path (read_only fs).
Proof.
  rewrite existsb_exists. split.
  - intros (x & Hin & E). apply String.eqb_eq in E. now subst.
  - intros Hin. exists path. split; [exact Hin | apply String.eqb_refl].
Qed.

Lemma mem_write_cases fs path content :
  (In path (read_only fs)
   /\ mem_write fs path content = (fs, Some "[Errno 13] Permission denied"))
  \/ (~ In path (read_only fs)
      /\ mem_write fs path content
         = (mkFS (<[path := content]> (files fs)) (read_only fs), None)).
Proof.
  unfold mem_write. destruct (existsb (String.eqb path) (read_only fs)) eqn:E.
  - left. split; [now apply read_only_spec | reflexivity].
  - right. split; [|reflexivity]. intros H. apply read_only_spec in H. congruence.
Qed.

Lemma written_dec (tried : list (string * string * bool)) path :
  (exists name, In (name, path, true) tried)
  \/ (forall name, In (name, path, true) tried -> False).
Proof.
  induction tried as [|[[n p] ok] rest IH]; [right; now intros name []|].
  destruct IH as [[name H]|H]; [left; exists name; now right|].
  destruct (string_dec p path) as [->|Np]; [destruct ok|].
  - left. exists n. now left.
  - right. intros name [E|Hin]; [discriminate E | now apply (H name)].
  - right. intros name [E|Hin]; [congruence | now apply (H name)].
Qed.

Section Attempts.

Variable result : TranscriptionResult.
Variable output_path : string.

(** What a run of write attempts leaves in an in-memory file system. *)
Lemma attempts_mem formats :
  forall fs,
    let tried := attempts mem_write result output_path formats fs in
    read_only (snd tried) = read_only fs
    /\ (forall name path ok,
          In (name, path, ok) (fst tried) ->
          path = output_path ++ "." ++ name
          /\ In name (map lower formats)
          /\ (ok = true <-> ~ In path (read_only fs)))
    /\ (forall name path,
          In (name, path, true) (fst tried) ->
          files (snd tried) !! path = Some (rendering name result))
    /\ (forall path,
          (forall name, In (name, path, true) (fst tried) -> False) ->
          files (snd tried) !! path = files fs !! path)
    /\ (forall name,
          supported name = true -> In name (map lower formats) ->
          exists ok, In (name, output_path ++ "." ++ name, ok) (fst tried)).
Proof.
  induction formats as [|fmt rest IH]; intros fs tried; subst tried.
  - cbn [attempts fst snd map In].
    split; [reflexivity|]. split; [now intros name path ok []|].
    split; [now intros name path []|]. split; [reflexivity|].
    now intros name _ [].
  - destruct (supported (lower fmt)) eqn:Hs.
    + rewrite attempts_cons_supported by exact Hs. cbv zeta.
      set (path0 := output_path ++ "." ++ lower fmt).
      destruct (mem_write_cases fs path0 (rendering (lower fmt) result))
        as [[Hro Ew]|[Hro Ew]]; rewrite Ew; cbn [fst snd].
      * (* the write fails *)
        specialize (IH fs). cbv zeta in IH. destruct IH as (R & A & B & C & D).
        split; [exact R|]. split; [|split; [|split]].
        -- intros name path ok [E|Hin].
           ++ injection E as <- <- <-. split; [reflexivity|].
              split; [now left|]. split; [discriminate | now intros H].
           ++ destruct (A name path ok Hin) as (A1 & A2 & A3).
              split; [exact A1|]. split; [now right | exact A3].
        -- intros name path [E|Hin]; [discriminate E | now apply B].
        -- intros path Hn. apply C. intros name Hin. apply (Hn name). now right.
        -- intros name Hsup [E|Hin].
           ++ subst name. eexists. left. reflexivity.
           ++ destruct (D name Hsup Hin) as [ok Hok]. exists ok. now right.
      * (* the write succeeds *)
        set (fs1 := mkFS (<[path0 := rendering (lower fmt) result]> (files fs))
                      (read_only fs)).
        specialize (IH fs1). cbv zeta in IH. destruct IH as (R & A & B & C & D).
        split; [exact R|]. split; [|split; [|split]].
        -- intros name path ok [E|Hin].
           ++ injection E as <- <- <-. split; [reflexivity|].
              split; [now left|]. split; [now intros _ | reflexivity].
           ++ destruct (A name path ok Hin) as (A1 & A2 & A3).
              split; [exact A1|]. split; [now right | exact A3].
        -- intros name path [E|Hin]; [|now apply B].
           injection E as <- <-.
           destruct (written_dec (fst (attempts mem_write result output_path rest fs1))
                       path0) as [[name' Hin']|Hnone].
           ++ destruct (A name' path0 true Hin') as (A1 & _ & _).
              unfold path0 in A1. apply append_inv_head, append_inv_head in A1.
              rewrite A1. now apply B.
           ++ rewrite (C path0 Hnone). unfold fs1. cbn [files].
              apply lookup_insert_eq.
        -- intros path Hn. rewrite C.
           ++ unfold fs1. cbn [files]. apply lookup_insert_ne.
              intros <-. apply (Hn (lower fmt)). now left.
           ++ intros name Hin. apply (Hn name). now right.
        -- intros name Hsup [E|Hin].
           ++ subst name. eexists. left. reflexivity.
           ++ destruct (D name Hsup Hin) as [ok Hok]. exists ok. now right.
    + rewrite attempts_cons_unsupported by exact Hs.
      specialize (IH fs). cbv zeta in IH. destruct IH as (R & A & B & C & D).
      split; [exact R|]. split; [|split; [|split]].
      * intros name path ok Hin. destruct (A name path ok Hin) as (A1 & A2 & A3).
        split; [exact A1|]. split; [now right | exact A3].
      * exact B.
      * exact C.
      * intros name Hsup [E|Hin]; [congruence | now apply D].
Qed.

End Attempts.

End FileFacts.

(** X9. On a file system in memory, where a write stores the content
    unless the path is read-only, [save_transcription] leaves in every file
    it reports the output of that file's format; a requested format that the
    code knows is reported exactly when its path [base.name] is not
    read-only; no other file is touched. *)
Theorem saved_files_hold_outputs (result : TranscriptionResult)
    (output_path : string) (formats : list string) (fs : mem_fs) :
  exists st,
    save_transcription mem_fs mem_write result output_path formats fs = Ok st
    /\ (forall name path,
          saved_files mem_fs st !! name = Some path ->
          path = (output_path ++ "." ++ name)%string
          /\ files (world mem_fs st) !! path = Some (rendering name result))
    /\ (forall name,
          supported name = true -> In name (map lower formats) ->
          (saved_files mem_fs st !! name = Some (output_path ++ "." ++ name)%string
           <-> ~ In (output_path ++ "." ++ name)%string (read_only fs)))
    /\ (forall path,
          (forall name, saved_files mem_fs st !! name <> Some path) ->
          files (world mem_fs st) !! path = files fs !! path)
    /\ read_only (world mem_fs st) = read_only fs.
Proof.
  unfold save_transcription.
  destruct (SaveFacts.save_loop mem_write result output_path formats
              (mkSave mem_fs ∅ fs [])) as (st & E & Hw & Hm & _).
  { intros name path H. cbn [saved_files] in H. now rewrite lookup_empty in H. }
  cbn [world saved_files] in Hw, Hm.
  destruct (FileFacts.attempts_mem result output_path formats fs)
    as (R & A & B & C & D).
  assert (Hm' : forall name path,
            saved_files mem_fs st !! name = Some path
            <-> In (name, path, true)
                   (fst (attempts mem_write result output_path formats fs))).
  { intros name path. rewrite Hm, lookup_empty. split; [intros [H|H]|intros H].
    - exact H.
    - discriminate H.
    - now left. }
  exists st. split; [exact E|]. rewrite Hw. split; [|split; [|split]].
  - intros name path Hl. apply Hm' in Hl. split.
    + now destruct (A name path true Hl).
    + now apply B.
  - intros name Hs Hin. rewrite Hm'. split.
    + intros Ht. now apply (A name _ true Ht).
    + intros Hro. destruct (D name Hs Hin) as [ok Hok].
      destruct (A name _ ok Hok) as (_ & _ & A3). apply A3 in Hro. now subst ok.
  - intros path Hn. apply C. intros name Hin. apply (Hn name). now apply Hm'.
  - exact R.
Qed.

(** X10. The JSON text determines the result: two results with the same
    [generate_json] output have the same text, language and segments. *)
Theorem generate_json_injective (r1 r2 : TranscriptionResult) :
  generate_json r1 = generate_json r2 -> r1 = r2.
Proof.
  intros H0.
  assert (H : Json.loads (Json.dumps (json_dict r1))
              = Json.loads (Json.dumps (json_dict r2))).
  { unfold generate_json in H0. congruence. }
  rewrite !JsonDocFacts.loads_dumps_json_dict in H.
  unfold json_dict in H. injection H as Ht El Es.
  assert (Hs : res_segments r1 = res_segments r2).
  { revert Es. generalize (res_segments r2).
    induction (res_segments r1) as [|a l IH]; intros [|b l']; cbn [map];
      try discriminate; [reflexivity|].
    intros [= Ei Est Een Etx Hrest].
    f_equal; [|now apply IH]. destruct a, b. cbn in *. congruence. }
  destruct r1, r2. cbn in *. congruence.
Qed.

(** X10, used once: the example result against itself. *)
Lemma generate_json_injective_witness : sample_result = sample_result.
Proof.
  exact (generate_json_injective sample_result sample_result eq_refl).
Defined.

(** ** audio.py: the shape of the wave *)

Module WaveFacts.

Import RoundFacts Binary32 Audio.

Local Open Scope Z_scope.

Lemma round_z_opp p q : round_z (- p) q = - round_z p q.
Proof.
  unfold round_z. rewrite Z.sgn_opp.
  replace (Z.abs_N (- p)) with (Z.abs_N p) by (symmetry; apply Zabs2N.inj_opp).
  lia.
Qed.

Lemma round_z_zero q : round_z 0 q = 0.
Proof. reflexivity. Qed.

Lemma round_z_nonneg p q : 0 <= p -> 0 <= round_z p q.
Proof.
  intros H. unfold round_z. destruct (Z.eq_dec p 0) as [->|N]; [reflexivity|].
  rewrite Z.sgn_pos by lia. lia.
Qed.

Lemma round_z_mono_pos p p' q :
  0 < q -> 0 <= p <= p' -> round_z p q <= round_z p' q.
Proof.
  intros Hq [H0 Hle]. destruct (Z.eq_dec p 0) as [->|N].
  - rewrite round_z_zero. apply round_z_nonneg. lia.
  - unfold round_z. rewrite !Z.sgn_pos by lia. rewrite !Z.mul_1_l.
    apply N2Z.inj_le. apply round_q_mono; [reflexivity | lia | lia].
Qed.

(** Rounding keeps the order. *)
Lemma round_z_mono p p' q : 0 < q -> p <= p' -> round_z p q <= round_z p' q.
Proof.
  intros Hq Hle.
  destruct (Z.le_gt_cases 0 p) as [H0|H0]; [now apply round_z_mono_pos|].
  destruct (Z.le_gt_cases 0 p') as [H0'|H0'].
  - pose proof (round_z_nonneg p' q H0').
    pose proof (round_z_nonneg (- p) q ltac:(lia)) as Hn.
    rewrite round_z_opp in Hn. lia.
  - pose proof (round_z_mono_pos (- p') (- p) q Hq ltac:(lia)) as Hm.
    rewrite !round_z_opp in Hm. lia.
Qed.

(** What [get_audio_array] does to one sample of a segment of [w] bytes per
    sample. *)
Definition normalize (w : N) (x : Z) : Z :=
  f32_div (f32_of_int x) (f32_of_int (Z.shiftl 1 (8 * Z.of_N w - 1))).

Lemma amplitude_pos w : (1 <= w)%N -> 0 < f32_of_int (Z.shiftl 1 (8 * Z.of_N w - 1)).
Proof.
  intros Hw. rewrite Z.shiftl_1_l.
  replace (8 * Z.of_N w - 1) with (Z.of_N (8 * w - 1)) by lia.
  rewrite AudioFacts.f32_of_int_pow2.
  assert (0 < 2 ^ Z.of_N (8 * w - 1)) by (apply Z.pow_pos_nonneg; lia).
  assert (0 < U32) by reflexivity. nia.
Qed.

Lemma normalize_mono w x y : (1 <= w)%N -> x <= y -> normalize w x <= normalize w y.
Proof.
  intros Hw Hle. unfold normalize, f32_div.
  apply round_z_mono; [now apply amplitude_pos|].
  assert (0 < U32) by reflexivity.
  apply Z.mul_le_mono_nonneg_r; [lia|].
  unfold f32_of_int. apply round_z_mono; [lia | nia].
Qed.

Lemma normalize_opp w x : normalize w (- x) = - normalize w x.
Proof.
  unfold normalize, f32_div, f32_of_int.
  replace (- x * U32) with (- (x * U32)) by lia. rewrite round_z_opp.
  replace (- round_z (x * U32) 1 * U32) with (- (round_z (x * U32) 1 * U32)) by lia.
  apply round_z_opp.
Qed.

Lemma get_audio_array_map audio buffer :
  get_audio_array audio = Ok buffer ->
  (sample_width audio = 1 \/ sample_width audio = 2 \/ sample_width audio = 4)%N
  /\ buffer = map (normalize (sample_width audio)) (pcm audio).
Proof.
  unfold get_audio_array, get_array_of_samples.
  destruct (N.eqb_spec (sample_width audio) 1) as [E1|N1]; cbn [orb].
  { cbn [bind]. intros [= <-]. split; [now left|]. now rewrite map_map. }
  destruct (N.eqb_spec (sample_width audio) 2) as [E2|N2]; cbn [orb].
  { cbn [bind]. intros [= <-]. split; [right; now left|]. now rewrite map_map. }
  destruct (N.eqb_spec (sample_width audio) 4) as [E4|N4]; cbn [orb].
  { cbn [bind]. intros [= <-]. split; [right; now right|]. now rewrite map_map. }
  discriminate.
Qed.

End WaveFacts.



(** ** cli.py: paths and formats *)

Module CliFacts.

Import StrFacts Cli.

Local Open Scope string_scope.

(** *** Splitting at commas *)

Lemma split_on_nonempty sep s : split_on sep s <> [].
Proof.
  destruct s as [|c s]; cbn [split_on]; [discriminate|].
  destruct (Ascii.eqb c sep); [discriminate|].
  destruct (split_on sep s); discriminate.
Qed.

Lemma split_on_cons sep c s :
  Ascii.eqb c sep = false ->
  exists piece pieces,
    split_on sep s = piece :: pieces
    /\ split_on sep (String c s) = String c piece :: pieces.
Proof.
  intros H. cbn [split_on]. rewrite H.
  destruct (split_on sep s) as [|piece pieces] eqn:E.
  - now destruct (split_on_nonempty sep s).
  - now exists piece, pieces.
Qed.

Lemma split_on_join sep s : join (String sep "") (split_on sep s) = s.
Proof.
  induction s as [|c s IH]; [reflexivity|].
  destruct (Ascii.eqb c sep) eqn:E.
  - cbn [split_on]. rewrite E. apply Ascii.eqb_eq in E. subst c.
    destruct (split_on sep s) as [|piece pieces] eqn:Es.
    + now destruct (split_on_nonempty sep s).
    + rewrite join_cons2, IH. now rewrite append_nil_l, append_cons, append_nil_l.
  - destruct (split_on_cons sep c s E) as (piece & pieces & Es & ->).
    rewrite Es in IH. destruct pieces as [|p2 rest].
    + cbn [join] in *. now rewrite IH.
    + rewrite join_cons2 in *. now rewrite append_cons, IH.
Qed.

Lemma split_on_length sep s : length (split_on sep s) = S (count_char sep s).
Proof.
  induction s as [|c s IH]; [reflexivity|].
  cbn [count_char]. destruct (Ascii.eqb c sep) eqn:E.
  - cbn [split_on]. rewrite E. cbn [length]. now rewrite IH.
  - destruct (split_on_cons sep c s E) as (piece & pieces & Es & ->).
    rewrite Es in IH. cbn [length] in *. now rewrite IH.
Qed.

Lemma split_on_pieces sep s :
  Forall (fun piece => contains sep piece = false) (split_on sep s).
Proof.
  induction s as [|c s IH]; [now repeat constructor|].
  destruct (Ascii.eqb c sep) eqn:E.
  - cbn [split_on]. rewrite E. now constructor.
  - destruct (split_on_cons sep c s E) as (piece & pieces & Es & ->).
    rewrite Es in IH. apply List.Forall_cons_iff in IH. destruct IH as [Hp Hr].
    constructor; [|exact Hr]. cbn [contains]. now rewrite E, Hp.
Qed.

(** *** Characters and positions *)

Lemma contains_app c a b : contains c (a ++ b) = contains c a || contains c b.
Proof.
  induction a as [|x a IH]; [now rewrite append_nil_l|].
  rewrite append_cons. cbn [contains]. now rewrite IH, orb_assoc.
Qed.

Lemma rfind_lt c s : (-1 <= rfind c s < Z.of_nat (String.length s))%Z.
Proof.
  induction s as [|x s IH]; [cbn; lia|].
  cbn [rfind String.length]. cbv zeta.
  destruct (0 <=? rfind c s)%Z eqn:E; [apply Z.leb_le in E; lia|].
  destruct (Ascii.eqb x c); lia.
Qed.

Lemma rfind_contains c s : (0 <=? rfind c s)%Z = contains c s.
Proof.
  induction s as [|x s IH]; [reflexivity|].
  cbn [rfind contains]. cbv zeta. rewrite <- IH.
  destruct (0 <=? rfind c s)%Z eqn:E.
  - rewrite orb_true_r. apply Z.leb_le. apply Z.leb_le in E. lia.
  - rewrite orb_false_r. now destruct (Ascii.eqb x c).
Qed.

(** The last occurrence in [a ++ b] is the one in [b], if there is one. *)
Lemma rfind_app c a b :
  rfind c (a ++ b)
  = if contains c b then (Z.of_nat (String.length a) + rfind c b)%Z else rfind c a.
Proof.
  induction a as [|x a IH].
  - rewrite append_nil_l. cbn [String.length rfind].
    destruct (contains c b) eqn:E; [lia|].
    rewrite <- rfind_contains in E. apply Z.leb_gt in E.
    pose proof (rfind_lt c b). lia.
  - rewrite append_cons. cbn [rfind String.length]. cbv zeta. rewrite IH.
    destruct (contains c b) eqn:E; [|reflexivity].
    rewrite <- rfind_contains in E. apply Z.leb_le in E.
    destruct (0 <=? Z.of_nat (String.length a) + rfind c b)%Z eqn:E2; [lia|].
    apply Z.leb_gt in E2. lia.
Qed.

Lemma rfind_split c s :
  (0 <= rfind c s)%Z ->
  exists pre post,
    s = pre ++ String c post /\ contains c post = false
    /\ rfind c s = Z.of_nat (String.length pre).
Proof.
  induction s as [|x s IH]; [cbn; lia|].
  cbn [rfind]. cbv zeta. destruct (0 <=? rfind c s)%Z eqn:E.
  - intros _. apply Z.leb_le in E. destruct (IH E) as (pre & post & -> & Hp & Hr).
    exists (String x pre), post. rewrite append_cons. split; [reflexivity|].
    split; [exact Hp|]. cbn [String.length]. lia.
  - destruct (Ascii.eqb_spec x c) as [->|N]; [|lia]. intros _.
    exists "", s. rewrite append_nil_l. split; [reflexivity|]. split; [|reflexivity].
    rewrite <- rfind_contains. exact E.
Qed.

Lemma substring_skip (a s : string) m :
  substring (String.length a) m (a ++ s) = substring 0 m s.
Proof.
  induction a as [|x a IH]; [now rewrite append_nil_l|].
  rewrite append_cons. cbn [String.length substring]. exact IH.
Qed.

(** The slice of [a ++ b ++ c] between the ends of [a] and of [b] is [b]. *)
Lemma slice_middle (a b c : string) :
  slice (a ++ b ++ c) (Z.of_nat (String.length a))
    (Z.of_nat (String.length a + String.length b)) = b.
Proof.
  unfold slice. rewrite !length_append.
  set (la := String.length a). set (lb := String.length b). set (lc := String.length c).
  assert (E1 : (Z.of_nat la <? 0)%Z = false) by (apply Z.ltb_ge; lia).
  assert (E2 : (Z.of_nat (la + lb) <? 0)%Z = false) by (apply Z.ltb_ge; lia).
  rewrite E1, E2.
  replace (Z.min (Z.of_nat la) (Z.of_nat (la + (lb + lc)))) with (Z.of_nat la) by lia.
  replace (Z.min (Z.of_nat (la + lb)) (Z.of_nat (la + (lb + lc))) - Z.of_nat la)%Z
    with (Z.of_nat lb) by lia.
  rewrite !Nat2Z.id. unfold la. rewrite substring_skip.
  apply LanguageFacts.substring_0_app.
Qed.

Lemma slice_prefix (a b : string) :
  slice (a ++ b) 0 (Z.of_nat (String.length a)) = a.
Proof.
  pose proof (slice_middle "" a b) as H.
  now rewrite append_nil_l in H.
Qed.

Lemma slice_suffix (a b : string) :
  slice (a ++ b) (Z.of_nat (String.length a)) (Z.of_nat (String.length (a ++ b))) = b.
Proof.
  pose proof (slice_middle a b "") as H.
  rewrite append_nil_r in H. now rewrite length_append.
Qed.

(** *** [splitext] *)

(** What is split off is nothing, or a dot and what follows it, in which
    there is no dot and no slash. *)
Lemma splitext_sound p :
  p = fst (splitext p) ++ snd (splitext p)
  /\ (snd (splitext p) = ""
      \/ exists post,
           snd (splitext p) = String "." post
           /\ contains "." post = false /\ contains "/" post = false).
Proof.
  unfold splitext. cbv zeta.
  destruct (rfind "/" p <? rfind "." p)%Z eqn:Elt; cbn [andb];
    [|cbn [fst snd]; split; [now rewrite append_nil_r | now left]].
  destruct (negb _); cbn [fst snd];
    [|split; [now rewrite append_nil_r | now left]].
  apply Z.ltb_lt in Elt.
  assert (H0 : (0 <= rfind "." p)%Z) by (pose proof (rfind_lt "/" p); lia).
  destruct (rfind_split "." p H0) as (pre & post & E & Hdot & Hr).
  rewrite Hr. clear H0. subst p.
  rewrite slice_prefix, slice_suffix.
  split; [reflexivity|]. right. exists post. split; [reflexivity|]. split; [exact Hdot|].
  destruct (contains "/" post) eqn:Hs; [|reflexivity].
  rewrite Hr, rfind_app in Elt.
  assert (Hc : contains "/" (String "." post) = true).
  { cbn [contains]. rewrite Hs. apply orb_true_r. }
  rewrite Hc in Elt.
  rewrite <- rfind_contains in Hs.
  assert (Hr2 : rfind "/" (String "." post) = (rfind "/" post + 1)%Z).
  { cbn [rfind]. cbv zeta. now rewrite Hs. }
  rewrite Hr2 in Elt. apply Z.leb_le in Hs. lia.
Qed.

Lemma rfind_dir dir name :
  is_dir_prefix dir -> contains "/" name = false ->
  (rfind "/" (dir ++ name) + 1 = Z.of_nat (String.length dir))%Z.
Proof.
  intros Hd Hn. rewrite rfind_app, Hn. destruct Hd as [->|[parent ->]]; [reflexivity|].
  rewrite rfind_app. cbn [contains]. rewrite Ascii.eqb_refl. cbn [orb].
  rewrite length_append. cbn [rfind String.length]. cbv zeta.
  rewrite Ascii.eqb_refl. cbn. lia.
Qed.

(** A last component [name.post] with something other than dots in [name]
    loses [.post]. *)
Lemma splitext_complete dir name post :
  is_dir_prefix dir -> contains "/" name = false ->
  all_chars (Ascii.eqb ".") name = false ->
  contains "." post = false -> contains "/" post = false ->
  splitext (dir ++ name ++ String "." post) = (dir ++ name, String "." post).
Proof.
  intros Hd Hn Hdots Hp1 Hp2. unfold splitext. cbv zeta.
  assert (Edot : rfind "." (dir ++ name ++ String "." post)
                 = Z.of_nat (String.length (dir ++ name))).
  { rewrite <- append_assoc, rfind_app. cbn [contains]. rewrite Ascii.eqb_refl.
    cbn [orb rfind]. cbv zeta.
    rewrite <- rfind_contains in Hp1. rewrite Hp1, Ascii.eqb_refl. lia. }
  assert (Esep : (rfind "/" (dir ++ name ++ String "." post) + 1
                  = Z.of_nat (String.length dir))%Z).
  { rewrite <- (rfind_dir dir name Hd Hn).
    rewrite <- append_assoc, rfind_app. cbn [contains].
    change (Ascii.eqb "." "/") with false. cbn [orb]. now rewrite Hp2. }
  rewrite Edot.
  replace (rfind "/" (dir ++ name ++ String "." post))
    with (Z.of_nat (String.length dir) - 1)%Z by lia.
  rewrite length_append.
  assert (Hlen : (0 < String.length name)%nat).
  { destruct name; [discriminate Hdots | cbn; lia]. }
  assert (Elt : (Z.of_nat (String.length dir) - 1
                 <? Z.of_nat (String.length dir + String.length name))%Z = true)
    by (apply Z.ltb_lt; lia).
  rewrite Elt. cbn [andb].
  replace (Z.of_nat (String.length dir) - 1 + 1)%Z with (Z.of_nat (String.length dir))
    by lia.
  rewrite slice_middle, Hdots. cbn [negb].
  f_equal.
  - rewrite <- length_append, <- append_assoc. apply slice_prefix.
  - rewrite <- length_append.
    replace (dir ++ name ++ String "." post) with ((dir ++ name) ++ String "." post)
      by apply append_assoc.
    apply slice_suffix.
Qed.

(** A last component without a dot loses nothing. *)
Lemma splitext_no_dot dir name :
  is_dir_prefix dir -> contains "/" name = false -> contains "." name = false ->
  splitext (dir ++ name) = (dir ++ name, "").
Proof.
  intros Hd Hn Hdot. unfold splitext. cbv zeta.
  pose proof (rfind_dir dir name Hd Hn) as Esep.
  assert (Edot : (rfind "." (dir ++ name) < Z.of_nat (String.length dir))%Z).
  { rewrite rfind_app, Hdot. apply rfind_lt. }
  assert (Elt : (rfind "/" (dir ++ name) <? rfind "." (dir ++ name))%Z = false).
  { destruct (rfind "/" (dir ++ name) <? rfind "." (dir ++ name))%Z eqn:E;
      [|reflexivity].
    apply Z.ltb_lt in E.
    destruct Hd as [->|[parent ->]].
    - rewrite append_nil_l in *. rewrite <- rfind_contains in Hdot.
      apply Z.leb_gt in Hdot. pose proof (rfind_lt "/" name). lia.
    - lia. }
  now rewrite Elt.
Qed.

End CliFacts.


(** X13. [get_output_path] takes the output path when one is given and is
    not empty, and the input path otherwise, and drops at most its last
    extension: what it drops is nothing, or a dot followed by characters
    among which there is no dot and no slash.  A last component [name.post]
    whose [name] is not made of dots alone loses [.post]; a last component
    without a dot loses nothing. *)
Theorem get_output_path_drops_last_extension
    (input_path : string) (output_path : option string) :
  let chosen := match output_path with
                | Some (String c o) => String c o
                | _ => input_path
                end in
  (exists ext,
     chosen = (Cli.get_output_path input_path output_path ++ ext)%string
     /\ (ext = ""%string
         \/ exists post,
              ext = String "." post
              /\ contains "." post = false /\ contains "/" post = false))
  /\ (forall dir name post,
        chosen = (dir ++ name ++ String "." post)%string ->
        is_dir_prefix dir -> contains "/" name = false ->
        all_chars (Ascii.eqb ".") name = false ->
        contains "." post = false -> contains "/" post = false ->
        Cli.get_output_path input_path output_path = (dir ++ name)%string)
  /\ (forall dir name,
        chosen = (dir ++ name)%string ->
        is_dir_prefix dir -> contains "/" name = false -> contains "." name = false ->
        Cli.get_output_path input_path output_path = chosen).
Proof.
  intros chosen.
  assert (E : Cli.get_output_path input_path output_path = fst (Cli.splitext chosen)).
  { unfold Cli.get_output_path, chosen. now destruct output_path as [[|c o]|]. }
  rewrite E. clearbody chosen. split; [|split].
  - exists (snd (Cli.splitext chosen)). apply CliFacts.splitext_sound.
  - intros dir name post -> Hd Hn Hdots Hp1 Hp2.
    now rewrite CliFacts.splitext_complete.
  - intros dir name -> Hd Hn Hdot. now rewrite CliFacts.splitext_no_dot.
Qed.

(** ** audio.py: files *)

Module AudioIoFacts.

Import StrFacts AudioIo CliFacts LanguageFacts.

Local Open Scope string_scope.

(** *** Paths *)

Lemma basename_no_slash p : contains "/" (PosixPath.basename p) = false.
Proof.
  unfold PosixPath.basename.
  destruct (0 <=? Cli.rfind "/" p)%Z eqn:E.
  - apply Z.leb_le in E. destruct (rfind_split "/" p E) as (pre & post & -> & Hp & Hr).
    rewrite Hr.
    replace (Z.of_nat (String.length pre) + 1)%Z
      with (Z.of_nat (String.length (pre ++ "/"))).
    2:{ rewrite length_append. cbn [String.length]. lia. }
    replace (pre ++ String "/" post) with ((pre ++ "/") ++ post).
    2:{ now rewrite append_assoc, append_cons, append_nil_l. }
    now rewrite slice_suffix.
  - apply Z.leb_gt in E. pose proof (rfind_lt "/" p) as B.
    replace (Cli.rfind "/" p + 1)%Z with (Z.of_nat (String.length "")) by (cbn; lia).
    pose proof (slice_suffix "" p) as H. rewrite append_nil_l in H. rewrite H.
    rewrite <- rfind_contains. apply Z.leb_gt. lia.
Qed.

Lemma last_char_app a c b : last_char (a ++ String c b) = last_char (String c b).
Proof.
  induction a as [|x a IH]; [now rewrite append_nil_l|].
  rewrite append_cons.
  assert (H : exists y t, a ++ String c b = String y t).
  { destruct a; [rewrite append_nil_l | rewrite append_cons]; eauto. }
  destruct H as (y & t & E). rewrite E.
  change (last_char (String x (String y t))) with (last_char (String y t)).
  rewrite <- E. exact IH.
Qed.

Lemma ends_with_last c s : ends_with (String c "") s = true -> last_char s = Some c.
Proof.
  intros H. apply ends_with_spec in H. destruct H as (pre & ->).
  now rewrite last_char_app.
Qed.

Lemma prefix_slash s : String.prefix "/" s = true -> contains "/" s = true.
Proof.
  destruct s as [|x s]; [discriminate|]. rewrite prefix_cons.
  intros H. apply andb_prop in H. destruct H as [H _].
  cbn [contains]. now rewrite Ascii.eqb_sym, H.
Qed.

(** The fallback path is the directory [audio] of the working directory,
    a slash, and the last component of the path. *)
Lemma alternative_path cwd p :
  PosixPath.join (PosixPath.join cwd "audio") (PosixPath.basename p)
  = PosixPath.join cwd "audio" ++ "/" ++ PosixPath.basename p.
Proof.
  pose proof (basename_no_slash p) as Hb.
  unfold PosixPath.join at 1.
  destruct (String.prefix "/" (PosixPath.basename p)) eqn:Ep.
  { apply prefix_slash in Ep. congruence. }
  assert (Hl : last_char (PosixPath.join cwd "audio") = Some "o"%char).
  { unfold PosixPath.join. change (String.prefix "/" "audio") with false. cbv iota.
    destruct (String.eqb cwd "" || ends_with "/" cwd).
    - now rewrite (last_char_app cwd "a" "udio").
    - change (cwd ++ "/" ++ "audio") with (cwd ++ String "/" "audio").
      now rewrite (last_char_app cwd "/" "audio"). }
  destruct (String.eqb_spec (PosixPath.join cwd "audio") "") as [E|_].
  { rewrite E in Hl. discriminate Hl. }
  destruct (ends_with "/" (PosixPath.join cwd "audio")) eqn:Ee.
  { apply ends_with_last in Ee. rewrite Ee in Hl. discriminate Hl. }
  reflexivity.
Qed.

End AudioIoFacts.

(** ** The audio stage and the cleanup *)

Module StageFacts.

Import StrFacts AudioIo AudioIoFacts AudioFacts.

Local Open Scope string_scope.

Section Os.

Variable World : Type.
Variable resolve : World -> string -> string.
Variable path_exists : World -> string -> bool.
Variable getcwd : World -> string.
Variable from_file : World -> string -> Audio.AudioSegment + string.
Variable duration_text : Audio.AudioSegment -> string.
Variable named_temporary_file : World -> World * (string + string).
Variable export : World -> Audio.AudioSegment -> string -> World * option string.
Variable unlink : World -> string -> World * option string.
Variable downmix : Audio.AudioSegment -> positive -> list Z.
Variable resample : Audio.AudioSegment -> N -> list Z.

Definition decoded (w : World) (p : string) : result Audio.AudioSegment :=
  match from_file w p with
  | inl audio => Done audio
  | inr what => Fail (Exn (ValueError ("Failed to load audio file: " ++ what)))
  end.

Lemma load_audio_located w file_path p log :
  locate World resolve path_exists getcwd w file_path = (Done p, log) ->
  fst (load_audio World resolve path_exists getcwd from_file duration_text w file_path)
  = decoded w p.
Proof.
  intros H. unfold load_audio, decoded. rewrite H. now destruct (from_file w p).
Qed.

Lemma load_audio_missing w file_path e log :
  locate World resolve path_exists getcwd w file_path = (Fail e, log) ->
  load_audio World resolve path_exists getcwd from_file duration_text w file_path
  = (Fail e, log).
Proof. intros H. unfold load_audio. now rewrite H. Qed.

Lemma preprocess_mono audio :
  let p := fst (Audio.preprocess_audio downmix resample audio) in
  Audio.channels p = 1%positive /\ Audio.frame_rate p = Audio.SAMPLE_RATE.
Proof.
  intros p. unfold p, Audio.preprocess_audio.
  destruct (Pos.ltb_spec 1 (Audio.channels audio)) as [L|G].
  - destruct (N.eqb_spec (Audio.frame_rate (Audio.set_channels downmix audio 1))
                Audio.SAMPLE_RATE) as [E|NE]; cbn [negb fst].
    + split; [apply set_channels_channels | exact E].
    + split; [|apply set_frame_rate_rate].
      rewrite set_frame_rate_channels. apply set_channels_channels.
  - assert (E1 : Audio.channels audio = 1%positive) by lia.
    destruct (N.eqb_spec (Audio.frame_rate audio) Audio.SAMPLE_RATE) as [E|NE];
      cbn [negb fst].
    + split; assumption.
    + split; [|apply set_frame_rate_rate].
      now rewrite set_frame_rate_channels.
Qed.

(** What a successful [process_audio_file] went through. *)
Lemma process_audio_file_done w file_path audio_array temp_file w' log :
  process_audio_file World resolve path_exists getcwd from_file duration_text
    named_temporary_file export downmix resample w file_path
  = (Done (audio_array, temp_file), w', log) ->
  exists audio w1,
    fst (load_audio World resolve path_exists getcwd from_file duration_text w file_path)
    = Done audio
    /\ named_temporary_file w = (w1, inl temp_file)
    /\ export w1 (fst (Audio.preprocess_audio downmix resample audio)) temp_file
       = (w', None)
    /\ Audio.get_audio_array (fst (Audio.preprocess_audio downmix resample audio))
       = Ok audio_array.
Proof.
  unfold process_audio_file, save_temp_audio.
  destruct (load_audio _ _ _ _ _ _ w file_path) as [[audio|e] log0]; [|discriminate].
  destruct (Audio.preprocess_audio downmix resample audio) as [p log2] eqn:Ep.
  destruct (named_temporary_file w) as [w1 [name|what]]; [|discriminate].
  destruct (export w1 p name) as [w2 [what|]] eqn:Ex; [discriminate|].
  destruct (Audio.get_audio_array p) as [arr|e] eqn:Ea; [|discriminate].
  intros H. injection H as H1 H2 H3 H4. subst.
  exists audio, w1. rewrite Ep. cbn [fst].
  split; [reflexivity|]. split; [reflexivity|]. split; [exact Ex | exact Ea].
Qed.

(** When the conversion to an array raises, the temporary file has been
    made and written, and stays. *)
Lemma process_audio_file_leaves_temp w file_path audio w1 name w2 e :
  fst (load_audio World resolve path_exists getcwd from_file duration_text w file_path)
  = Done audio ->
  named_temporary_file w = (w1, inl name) ->
  export w1 (fst (Audio.preprocess_audio downmix resample audio)) name = (w2, None) ->
  Audio.get_audio_array (fst (Audio.preprocess_audio downmix resample audio)) = Raise e ->
  fst (process_audio_file World resolve path_exists getcwd from_file duration_text
         named_temporary_file export downmix resample w file_path)
  = (Fail (Exn e), w2).
Proof.
  intros Hl Ht Hx Ha. unfold process_audio_file, save_temp_audio.
  destruct (load_audio _ _ _ _ _ _ w file_path) as [[audio'|e'] log0];
    cbn [fst] in Hl; [|discriminate Hl].
  injection Hl as ->.
  destruct (Audio.preprocess_audio downmix resample audio) as [p log2] eqn:Ep.
  cbn [fst] in Hx, Ha. now rewrite Ht, Hx, Ha.
Qed.

(** [unlink] removes what it says it removed. *)
Definition unlink_removes : Prop :=
  forall w p w', unlink w p = (w', None) -> path_exists w' p = false.

Lemma cleanup_removes_or_warns w p :
  unlink_removes -> p <> "" ->
  let out := cleanup_temp_file World path_exists unlink w (Some p) in
  path_exists (fst out) p = false
  \/ exists what,
       snd out = [(WARNING, "Failed to remove temporary file " ++ p ++ ": " ++ what)].
Proof.
  intros law Hp out. subst out. unfold cleanup_temp_file.
  destruct p as [|c rest]; [now elim Hp|].
  destruct (path_exists w (String c rest)) eqn:Ee; [|left; exact Ee].
  destruct (unlink w (String c rest)) as [w' [what|]] eqn:Eu; cbn [fst snd].
  - right. now exists what.
  - left. now apply (law w _ w').
Qed.

Lemma cleanup_noop w temp :
  (temp = None \/ temp = Some "" \/ exists p, temp = Some p /\ path_exists w p = false) ->
  cleanup_temp_file World path_exists unlink w temp = (w, []).
Proof.
  intros [->|[->|(p & -> & H)]]; [reflexivity | reflexivity|].
  unfold cleanup_temp_file. destruct p; [reflexivity|]. now rewrite H.
Qed.

End Os.

(** The toy system keeps the law. *)
Lemma toy_unlink_removes : unlink_removes ToyOs.World ToyOs.path_exists ToyOs.unlink.
Proof.
  intros w p w' H. unfold ToyOs.unlink in H. injection H as <-.
  unfold ToyOs.path_exists. induction w as [|q w IH]; [reflexivity|].
  cbn [List.filter]. destruct (String.eqb p q) eqn:E; cbn [negb]; [exact IH|].
  cbn [existsb]. now rewrite E, IH.
Qed.

End StageFacts.

(** X14. [load_audio] reads the resolved path when it exists, without
    looking further; otherwise it reads the file of the same name in the
    directory [audio] of the working directory, when that exists; and it
    raises [FileNotFoundError], with a message that names the resolved path,
    exactly when neither exists.  What cannot be decoded is reported as a
    [ValueError] that quotes the decoder. *)
Theorem load_audio_locates (World : Type)
    (resolve : World -> string -> string) (path_exists : World -> string -> bool)
    (getcwd : World -> string)
    (from_file : World -> string -> Audio.AudioSegment + string)
    (duration_text : Audio.AudioSegment -> string)
    (w : World) (file_path : string) :
  let path := resolve w file_path in
  let alternative :=
    (PosixPath.join (getcwd w) "audio" ++ "/" ++ PosixPath.basename path)%string in
  let out := fst (AudioIo.load_audio World resolve path_exists getcwd from_file
                    duration_text w file_path) in
  let decoded p :=
    match from_file w p with
    | inl audio => AudioIo.Done audio
    | inr what =>
        AudioIo.Fail
          (AudioIo.Exn (ValueError ("Failed to load audio file: " ++ what)%string))
    end in
  contains "/" (PosixPath.basename path) = false
  /\ (path_exists w path = true -> out = decoded path)
  /\ (path_exists w path = false -> path_exists w alternative = true ->
      out = decoded alternative)
  /\ ((exists msg, out = AudioIo.Fail (AudioIo.FileNotFoundError msg))
      <-> path_exists w path = false /\ path_exists w alternative = false)
  /\ (forall msg,
        out = AudioIo.Fail (AudioIo.FileNotFoundError msg) ->
        msg = ("Audio file not found: " ++ path)%string).
Proof.
  intros path alternative out decoded.
  assert (Hd : forall p, decoded p = StageFacts.decoded World from_file w p)
    by reflexivity.
  assert (Hnf : forall p msg, decoded p <> AudioIo.Fail (AudioIo.FileNotFoundError msg)).
  { intros p msg. unfold decoded. now destruct (from_file w p). }
  split; [apply AudioIoFacts.basename_no_slash|].
  pose proof (fun p log => StageFacts.load_audio_located World resolve path_exists
                getcwd from_file duration_text w file_path p log) as Hfound.
  pose proof (fun e log => StageFacts.load_audio_missing World resolve path_exists
                getcwd from_file duration_text w file_path e log) as Hmissing.
  unfold AudioIo.locate in Hfound, Hmissing. cbv zeta in Hfound, Hmissing.
  rewrite AudioIoFacts.alternative_path in Hfound, Hmissing.
  fold path in Hfound, Hmissing. fold alternative in Hfound, Hmissing.
  fold out in Hfound. 
  destruct (path_exists w path) eqn:E1.
  - assert (Ho : out = decoded path) by (rewrite Hd; now eapply Hfound).
    split; [now intros _|]. split; [discriminate|]. split.
    + split; [|now intros [H _]]. intros [msg H]. rewrite Ho in H.
      now destruct (Hnf path msg).
    + intros msg H. rewrite Ho in H. now destruct (Hnf path msg).
  - destruct (path_exists w alternative) eqn:E2.
    + assert (Ho : out = decoded alternative) by (rewrite Hd; now eapply Hfound).
      split; [discriminate|]. split; [now intros _ _|]. split.
      * split; [|now intros [_ H]]. intros [msg H]. rewrite Ho in H.
        now destruct (Hnf alternative msg).
      * intros msg H. rewrite Ho in H. now destruct (Hnf alternative msg).
    + assert (Ho : out = AudioIo.Fail
                           (AudioIo.FileNotFoundError
                              ("Audio file not found: " ++ path)%string)).
      { unfold out. now erewrite Hmissing. }
      split; [discriminate|]. split; [discriminate|]. split.
      * split; [now intros _ | intros _; eexists; exact Ho].
      * intros msg H. rewrite Ho in H. now injection H as <-.
Qed.

(** X15. When [process_audio_file] returns, the array and the temporary
    file come from the same segment: the loaded audio after
    [preprocess_audio], which has one channel and 16000 frames a second; the
    array has one value for each of its samples and the file was created and
    then written with it.  When the conversion to an array raises instead
    (a sample width that pydub has no array for), the temporary file has been
    created and written already and is left behind. *)
Theorem process_audio_file_stages (World : Type)
    (resolve : World -> string -> string) (path_exists : World -> string -> bool)
    (getcwd : World -> string)
    (from_file : World -> string -> Audio.AudioSegment + string)
    (duration_text : Audio.AudioSegment -> string)
    (named_temporary_file : World -> World * (string + string))
    (export : World -> Audio.AudioSegment -> string -> World * option string)
    (downmix : Audio.AudioSegment -> positive -> list Z)
    (resample : Audio.AudioSegment -> N -> list Z)
    (w : World) (file_path : string) :
  let run := AudioIo.process_audio_file World resolve path_exists getcwd from_file
               duration_text named_temporary_file export downmix resample w file_path in
  let loaded := fst (AudioIo.load_audio World resolve path_exists getcwd from_file
                       duration_text w file_path) in
  (forall audio_array temp_file w' log,
     run = (AudioIo.Done (audio_array, temp_file), w', log) ->
     exists audio w1,
       let processed := fst (Audio.preprocess_audio downmix resample audio) in
       loaded = AudioIo.Done audio
       /\ Audio.channels processed = 1%positive
       /\ Audio.frame_rate processed = 16000%N
       /\ Audio.get_audio_array processed = Ok audio_array
       /\ length audio_array = length (Audio.pcm processed)
       /\ named_temporary_file w = (w1, inl temp_file)
       /\ export w1 processed temp_file = (w', None))
  /\ (forall audio w1 temp_file w2 e,
        let processed := fst (Audio.preprocess_audio downmix resample audio) in
        loaded = AudioIo.Done audio ->
        named_temporary_file w = (w1, inl temp_file) ->
        export w1 processed temp_file = (w2, None) ->
        Audio.get_audio_array processed = Raise e ->
        fst run = (AudioIo.Fail (AudioIo.Exn e), w2)).
Proof.
  intros run loaded. split.
  - intros audio_array temp_file w' log H.
    destruct (StageFacts.process_audio_file_done _ _ _ _ _ _ _ _ _ _ _ _ _ _ _ _ H)
      as (audio & w1 & Hl & Ht & Hx & Ha).
    exists audio, w1. cbv zeta.
    destruct (StageFacts.preprocess_mono downmix resample audio) as [Hc Hr].
    split; [exact Hl|]. split; [exact Hc|]. split; [exact Hr|]. split; [exact Ha|].
    split; [|now split].
    apply WaveFacts.get_audio_array_map in Ha. destruct Ha as [_ ->].
    apply length_map.
  - intros audio w1 temp_file w2 e processed Hl Ht Hx Ha.
    now apply (StageFacts.process_audio_file_leaves_temp _ _ _ _ _ _ _ _ _ _ _ _
                 audio w1 temp_file w2 e).
Qed.

(** X16. [cleanup_temp_file] does nothing, and does not ask for a removal,
    when the path is [None], empty, or the path of no file.  And when
    [unlink] removes what it reports as removed, then after the cleanup of a
    path that is not empty the file does not exist, or a warning that names
    it was logged. *)
Theorem cleanup_temp_file_removes_or_warns (World : Type)
    (path_exists : World -> string -> bool)
    (unlink : World -> string -> World * option string)
    (w : World) (temp_file_path : option string) :
  (forall w p w', unlink w p = (w', None) -> path_exists w' p = false) ->
  let out := AudioIo.cleanup_temp_file World path_exists unlink w temp_file_path in
  ((temp_file_path = None \/ temp_file_path = Some ""%string
    \/ exists p, temp_file_path = Some p /\ path_exists w p = false) ->
   out = (w, []))
  /\ (forall p,
        temp_file_path = Some p -> p <> ""%string ->
        path_exists (fst out) p = false
        \/ exists what,
             snd out = [(WARNING, ("Failed to remove temporary file " ++ p ++ ": "
                                   ++ what)%string)]).
Proof.
  intros law out. split.
  - apply StageFacts.cleanup_noop.
  - intros p -> Hp. now apply StageFacts.cleanup_removes_or_warns.
Qed.

(** X16, used once: the toy system, where the file exists and is removed. *)
Lemma cleanup_temp_file_removes_or_warns_witness :
  AudioIo.cleanup_temp_file ToyOs.World ToyOs.path_exists ToyOs.unlink
    ["/tmp/t.wav"; "/work/a.wav"]%string (Some "/tmp/t.wav"%string)
  = (["/work/a.wav"]%string, [(DEBUG, "Removed temporary file: /tmp/t.wav"%string)])
  /\ (forall p,
        Some "/tmp/t.wav"%string = Some p -> p <> ""%string ->
        ToyOs.path_exists
          (fst (AudioIo.cleanup_temp_file ToyOs.World ToyOs.path_exists ToyOs.unlink
                  ["/tmp/t.wav"; "/work/a.wav"]%string (Some "/tmp/t.wav"%string))) p
        = false
        \/ exists what,
             snd (AudioIo.cleanup_temp_file ToyOs.World ToyOs.path_exists ToyOs.unlink
                    ["/tmp/t.wav"; "/work/a.wav"]%string (Some "/tmp/t.wav"%string))
             = [(WARNING, ("Failed to remove temporary file " ++ p ++ ": "
                           ++ what)%string)]).
Proof.
  split; [reflexivity|].
  exact (proj2 (cleanup_temp_file_removes_or_warns ToyOs.World ToyOs.path_exists
                  ToyOs.unlink ["/tmp/t.wav"; "/work/a.wav"]%string
                  (Some "/tmp/t.wav"%string) StageFacts.toy_unlink_removes)).
Defined.

(** ** cli.py: one file *)

Module SingleFacts.

Import StrFacts AudioIo CliRun TranscriberFacts.

Local Open Scope string_scope.

Section Single.

Variable World : Type.
Variable resolve : World -> string -> string.
Variable path_exists : World -> string -> bool.
Variable getcwd : World -> string.
Variable from_file : World -> string -> Audio.AudioSegment + string.
Variable duration_text : Audio.AudioSegment -> string.
Variable named_temporary_file : World -> World * (string + string).
Variable export : World -> Audio.AudioSegment -> string -> World * option string.
Variable unlink : World -> string -> World * option string.
Variable downmix : Audio.AudioSegment -> positive -> list Z.
Variable resample : Audio.AudioSegment -> N -> list Z.
Variable write_file : World -> string -> string -> World * option string.
Variable whisper_available : bool.
Variable Model : Type.
Variable whisper_load_model : string -> option string -> Model + string.
Variable model_transcribe :
  Model -> list Z -> option string -> string -> Transcriber.WhisperOutput + string.

Definition lang_param (language : string) : option string :=
  if String.eqb language "auto" then None else Some language.

(** What a [try] block that returned went through. *)
Lemma transcribe_and_save_done w audio_array input_path output_path model_name
    language task formats device files w' log calls :
  transcribe_and_save World write_file whisper_available Model whisper_load_model
    model_transcribe w audio_array input_path output_path model_name language task
    formats device
  = (Done files, w', log, calls) ->
  whisper_available = true
  /\ In model_name Transcriber.WHISPER_MODELS
  /\ valid_task task
  /\ calls = [Transcriber.LoadModel model_name device; Transcriber.ModelTranscribe task]
  /\ exists m output st,
       whisper_load_model model_name device = inl m
       /\ model_transcribe m audio_array (lang_param language) task = inl output
       /\ save_transcription World write_file
            (mkResult (strip (Transcriber.wo_text output))
               (Transcriber._convert_whisper_segments (Transcriber.wo_segments output))
               (Transcriber.wo_language output))
            (Cli.get_output_path input_path output_path) formats w
          = Ok st
       /\ files = saved_files World st /\ w' = world World st
       /\ log = logged World st.
Proof.
  unfold transcribe_and_save, Transcriber.init. fold (lang_param language).
  destruct whisper_available; cbn [negb]; [|discriminate].
  destruct (existsb (String.eqb model_name) Transcriber.WHISPER_MODELS) eqn:Em;
    cbn [negb]; [|discriminate].
  apply in_models in Em.
  destruct (negb (existsb (String.eqb task) ["transcribe"; "translate"])) eqn:Et.
  { unfold Transcriber.transcribe. rewrite Et. discriminate. }
  apply valid_task_check in Et.
  rewrite (transcribe_unloaded whisper_load_model model_transcribe
             (Transcriber.mkTranscriber Model model_name device None)
             audio_array (lang_param language) task eq_refl Et).
  cbn [Transcriber.model_name Transcriber.device].
  destruct (whisper_load_model model_name device) as [m|what] eqn:El; [|discriminate].
  cbv zeta.
  destruct (model_transcribe m audio_array (lang_param language) task)
    as [output|what] eqn:Eo; [|discriminate].
  destruct (save_transcription _ _ _ _ _ _) as [st|e] eqn:Es; [|discriminate].
  intros H. injection H as <- <- <- <-.
  split; [reflexivity|]. split; [exact Em|]. split; [exact Et|].
  split; [reflexivity|]. exists m, output, st. repeat split; assumption.
Qed.

(** Whatever the [try] block does, it makes no engine call unless the
    transcriber was constructed. *)
Lemma process_single_file_failed w input_path output_path model_name language task
    formats device e w1 log1 :
  process_audio_file World resolve path_exists getcwd from_file duration_text
    named_temporary_file export downmix resample w input_path = (Fail e, w1, log1) ->
  process_single_file World resolve path_exists getcwd from_file duration_text
    named_temporary_file export unlink downmix resample write_file whisper_available
    Model whisper_load_model model_transcribe w input_path output_path model_name
    language task formats device
  = (Fail e, w1, (INFO, "Processing file: " ++ input_path) :: log1, []).
Proof. intros H. unfold process_single_file. now rewrite H. Qed.

Lemma process_single_file_entered w input_path output_path model_name language task
    formats device audio_array temp_file w1 log1 :
  process_audio_file World resolve path_exists getcwd from_file duration_text
    named_temporary_file export downmix resample w input_path
  = (Done (audio_array, temp_file), w1, log1) ->
  exists r w2 log2 calls,
    transcribe_and_save World write_file whisper_available Model whisper_load_model
      model_transcribe w1 audio_array input_path output_path model_name language task
      formats device = (r, w2, log2, calls)
    /\ process_single_file World resolve path_exists getcwd from_file duration_text
         named_temporary_file export unlink downmix resample write_file
         whisper_available Model whisper_load_model model_transcribe w input_path
         output_path model_name language task formats device
       = (r,
          fst (cleanup_temp_file World path_exists unlink w2 (Some temp_file)),
          (INFO, "Processing file: " ++ input_path)
          :: app log1
               (app log2
                  (snd (cleanup_temp_file World path_exists unlink w2 (Some temp_file)))),
          calls).
Proof.
  intros H. unfold process_single_file. rewrite H.
  destruct (transcribe_and_save _ _ _ _ _ _ _ _ _ _ _ _ _ _ _)
    as [[[r w2] log2] calls].
  exists r, w2, log2, calls. split; [reflexivity|].
  now destruct (cleanup_temp_file World path_exists unlink w2 (Some temp_file)).
Qed.

End Single.

Lemma saved_paths (World : Type)
    (write_file : World -> string -> string -> World * option string)
    result base formats w st name path :
  save_transcription World write_file result base formats w = Ok st ->
  saved_files World st !! name = Some path ->
  supported name = true /\ path = base ++ "." ++ name.
Proof.
  intros Hs Hl. unfold save_transcription in Hs.
  destruct (SaveFacts.save_loop write_file result base formats (mkSave World ∅ w []))
    as (st' & E & _ & Hm & _).
  { intros n p H. cbn [saved_files] in H. now rewrite lookup_empty in H. }
  rewrite E in Hs. injection Hs as ->.
  cbn [saved_files world] in Hm. apply Hm in Hl.
  destruct Hl as [Hl|Hl]; [|now rewrite lookup_empty in Hl].
  split.
  - apply (in_map attempt_name) in Hl. cbn [attempt_name fst] in Hl.
    rewrite SaveFacts.attempts_names in Hl. apply List.filter_In in Hl. tauto.
  - pose proof (SaveFacts.attempts_paths write_file result base formats w) as Hp.
    rewrite List.Forall_forall in Hp. apply (Hp _ Hl).
Qed.


End SingleFacts.

(** X17. [process_single_file] cleans up after itself whatever happens in
    its [try] block: when the audio stage returned a temporary file, then
    after the call, whether it returned or raised, that file does not exist
    or a warning that names it was logged (given that [unlink] removes what
    it reports as removed).  When the audio stage raises, its exception is
    the outcome, the world is as that stage left it, and no engine call was
    made. *)
Theorem process_single_file_removes_temp (World : Type)
    (resolve : World -> string -> string) (path_exists : World -> string -> bool)
    (getcwd : World -> string)
    (from_file : World -> string -> Audio.AudioSegment + string)
    (duration_text : Audio.AudioSegment -> string)
    (named_temporary_file : World -> World * (string + string))
    (export : World -> Audio.AudioSegment -> string -> World * option string)
    (unlink : World -> string -> World * option string)
    (downmix : Audio.AudioSegment -> positive -> list Z)
    (resample : Audio.AudioSegment -> N -> list Z)
    (write_file : World -> string -> string -> World * option string)
    (whisper_available : bool) (Model : Type)
    (whisper_load_model : string -> option string -> Model + string)
    (model_transcribe :
       Model -> list Z -> option string -> string -> Transcriber.WhisperOutput + string)
    (w : World) (input_path : string) (output_path : option string)
    (model_name language task : string) (formats : list string)
    (device : option string) :
  (forall w p w', unlink w p = (w', None) -> path_exists w' p = false) ->
  let stage := AudioIo.process_audio_file World resolve path_exists getcwd from_file
                 duration_text named_temporary_file export downmix resample w
                 input_path in
  let out := CliRun.process_single_file World resolve path_exists getcwd from_file
               duration_text named_temporary_file export unlink downmix resample
               write_file whisper_available Model whisper_load_model model_transcribe
               w input_path output_path model_name language task formats device in
  (forall audio_array temp_file w1 log1,
     stage = (AudioIo.Done (audio_array, temp_file), w1, log1) ->
     temp_file <> ""%string ->
     path_exists (snd (fst (fst out))) temp_file = false
     \/ exists what,
          In (WARNING, ("Failed to remove temporary file " ++ temp_file ++ ": "
                        ++ what)%string)
             (snd (fst out)))
  /\ (forall e w1 log1,
        stage = (AudioIo.Fail e, w1, log1) ->
        out = (AudioIo.Fail e, w1,
               (INFO, ("Processing file: " ++ input_path)%string) :: log1, [])).
Proof.
  intros law stage out. split.
  - intros audio_array temp_file w1 log1 Hs Hne.
    destruct (SingleFacts.process_single_file_entered World resolve path_exists getcwd
                from_file duration_text named_temporary_file export unlink downmix
                resample write_file whisper_available Model whisper_load_model
                model_transcribe w input_path output_path model_name language task
                formats device audio_array temp_file w1 log1 Hs)
      as (r & w2 & log2 & calls & _ & E).
    unfold out. rewrite E. cbn [fst snd].
    destruct (StageFacts.cleanup_removes_or_warns World path_exists unlink w2 temp_file
                law Hne) as [H|[what H]].
    + now left.
    + right. exists what. right. apply in_or_app. right. apply in_or_app. right.
      rewrite H. now left.
  - intros e w1 log1 Hs. now apply SingleFacts.process_single_file_failed.
Qed.

(** X18. When [process_single_file] returns a dict, Whisper is installed,
    the model name and the task are valid, and the engine was used by a
    transcriber of its own: one load of the model and then one call, on the
    array of the preprocessed audio, with the language, or with none for
    [auto], and the task.  Every entry of the dict maps one of the four
    format names to the path made of [get_output_path], a dot and the
    name. *)
Theorem process_single_file_success (World : Type)
    (resolve : World -> string -> string) (path_exists : World -> string -> bool)
    (getcwd : World -> string)
    (from_file : World -> string -> Audio.AudioSegment + string)
    (duration_text : Audio.AudioSegment -> string)
    (named_temporary_file : World -> World * (string + string))
    (export : World -> Audio.AudioSegment -> string -> World * option string)
    (unlink : World -> string -> World * option string)
    (downmix : Audio.AudioSegment -> positive -> list Z)
    (resample : Audio.AudioSegment -> N -> list Z)
    (write_file : World -> string -> string -> World * option string)
    (whisper_available : bool) (Model : Type)
    (whisper_load_model : string -> option string -> Model + string)
    (model_transcribe :
       Model -> list Z -> option string -> string -> Transcriber.WhisperOutput + string)
    (w : World) (input_path : string) (output_path : option string)
    (model_name language task : string) (formats : list string)
    (device : option string)
    (files : gmap string string) (w' : World) (log : list log_record)
    (calls : list Transcriber.engine_call) :
  CliRun.process_single_file World resolve path_exists getcwd from_file duration_text
    named_temporary_file export unlink downmix resample write_file whisper_available
    Model whisper_load_model model_transcribe w input_path output_path model_name
    language task formats device
  = (AudioIo.Done files, w', log, calls) ->
  whisper_available = true
  /\ In model_name Transcriber.WHISPER_MODELS
  /\ (task = "transcribe" \/ task = "translate")%string
  /\ calls = [Transcriber.LoadModel model_name device; Transcriber.ModelTranscribe task]
  /\ (exists audio audio_array m output,
        fst (AudioIo.load_audio World resolve path_exists getcwd from_file
               duration_text w input_path) = AudioIo.Done audio
        /\ Audio.get_audio_array (fst (Audio.preprocess_audio downmix resample audio))
           = Ok audio_array
        /\ whisper_load_model model_name device = inl m
        /\ model_transcribe m audio_array
             (if String.eqb language "auto" then None else Some language) task
           = inl output)
  /\ (forall name path,
        files !! name = Some path ->
        supported name = true
        /\ path = (Cli.get_output_path input_path output_path ++ "." ++ name)%string).
Proof.
  intros H.
  destruct (AudioIo.process_audio_file World resolve path_exists getcwd from_file
              duration_text named_temporary_file export downmix resample w input_path)
    as [[[[audio_array temp_file]|e] w1] log1] eqn:Hs.
  2:{ rewrite (SingleFacts.process_single_file_failed _ _ _ _ _ _ _ _ _ _ _ _ _ _ _ _
                 _ _ _ _ _ _ _ _ _ _ _ Hs) in H. discriminate H. }
  destruct (SingleFacts.process_single_file_entered World resolve path_exists getcwd
              from_file duration_text named_temporary_file export unlink downmix
              resample write_file whisper_available Model whisper_load_model
              model_transcribe w input_path output_path model_name language task
              formats device audio_array temp_file w1 log1 Hs)
    as (r & w2 & log2 & calls2 & Eb & E).
  rewrite E in H. injection H as -> _ _ ->.
  destruct (SingleFacts.transcribe_and_save_done _ _ _ _ _ _ _ _ _ _ _ _ _ _ _ _ _ _ _
              Eb) as (Ha & Hm & Ht & Hc & m & output & st & Hl & Ho & Hsave & -> & _).
  destruct (StageFacts.process_audio_file_done _ _ _ _ _ _ _ _ _ _ _ _ _ _ _ _ Hs)
    as (audio & w0 & Hload & _ & _ & Harr).
  split; [exact Ha|]. split; [exact Hm|]. split; [exact Ht|]. split; [exact Hc|].
  split.
  - exists audio, audio_array, m, output. repeat split; assumption.
  - intros name path Hp.
    now apply (SingleFacts.saved_paths World write_file _ _ _ _ _ _ _ Hsave Hp).
Qed.

(** X17, used once: the toy system, where the temporary file is
    [/tmp/t.wav]. *)
Lemma process_single_file_removes_temp_witness :
  ToyOs.path_exists (snd (fst (fst toy_run))) "/tmp/t.wav" = false
  \/ exists what,
       In (WARNING, ("Failed to remove temporary file " ++ "/tmp/t.wav" ++ ": "
                     ++ what)%string)
          (snd (fst toy_run)).
Proof.
  eapply (proj1 (process_single_file_removes_temp ToyOs.World ToyOs.resolve
                   ToyOs.path_exists ToyOs.getcwd ToyOs.from_file ToyOs.duration_text
                   ToyOs.named_temporary_file ToyOs.export ToyOs.unlink ToyOs.downmix
                   ToyOs.resample ToyOs.write_file true unit toy_load
                   toy_transcribe_array ["/work/a.wav"]%string "/work/a.wav" None
                   "small" "auto" "transcribe" ["txt"]%string None
                   StageFacts.toy_unlink_removes)).
  - reflexivity.
  - discriminate.
Defined.

(** X18, used once: the same run returns a dict. *)
Lemma process_single_file_success_witness :
  exists files w' log,
    toy_run
    = (AudioIo.Done files, w', log,
       [Transcriber.LoadModel "small" None; Transcriber.ModelTranscribe "transcribe"])
    /\ forall name path,
         files !! name = Some path ->
         supported name = true
         /\ path = (Cli.get_output_path "/work/a.wav" None ++ "." ++ name)%string.
Proof.
  eexists _, _, _. split; [reflexivity|].
  eapply (process_single_file_success ToyOs.World ToyOs.resolve
            ToyOs.path_exists ToyOs.getcwd ToyOs.from_file ToyOs.duration_text
            ToyOs.named_temporary_file ToyOs.export ToyOs.unlink ToyOs.downmix
            ToyOs.resample ToyOs.write_file true unit toy_load
            toy_transcribe_array ["/work/a.wav"]%string "/work/a.wav" None
            "small" "auto" "transcribe" ["txt"]%string None).
  reflexivity.
Defined.

(** ** cli.py: finding files and [main] *)

Module MainFacts.

Import StrFacts AudioIo CliRun.

Local Open Scope string_scope.

Lemma insert_sorted_head x l :
  exists rest,
    insert_sorted x l = x :: rest
    \/ (exists y l', l = y :: l' /\ insert_sorted x l = y :: rest
                     /\ String.leb x y = false).
Proof.
  destruct l as [|y l']; [exists []; now left|].
  cbn [insert_sorted]. destruct (String.leb x y) eqn:E.
  - eexists. now left.
  - eexists. right. exists y, l'. now repeat split.
Qed.

Lemma insert_sorted_ascending x l :
  ascending l = true -> ascending (insert_sorted x l) = true.
Proof.
  induction l as [|y l' IH]; intros H; [reflexivity|].
  cbn [insert_sorted]. destruct (String.leb x y) eqn:E.
  - change (ascending (x :: y :: l')) with (String.leb x y && ascending (y :: l')).
    now rewrite E, H.
  - assert (Hyx : String.leb y x = true).
    { destruct (String.leb_total x y) as [H1|H1]; [congruence | exact H1]. }
    assert (Hl : ascending l' = true).
    { destruct l' as [|z l'']; [reflexivity|].
      change (ascending (y :: z :: l'')) with (String.leb y z && ascending (z :: l''))
        in H. now apply andb_prop in H. }
    specialize (IH Hl).
    destruct l' as [|z l'']; [cbn [insert_sorted ascending]; now rewrite Hyx|].
    cbn [insert_sorted] in IH |- *. destruct (String.leb x z) eqn:Ez.
    + change (String.leb y x && ascending (x :: z :: l'') = true).
      now rewrite Hyx, IH.
    + change (ascending (y :: z :: l'')) with (String.leb y z && ascending (z :: l''))
        in H. apply andb_prop in H. destruct H as [Hyz _].
      change (String.leb y z && ascending (z :: insert_sorted x l'') = true).
      now rewrite Hyz, IH.
Qed.

Lemma sorted_ascending l : ascending (sorted l) = true.
Proof.
  induction l as [|x l IH]; [reflexivity|].
  cbn [sorted fold_right]. now apply insert_sorted_ascending.
Qed.

Lemma insert_sorted_perm x l : Permutation (insert_sorted x l) (x :: l).
Proof.
  induction l as [|y l IH]; [reflexivity|].
  cbn [insert_sorted]. destruct (String.leb x y); [reflexivity|].
  rewrite IH. apply perm_swap.
Qed.

Lemma sorted_perm l : Permutation (sorted l) l.
Proof.
  induction l as [|x l IH]; [reflexivity|].
  cbn [sorted fold_right]. rewrite insert_sorted_perm. now constructor.
Qed.

Section Main.

Variable World : Type.
Variable isfile : World -> string -> bool.
Variable isdir : World -> string -> bool.
Variable glob : World -> string -> bool -> list string.
Variable process_single_file :
  World -> string -> option string -> string -> string -> string -> list string ->
  option string -> result (gmap string string) * World * list log_record.
Variable dict_values : gmap string string -> list string.
Variable elapsed_text : World -> string.

(** The world after one file of a batch. *)
Definition after_file (args : Args) (formats : list string) (w : World)
    (audio_file : string) : World :=
  snd (fst (process_single_file w audio_file None (arg_model args) (arg_language args)
              (arg_task args) formats (arg_device args))).

Lemma process_batch_world args formats audio_files :
  forall w,
    fst (process_batch World process_single_file args formats audio_files w)
    = fold_left (after_file args formats) audio_files w.
Proof.
  induction audio_files as [|f rest IH]; intros w; [reflexivity|].
  cbn [process_batch fold_left]. unfold after_file at 2.
  destruct (process_single_file w f None _ _ _ formats _) as [[r w1] log].
  cbn [fst snd]. rewrite <- IH.
  now destruct (process_batch World process_single_file args formats rest w1).
Qed.

End Main.

End MainFacts.

(** X19. [find_audio_files] returns what the six patterns match, each path
    as often as it is matched, in ascending order; the patterns are the
    directory joined with [*.wav], [*.mp3], [*.flac], [*.aac], [*.ogg] and
    [*.m4a], with [**] between them in recursive mode. *)
Theorem find_audio_files_sorted (World : Type)
    (glob : World -> string -> bool -> list string)
    (w : World) (input_path : string) (recursive : bool) :
  let found := CliRun.find_audio_files World glob w input_path recursive in
  let pattern ext :=
    if recursive then PosixPath.join (PosixPath.join input_path "**") ext
    else PosixPath.join input_path ext in
  ascending found = true
  /\ Permutation found
       (flat_map (fun ext => glob w (pattern ext) recursive)
          ["*.wav"; "*.mp3"; "*.flac"; "*.aac"; "*.ogg"; "*.m4a"]%string)
  /\ (forall path, In path found <->
        exists ext,
          In ext ["*.wav"; "*.mp3"; "*.flac"; "*.aac"; "*.ogg"; "*.m4a"]%string
          /\ In path (glob w (pattern ext) recursive)).
Proof.
  intros found pattern.
  assert (Hp : Permutation found
                 (flat_map (fun ext => glob w (pattern ext) recursive)
                    CliRun.extensions)).
  { unfold found, CliRun.find_audio_files, pattern.
    destruct recursive; apply MainFacts.sorted_perm. }
  split; [apply MainFacts.sorted_ascending|]. split; [exact Hp|].
  intros path. rewrite Hp, in_flat_map. reflexivity.
Qed.

(** X20. The exit code of [main] is 0 or 1.  It is 0 exactly when the
    input is a file that [process_single_file] processed without raising, or
    the input is no file but a directory, batch mode is on and some audio
    file was found; so a batch ends with 0 whatever became of its files.  In
    a batch every file found is processed, in order, each from the world the
    one before it left, whether that one raised or not. *)
Theorem main_exit_code (World : Type)
    (isfile isdir : World -> string -> bool)
    (glob : World -> string -> bool -> list string)
    (process_single_file :
       World -> string -> option string -> string -> string -> string -> list string ->
       option string -> AudioIo.result (gmap string string) * World * list log_record)
    (dict_values : gmap string string -> list string)
    (elapsed_text : World -> string)
    (args : CliRun.Args) (w : World) :
  let out := CliRun.main World isfile isdir glob process_single_file dict_values
               elapsed_text args w in
  let code := fst (fst out) in
  let formats := Cli.parse_formats (CliRun.arg_formats args) in
  let single := process_single_file w (CliRun.arg_input args) (CliRun.arg_output args)
                  (CliRun.arg_model args) (CliRun.arg_language args)
                  (CliRun.arg_task args) formats (CliRun.arg_device args) in
  let audio_files := CliRun.find_audio_files World glob w (CliRun.arg_input args)
                       (CliRun.arg_recursive args) in
  (code = 0 \/ code = 1)%Z
  /\ (code = 0%Z
      <-> (isfile w (CliRun.arg_input args) = true
           /\ exists files, fst (fst single) = AudioIo.Done files)
          \/ (isfile w (CliRun.arg_input args) = false
              /\ isdir w (CliRun.arg_input args) = true
              /\ CliRun.arg_batch args = true
              /\ audio_files <> []))
  /\ (isfile w (CliRun.arg_input args) = true -> snd (fst out) = snd (fst single))
  /\ (isfile w (CliRun.arg_input args) = false ->
      isdir w (CliRun.arg_input args) = true -> CliRun.arg_batch args = true ->
      snd (fst out)
      = fold_left
          (fun w audio_file =>
             snd (fst (process_single_file w audio_file None (CliRun.arg_model args)
                         (CliRun.arg_language args) (CliRun.arg_task args) formats
                         (CliRun.arg_device args))))
          audio_files w).
Proof.
  intros out code formats single audio_files.
  unfold code, out, CliRun.main. fold formats. fold single. fold audio_files.
  destruct (isfile w (CliRun.arg_input args)) eqn:Ef.
  - destruct single as [[[files|e] w1] log] eqn:Es; cbn [fst snd].
    + split; [now left|]. split; [|split; [reflexivity | discriminate]].
      split; [intros _; left; split; [reflexivity | now exists files] | reflexivity].
    + split; [now right|]. split; [|split; [reflexivity | discriminate]].
      split; [discriminate|].
      intros [[_ [files H]]|[H _]]; discriminate H.
  - destruct (isdir w (CliRun.arg_input args)) eqn:Ed;
      [destruct (CliRun.arg_batch args) eqn:Eb|]; cbn [andb].
    + pose proof (MainFacts.process_batch_world World process_single_file args formats
                    audio_files w) as Hw.
      unfold MainFacts.after_file in Hw.
      destruct audio_files as [|f rest] eqn:Ea.
      * cbn [fst snd]. split; [now right|]. split; [|split; [discriminate|reflexivity]].
        split; [discriminate|].
        intros [[H _]|(_ & _ & _ & H)]; [discriminate H | now elim H].
      * destruct (CliRun.process_batch World process_single_file args formats
                    (f :: rest) w) as [w' log].
        cbn [fst snd] in Hw |- *.
        split; [now left|]. split; [|split; [discriminate | now intros _ _ _]].
        split; [intros _; right; repeat split; discriminate | reflexivity].
    + cbn [fst snd]. split; [now right|]. split; [|split; discriminate].
      split; [discriminate|].
      intros [[H _]|(_ & _ & H & _)]; discriminate H.
    + cbn [fst snd]. split; [now right|]. split; [|split; discriminate].
      split; [discriminate|].
      intros [[H _]|(_ & H & _)]; discriminate H.
Qed.

(** X21. A timestamp has ten characters besides its hours, and the hours
    take two characters or as many as the number needs; so below 100 hours
    every timestamp has exactly twelve characters. *)
Theorem timestamp_width (s : float64) (format_type : string) :
  lower format_type = "srt"%string \/ lower format_type = "vtt"%string ->
  exists t,
    _format_timestamp s format_type = Ok t
    /\ String.length t = (10 + Nat.max 2 (ndigits (ts_hours (units s))))%nat
    /\ ((units s / U < 360000)%N -> String.length t = 12%nat).
Proof.
  intros Hf.
  assert (Hlen : forall sep,
            String.length sep = 1%nat ->
            String.length (timestamp sep s)
            = (10 + Nat.max 2 (ndigits (ts_hours (units s))))%nat).
  { intros sep Hs. unfold timestamp.
    rewrite !length_append, !length_fixw, format_0d_nonneg, length_fixw, Hs.
    change (String.length ":") with 1%nat. lia. }
  assert (Hsmall : (units s / U < 360000)%N ->
            Nat.max 2 (ndigits (ts_hours (units s))) = 2%nat).
  { intros Hb.
    assert (Hb57 : (units s / U < 2 ^ 57)%N)
      by (eapply N.lt_trans; [exact Hb | reflexivity]).
    rewrite (ts_hours_exact _ Hb57).
    assert (Hh : (units s / (3600 * U) < 100)%N).
    { rewrite (N.mul_comm 3600 U), <- N.Div0.div_div.
      apply N.Div0.div_lt_upper_bound. exact Hb. }
    pose proof (ndigits_le (units s / (3600 * U)) 2 ltac:(lia) Hh). lia. }
  destruct Hf as [E|E].
  - exists (timestamp "," s). split.
    + unfold _format_timestamp. cbv zeta. rewrite E.
      change (String.eqb "srt" "srt") with true. cbv iota.
      f_equal. apply format_timestamp_body.
    + split; [now apply Hlen|]. intros Hb. rewrite Hlen by reflexivity.
      now rewrite Hsmall.
  - exists (timestamp "." s). split.
    + unfold _format_timestamp. cbv zeta. rewrite E.
      change (String.eqb "vtt" "srt") with false.
      change (String.eqb "vtt" "vtt") with true. cbv iota.
      f_equal. apply format_timestamp_body.
    + split; [now apply Hlen|]. intros Hb. rewrite Hlen by reflexivity.
      now rewrite Hsmall.
Qed.

(** X21, used once: 3661.5 seconds in SRT mode. *)
Lemma timestamp_width_witness :
  exists t,
    _format_timestamp f_3661_5 "srt" = Ok t
    /\ String.length t = (10 + Nat.max 2 (ndigits (ts_hours (units f_3661_5))))%nat
    /\ ((units f_3661_5 / U < 360000)%N -> String.length t = 12%nat).
Proof.
  exact (timestamp_width f_3661_5 "srt" (or_introl eq_refl)).
Defined.

(** X22. The subtitles of a transcription are numbered from 1 without a
    gap: for the result of a successful [transcribe], [generate_srt] returns
    the newline-joined entries of the segments, and the entry at position [i]
    (from 0) starts with the line [i + 1]. *)
Theorem transcribe_then_srt_numbers (Model AudioInput : Type)
    (whisper_load_model : string -> option string -> Model + string)
    (model_transcribe :
       Model -> AudioInput -> option string -> string -> Transcriber.WhisperOutput + string)
    (self self' : Transcriber.WhisperTranscriber Model)
    (audio : AudioInput) (language : option string) (task : string)
    (r : TranscriptionResult) (calls : list Transcriber.engine_call) :
  Transcriber.transcribe Model AudioInput whisper_load_model model_transcribe
    self audio language task = (Ok r, self', calls) ->
  generate_srt r = Ok (join nl (flat_map srt_entry (res_segments r)))
  /\ forall i segment,
       nth_error (res_segments r) i = Some segment ->
       srt_entry segment
       = [str (Z.of_nat i + 1); time_range "," segment; seg_text segment; ""%string].
Proof.
  intros H. split; [apply generate_srt_eq|].
  pose proof (TranscriberFacts.transcribe_ok_valid _ _ _ _ _ _ _ _ _ H) as Hv.
  assert (Hseg : exists segments,
            res_segments r = Transcriber._convert_whisper_segments segments).
  { destruct (Transcriber.model Model self) as [m|] eqn:Em.
    - rewrite (TranscriberFacts.transcribe_loaded _ _ _ _ _ _ _ Em Hv) in H.
      destruct (model_transcribe m audio language task) as [output|]; [|discriminate H].
      injection H as <- _ _. now eexists.
    - rewrite (TranscriberFacts.transcribe_unloaded _ _ _ _ _ _ Em Hv) in H.
      destruct (whisper_load_model _ _) as [m|]; [|discriminate H]. cbv zeta in H.
      destruct (model_transcribe m audio language task) as [output|]; [|discriminate H].
      injection H as <- _ _. now eexists. }
  destruct Hseg as (segments & ->).
  intros i segment Hn. unfold Transcriber._convert_whisper_segments in Hn.
  assert (Hid : seg_id segment = Z.of_nat i).
  { destruct (nth_error segments i) as [ws|] eqn:Ews.
    - rewrite (TranscriberFacts.convert_from_nth segments 0 i ws Ews) in Hn.
      injection Hn as <-. reflexivity.
    - apply nth_error_None in Ews.
      assert (Hl : nth_error (Transcriber.convert_from 0 segments) i = None).
      { apply nth_error_None. now rewrite TranscriberFacts.convert_from_length. }
      congruence. }
  unfold srt_entry. now rewrite Hid.
Qed.

(** X22, used once: the stand-in engine. *)
Lemma transcribe_then_srt_numbers_witness :
  generate_srt (mkResult "This is a test" [mkSegment 0 f_0 f_2_5 "This is a test"] "en")
  = Ok (join nl (flat_map srt_entry [mkSegment 0 f_0 f_2_5 "This is a test"]))
  /\ forall i segment,
       nth_error [mkSegment 0 f_0 f_2_5 "This is a test"] i = Some segment ->
       srt_entry segment
       = [str (Z.of_nat i + 1); time_range "," segment; seg_text segment; ""%string].
Proof.
  exact (transcribe_then_srt_numbers unit unit toy_load toy_transcribe
           toy_transcriber (Transcriber.mkTranscriber unit "small" None (Some tt))
           tt None "transcribe"
           (mkResult "This is a test" [mkSegment 0 f_0 f_2_5 "This is a test"] "en")
           [Transcriber.LoadModel "small" None; Transcriber.ModelTranscribe "transcribe"]
           eq_refl).
Defined.

(** X23. The two tests in [preprocess_audio] decide about the debug lines
    only: the segment returned is always
    [audio.set_channels(1).set_frame_rate(16000)], the channels being mixed
    down before the rate is converted; the sample width is never changed;
    and one debug line is logged for each of the two conversions that the
    audio needs, in that order. *)
Theorem preprocess_audio_is_two_setters
    (downmix : Audio.AudioSegment -> positive -> list Z)
    (resample : Audio.AudioSegment -> N -> list Z)
    (audio : Audio.AudioSegment) :
  let out := Audio.preprocess_audio downmix resample audio in
  let mono := Audio.set_channels downmix audio 1 in
  fst out = Audio.set_frame_rate resample mono Audio.SAMPLE_RATE
  /\ Audio.sample_width (fst out) = Audio.sample_width audio
  /\ length (snd out)
     = ((if Pos.eqb (Audio.channels audio) 1 then 0 else 1)
        + (if N.eqb (Audio.frame_rate audio) Audio.SAMPLE_RATE then 0 else 1))%nat
  /\ Forall (fun record => fst record = DEBUG) (snd out)
  /\ (Audio.channels audio = 1%positive ->
      Audio.frame_rate audio = Audio.SAMPLE_RATE -> out = (audio, [])).
Proof.
  intros out mono. unfold out, mono, Audio.preprocess_audio.
  assert (Hsr : forall a r, Audio.sample_width (Audio.set_frame_rate resample a r)
                            = Audio.sample_width a).
  { intros a r. unfold Audio.set_frame_rate. now destruct (N.eqb r (Audio.frame_rate a)). }
  assert (Hsc : forall a n, Audio.sample_width (Audio.set_channels downmix a n)
                            = Audio.sample_width a).
  { intros a n. unfold Audio.set_channels. now destruct (Pos.eqb n (Audio.channels a)). }
  assert (Hrate : forall a r, N.eqb (Audio.frame_rate a) r = true ->
                              Audio.set_frame_rate resample a r = a).
  { intros a r H. unfold Audio.set_frame_rate. now rewrite N.eqb_sym, H. }
  destruct (Pos.ltb_spec 1 (Audio.channels audio)) as [L|G].
  - assert (E1 : Pos.eqb (Audio.channels audio) 1 = false) by (apply Pos.eqb_neq; lia).
    rewrite E1.
    rewrite (set_channels_rate downmix).
    destruct (N.eqb (Audio.frame_rate audio) Audio.SAMPLE_RATE) eqn:Er; cbn [negb fst snd].
    + split; [symmetry; apply Hrate; now rewrite (set_channels_rate downmix)|].
      split; [apply Hsc|]. split; [reflexivity|]. split; [now repeat constructor|].
      intros Hc. rewrite Hc in E1. discriminate E1.
    + split; [reflexivity|]. split; [now rewrite Hsr, Hsc|]. split; [reflexivity|].
      split; [now repeat constructor|]. intros Hc. rewrite Hc in E1. discriminate E1.
  - assert (Ec : Audio.channels audio = 1%positive) by lia.
    assert (E1 : Pos.eqb (Audio.channels audio) 1 = true) by now apply Pos.eqb_eq.
    rewrite E1.
    assert (Em : Audio.set_channels downmix audio 1 = audio).
    { unfold Audio.set_channels. now rewrite Pos.eqb_sym, E1. }
    rewrite Em.
    destruct (N.eqb (Audio.frame_rate audio) Audio.SAMPLE_RATE) eqn:Er; cbn [negb fst snd].
    + split; [symmetry; now apply Hrate|]. split; [reflexivity|]. split; [reflexivity|].
      split; [constructor|]. reflexivity.
    + split; [reflexivity|]. split; [apply Hsr|]. split; [reflexivity|].
      split; [now repeat constructor|]. intros _ Hr. apply N.eqb_neq in Er. congruence.
Qed.

(** ** examples/batch_processing.py *)

Module BatchFacts.

Import StrFacts AudioIo BatchExample TranscriberFacts.

Local Open Scope string_scope.

Lemma repeat_snoc {A : Type} (x : A) k : (repeat x k ++ [x])%list = repeat x (S k).
Proof.
  induction k as [|k IH]; [reflexivity|]. cbn [repeat app]. now rewrite IH.
Qed.

Section Run.

Variable World : Type.
Variable resolve : World -> string -> string.
Variable path_exists : World -> string -> bool.
Variable getcwd : World -> string.
Variable from_file : World -> string -> Audio.AudioSegment + string.
Variable duration_text : Audio.AudioSegment -> string.
Variable named_temporary_file : World -> World * (string + string).
Variable export : World -> Audio.AudioSegment -> string -> World * option string.
Variable unlink : World -> string -> World * option string.
Variable downmix : Audio.AudioSegment -> positive -> list Z.
Variable resample : Audio.AudioSegment -> N -> list Z.
Variable write_file : World -> string -> string -> World * option string.
Variable whisper_available : bool.
Variable Model : Type.
Variable whisper_load_model : string -> option string -> Model + string.
Variable model_transcribe :
  Model -> list Z -> option string -> string -> Transcriber.WhisperOutput + string.
Variable Seconds : Type.
Variable elapsed : World -> World -> Seconds.
Variable seconds_add : Seconds -> Seconds -> Seconds.
Variable seconds_text : Seconds -> string.

Variable language : option string.
Variable task : string.
Variable formats : list string.
Variable model_name : string.

Definition step : batch_state World Model Seconds -> string -> batch_state World Model Seconds :=
  batch_step World resolve path_exists getcwd from_file duration_text
    named_temporary_file export unlink downmix resample write_file Model
    whisper_load_model model_transcribe Seconds elapsed seconds_add seconds_text
    language task formats.

(** The engine calls so far: none while no model is loaded, and else one
    load followed by calls to transcribe. *)
Definition calls_ok (st : batch_state World Model Seconds) : Prop :=
  Transcriber.model_name Model (transcriber World Model Seconds st) = model_name
  /\ Transcriber.device Model (transcriber World Model Seconds st) = None
  /\ ((Transcriber.model Model (transcriber World Model Seconds st) = None
       /\ engine_calls World Model Seconds st = [])
      \/ (Transcriber.model Model (transcriber World Model Seconds st) <> None
          /\ exists k,
               engine_calls World Model Seconds st
               = Transcriber.LoadModel model_name None
                 :: repeat (Transcriber.ModelTranscribe task) (S k))).

(** What [transcribe] adds to such a history. *)
Lemma transcribe_calls m t audio_array :
  whisper_load_model model_name None = inl m ->
  Transcriber.model_name Model t = model_name ->
  Transcriber.device Model t = None ->
  forall history,
    ((Transcriber.model Model t = None /\ history = [])
     \/ (Transcriber.model Model t <> None
         /\ exists k, history = Transcriber.LoadModel model_name None
                                :: repeat (Transcriber.ModelTranscribe task) (S k))) ->
    let out := Transcriber.transcribe Model (list Z) whisper_load_model model_transcribe
                 t audio_array language task in
    Transcriber.model_name Model (snd (fst out)) = model_name
    /\ Transcriber.device Model (snd (fst out)) = None
    /\ ((Transcriber.model Model (snd (fst out)) = None
         /\ (history ++ snd out)%list = [])
        \/ (Transcriber.model Model (snd (fst out)) <> None
            /\ exists k, (history ++ snd out)%list
                         = Transcriber.LoadModel model_name None
                           :: repeat (Transcriber.ModelTranscribe task) (S k))).
Proof.
  intros Hload Hn Hd history Hh out. subst out.
  destruct (negb (existsb (String.eqb task) ["transcribe"; "translate"])) eqn:Et.
  { unfold Transcriber.transcribe. rewrite Et. cbn [fst snd]. rewrite app_nil_r.
    now repeat split. }
  apply valid_task_check in Et.
  destruct (Transcriber.model Model t) as [m0|] eqn:Em.
  - rewrite (transcribe_loaded _ _ _ _ _ _ _ Em Et).
    destruct Hh as [[Hc _]|[_ [k ->]]]; [discriminate Hc|].
    assert (Hk : ((Transcriber.LoadModel model_name None
                   :: repeat (Transcriber.ModelTranscribe task) (S k))
                  ++ [Transcriber.ModelTranscribe task])%list
                 = Transcriber.LoadModel model_name None
                   :: repeat (Transcriber.ModelTranscribe task) (S (S k))).
    { rewrite <- app_comm_cons. f_equal. apply repeat_snoc. }
    destruct (model_transcribe m0 audio_array language task); cbn [fst snd];
      (split; [exact Hn|]); (split; [exact Hd|]); right;
      (split; [now rewrite Em|]); exists (S k); exact Hk.
  - rewrite (transcribe_unloaded _ _ _ _ _ _ Em Et). rewrite Hn, Hd, Hload. cbv zeta.
    destruct Hh as [[_ ->]|[Hc _]]; [|now elim Hc].
    destruct (model_transcribe m audio_array language task); cbn [fst snd app];
      (split; [reflexivity|]); (split; [reflexivity|]); right;
      (split; [discriminate|]); now exists 0%nat.
Qed.

Lemma step_calls m st audio_path :
  whisper_load_model model_name None = inl m ->
  calls_ok st -> calls_ok (step st audio_path).
Proof.
  intros Hload (Hn & Hd & Hh). unfold step, batch_step.
  destruct (process_audio_file _ _ _ _ _ _ _ _ _ _ _ audio_path)
    as [[[[audio_array temp_file]|e] w1] log1].
  2:{ unfold failed, calls_ok. cbn [transcriber engine_calls]. rewrite app_nil_r.
      now repeat split. }
  pose proof (transcribe_calls m (transcriber World Model Seconds st) audio_array
                Hload Hn Hd (engine_calls World Model Seconds st) Hh) as H.
  cbv zeta in H.
  destruct (Transcriber.transcribe Model (list Z) whisper_load_model model_transcribe
              (transcriber World Model Seconds st) audio_array language task)
    as [[[result|e] t] calls]; cbn [fst snd] in H.
  - destruct (cleanup_temp_file World path_exists unlink w1 (Some temp_file))
      as [w2 log2].
    destruct (save_transcription World write_file result _ formats w2) as [saved|e];
      unfold failed, calls_ok; cbn [transcriber engine_calls]; exact H.
  - unfold failed, calls_ok. cbn [transcriber engine_calls]. exact H.
Qed.

Lemma fold_calls m audio_files :
  whisper_load_model model_name None = inl m ->
  forall st, calls_ok st -> calls_ok (fold_left step audio_files st).
Proof.
  intros Hload. induction audio_files as [|f rest IH]; intros st H; [exact H|].
  cbn [fold_left]. apply IH. now apply (step_calls m).
Qed.

(** The keys of [results] are files of the batch. *)
Lemma step_keys st audio_path path :
  is_Some (results World Model Seconds (step st audio_path) !! path) ->
  path = audio_path \/ is_Some (results World Model Seconds st !! path).
Proof.
  unfold step, batch_step.
  destruct (process_audio_file _ _ _ _ _ _ _ _ _ _ _ audio_path)
    as [[[[audio_array temp_file]|e] w1] log1]; [|now right].
  destruct (Transcriber.transcribe _ _ _ _ _ _ _ _) as [[[result|e] t] calls];
    [|now right].
  destruct (cleanup_temp_file World path_exists unlink w1 (Some temp_file))
    as [w2 log2].
  destruct (save_transcription World write_file result _ formats w2) as [saved|e];
    [|now right].
  cbn [results]. rewrite lookup_insert_is_Some.
  intros [E|[_ H]]; [left; now symmetry | now right].
Qed.

Lemma fold_keys audio_files :
  forall st path,
    is_Some (results World Model Seconds (fold_left step audio_files st) !! path) ->
    In path audio_files \/ is_Some (results World Model Seconds st !! path).
Proof.
  induction audio_files as [|f rest IH]; intros st path H; [now right|].
  cbn [fold_left] in H. destruct (IH _ _ H) as [Hin|Hs]; [left; now right|].
  destruct (step_keys _ _ _ Hs) as [->|Hs']; [left; now left | now right].
Qed.

(** When [transcribe] raises, the turn ends where the audio stage ended: the
    temporary file is not cleaned up. *)
Lemma step_leaves_temp st audio_path audio_array temp_file w1 log1 e t calls :
  process_audio_file World resolve path_exists getcwd from_file duration_text
    named_temporary_file export downmix resample (bworld World Model Seconds st)
    audio_path = (Done (audio_array, temp_file), w1, log1) ->
  Transcriber.transcribe Model (list Z) whisper_load_model model_transcribe
    (transcriber World Model Seconds st) audio_array language task
  = (Raise e, t, calls) ->
  bworld World Model Seconds (step st audio_path) = w1
  /\ results World Model Seconds (step st audio_path) = results World Model Seconds st.
Proof.
  intros Hs Ht. unfold step, batch_step. now rewrite Hs, Ht.
Qed.

End Run.

End BatchFacts.

(** X24. In the example batch the model is loaded once for all files: when
    the loader succeeds for the model, the engine calls of a whole
    [process_audio_batch] are none at all, or one load followed by calls to
    transcribe only. *)
Theorem batch_loads_model_once (World : Type)
    (resolve : World -> string -> string) (path_exists : World -> string -> bool)
    (getcwd : World -> string)
    (from_file : World -> string -> Audio.AudioSegment + string)
    (duration_text : Audio.AudioSegment -> string)
    (named_temporary_file : World -> World * (string + string))
    (export : World -> Audio.AudioSegment -> string -> World * option string)
    (unlink : World -> string -> World * option string)
    (downmix : Audio.AudioSegment -> positive -> list Z)
    (resample : Audio.AudioSegment -> N -> list Z)
    (write_file : World -> string -> string -> World * option string)
    (glob : World -> string -> bool -> list string)
    (whisper_available : bool) (Model : Type)
    (whisper_load_model : string -> option string -> Model + string)
    (model_transcribe :
       Model -> list Z -> option string -> string -> Transcriber.WhisperOutput + string)
    (Seconds : Type) (elapsed : World -> World -> Seconds)
    (seconds_zero : Seconds) (seconds_add : Seconds -> Seconds -> Seconds)
    (seconds_text : Seconds -> string)
    (directory : string) (recursive : bool) (model_name : string)
    (language : option string) (task : string) (formats : list string) (w : World)
    (m : Model) :
  whisper_load_model model_name None = inl m ->
  let calls :=
    BatchExample.engine_calls World Model Seconds
      (snd (BatchExample.process_audio_batch World resolve path_exists getcwd from_file
              duration_text named_temporary_file export unlink downmix resample
              write_file glob whisper_available Model whisper_load_model
              model_transcribe Seconds elapsed seconds_zero seconds_add seconds_text
              directory recursive model_name language task formats w)) in
  calls = []
  \/ exists k,
       calls = Transcriber.LoadModel model_name None
               :: repeat (Transcriber.ModelTranscribe task) (S k).
Proof.
  intros Hload calls. subst calls. unfold BatchExample.process_audio_batch.
  destruct (CliRun.find_audio_files World glob w directory recursive) as [|f rest];
    [now left|].
  unfold Transcriber.init.
  destruct (negb whisper_available); [now left|].
  destruct (negb (existsb (String.eqb model_name) Transcriber.WHISPER_MODELS));
    [now left|].
  cbn [snd BatchExample.engine_calls].
  pose proof (BatchFacts.fold_calls World resolve path_exists getcwd from_file
                duration_text named_temporary_file export unlink downmix resample
                write_file Model whisper_load_model model_transcribe Seconds elapsed
                seconds_add seconds_text language task formats model_name m
                (f :: rest) Hload
                (BatchExample.mkBatch World Model Seconds
                   (Transcriber.mkTranscriber Model model_name None None) w ∅
                   seconds_zero
                   [("Found " ++ str (Z.of_nat (length (f :: rest)))
                     ++ " audio files to process")%string] [] [])) as H.
  destruct H as (_ & _ & [[_ H]|[_ H]]).
  - unfold BatchFacts.calls_ok. cbn. repeat split. now left.
  - now left.
  - now right.
Qed.

(** X24, used once: two files on the toy system. *)
Lemma batch_loads_model_once_witness :
  BatchExample.engine_calls ToyOs.World unit unit (snd toy_batch) = []
  \/ exists k,
       BatchExample.engine_calls ToyOs.World unit unit (snd toy_batch)
       = Transcriber.LoadModel "small" None
         :: repeat (Transcriber.ModelTranscribe "transcribe") (S k).
Proof.
  exact (batch_loads_model_once ToyOs.World ToyOs.resolve ToyOs.path_exists
           ToyOs.getcwd ToyOs.from_file ToyOs.duration_text ToyOs.named_temporary_file
           ToyOs.export ToyOs.unlink ToyOs.downmix ToyOs.resample ToyOs.write_file
           toy_glob true unit toy_load toy_transcribe_array unit (fun _ _ => tt) tt
           (fun _ _ => tt) (fun _ => "0.00"%string) "/work" false "small" None
           "transcribe" ["txt"]%string ["/work/a.wav"; "/work/b.wav"]%string tt eq_refl).
Defined.

(** X25. [process_audio_batch] raises only what the constructor of the
    transcriber raises: it raises exactly when audio files were found and
    Whisper is missing or the model name is not one of the sizes; what goes
    wrong with a file is printed and the batch goes on.  The dict it returns
    has entries for files of the batch only, and none when no file was
    found. *)
Theorem process_audio_batch_outcome (World : Type)
    (resolve : World -> string -> string) (path_exists : World -> string -> bool)
    (getcwd : World -> string)
    (from_file : World -> string -> Audio.AudioSegment + string)
    (duration_text : Audio.AudioSegment -> string)
    (named_temporary_file : World -> World * (string + string))
    (export : World -> Audio.AudioSegment -> string -> World * option string)
    (unlink : World -> string -> World * option string)
    (downmix : Audio.AudioSegment -> positive -> list Z)
    (resample : Audio.AudioSegment -> N -> list Z)
    (write_file : World -> string -> string -> World * option string)
    (glob : World -> string -> bool -> list string)
    (whisper_available : bool) (Model : Type)
    (whisper_load_model : string -> option string -> Model + string)
    (model_transcribe :
       Model -> list Z -> option string -> string -> Transcriber.WhisperOutput + string)
    (Seconds : Type) (elapsed : World -> World -> Seconds)
    (seconds_zero : Seconds) (seconds_add : Seconds -> Seconds -> Seconds)
    (seconds_text : Seconds -> string)
    (directory : string) (recursive : bool) (model_name : string)
    (language : option string) (task : string) (formats : list string) (w : World) :
  let out :=
    BatchExample.process_audio_batch World resolve path_exists getcwd from_file
      duration_text named_temporary_file export unlink downmix resample write_file glob
      whisper_available Model whisper_load_model model_transcribe Seconds elapsed
      seconds_zero seconds_add seconds_text directory recursive model_name language task
      formats w in
  let audio_files := CliRun.find_audio_files World glob w directory recursive in
  ((exists e, fst out = AudioIo.Fail e)
   <-> audio_files <> []
       /\ (whisper_available = false \/ ~ In model_name Transcriber.WHISPER_MODELS))
  /\ (forall dict path,
        fst out = AudioIo.Done dict -> is_Some (dict !! path) -> In path audio_files)
  /\ (audio_files = [] -> fst out = AudioIo.Done ∅).
Proof.
  intros out audio_files.
  unfold out, BatchExample.process_audio_batch. fold audio_files.
  destruct audio_files as [|f rest] eqn:Ef.
  { cbn [fst]. split; [|split; [|reflexivity]].
    - split; [now intros [e H] | now intros [H _]].
    - intros dict path [= <-] H. rewrite lookup_empty in H. now destruct H. }
  unfold Transcriber.init.
  destruct whisper_available; cbn [negb].
  - destruct (existsb (String.eqb model_name) Transcriber.WHISPER_MODELS) eqn:Em;
      cbn [negb fst].
    + apply TranscriberFacts.in_models in Em.
      split; [|split; [|discriminate]].
      * split; [now intros [e H]|]. intros [_ [H|H]]; [discriminate H | now elim H].
      * intros dict path [= <-] H.
        destruct (BatchFacts.fold_keys World resolve path_exists getcwd from_file
                    duration_text named_temporary_file export unlink downmix resample
                    write_file Model whisper_load_model model_transcribe Seconds elapsed
                    seconds_add seconds_text language task formats (f :: rest) _ path H)
          as [Hin|Hs]; [exact Hin|].
        cbn [BatchExample.results] in Hs. rewrite lookup_empty in Hs. now destruct Hs.
    + assert (N : ~ In model_name Transcriber.WHISPER_MODELS).
      { intros H. apply TranscriberFacts.in_models in H. congruence. }
      split; [|split; [|discriminate]].
      * split; [intros _; split; [discriminate | now right] | intros _; now eexists].
      * discriminate.
  - cbn [fst]. split; [|split; [|discriminate]].
    + split; [intros _; split; [discriminate | now left] | intros _; now eexists].
    + discriminate.
Qed.

(** X26. In the example batch a file whose transcription raises keeps its
    temporary file: when the audio stage of a turn returned and
    [transcribe] raises, the turn ends in the world the audio stage left,
    with no call to [unlink], the file gets no entry in [results], and the
    error is printed. *)
Theorem batch_turn_keeps_temp_file (World : Type)
    (resolve : World -> string -> string) (path_exists : World -> string -> bool)
    (getcwd : World -> string)
    (from_file : World -> string -> Audio.AudioSegment + string)
    (duration_text : Audio.AudioSegment -> string)
    (named_temporary_file : World -> World * (string + string))
    (export : World -> Audio.AudioSegment -> string -> World * option string)
    (unlink : World -> string -> World * option string)
    (downmix : Audio.AudioSegment -> positive -> list Z)
    (resample : Audio.AudioSegment -> N -> list Z)
    (write_file : World -> string -> string -> World * option string)
    (Model : Type)
    (whisper_load_model : string -> option string -> Model + string)
    (model_transcribe :
       Model -> list Z -> option string -> string -> Transcriber.WhisperOutput + string)
    (Seconds : Type) (elapsed : World -> World -> Seconds)
    (seconds_add : Seconds -> Seconds -> Seconds) (seconds_text : Seconds -> string)
    (language : option string) (task : string) (formats : list string)
    (st : BatchExample.batch_state World Model Seconds) (audio_path : string)
    (audio_array : list Z) (temp_file : string) (w1 : World)
    (log1 : list log_record) (e : exn) (t : Transcriber.WhisperTranscriber Model)
    (calls : list Transcriber.engine_call) :
  AudioIo.process_audio_file World resolve path_exists getcwd from_file duration_text
    named_temporary_file export downmix resample
    (BatchExample.bworld World Model Seconds st) audio_path
  = (AudioIo.Done (audio_array, temp_file), w1, log1) ->
  Transcriber.transcribe Model (list Z) whisper_load_model model_transcribe
    (BatchExample.transcriber World Model Seconds st) audio_array language task
  = (Raise e, t, calls) ->
  let st' :=
    BatchExample.batch_step World resolve path_exists getcwd from_file duration_text
      named_temporary_file export unlink downmix resample write_file Model
      whisper_load_model model_transcribe Seconds elapsed seconds_add seconds_text
      language task formats st audio_path in
  BatchExample.bworld World Model Seconds st' = w1
  /\ BatchExample.results World Model Seconds st'
     = BatchExample.results World Model Seconds st
  /\ BatchExample.printed World Model Seconds st'
     = app (BatchExample.printed World Model Seconds st)
           [("Error processing " ++ audio_path ++ ": "
             ++ AudioIo.error_message (AudioIo.Exn e))%string].
Proof.
  intros H1 H2 st'.
  destruct (BatchFacts.step_leaves_temp World resolve path_exists getcwd from_file
              duration_text named_temporary_file export unlink downmix resample
              write_file Model whisper_load_model model_transcribe Seconds elapsed
              seconds_add seconds_text language task formats st audio_path
              audio_array temp_file w1 log1 e t calls H1 H2) as [Hw Hr].
  split; [exact Hw|]. split; [exact Hr|].
  unfold st', BatchExample.batch_step. rewrite H1, H2. reflexivity.
Qed.

(** X26, used once: the toy system with an engine that fails; the temporary
    file [/tmp/t.wav] is still there after the turn. *)
Lemma batch_turn_keeps_temp_file_witness :
  ToyOs.path_exists
    (BatchExample.bworld ToyOs.World unit unit (toy_failed_turn toy_turn_start))
    "/tmp/t.wav" = true.
Proof.
  pose proof (batch_turn_keeps_temp_file ToyOs.World ToyOs.resolve ToyOs.path_exists
                ToyOs.getcwd ToyOs.from_file ToyOs.duration_text
                ToyOs.named_temporary_file ToyOs.export ToyOs.unlink ToyOs.downmix
                ToyOs.resample ToyOs.write_file unit toy_load toy_engine_down unit
                (fun _ _ => tt) (fun _ _ => tt) (fun _ => "0.00"%string) None
                "transcribe" ["txt"]%string toy_turn_start "/work/a.wav"
                _ _ _ _ _ _ _ eq_refl eq_refl) as [H _].
  unfold toy_failed_turn. rewrite H. reflexivity.
Defined.
